(** * A NEAT genome: node genes, connection genes, mutation and crossover

    Shallow embedding of [genome.go] (package [neat]).  The Go program
    works on a garbage-collected heap of [NodeGene], [ConnGene] and
    [Genome] objects reached through pointers, draws from the process-wide
    [math/rand] source and ranges over a Go map.  The embedding keeps all
    three visible:

    - the heap is a record of three growing arrays, a pointer is an index
      into one of them, and dereferencing a pointer that is not allocated
      (Go's [nil]) panics; [new] and [&T{...}] append to an array, and
      allocation never fails;
    - a slice is a list: two genomes never share a backing array;
    - every function is a computation in a state-and-panic monad whose
      state is the heap together with the state of the random source; a
      panic keeps the state it happened in;
    - [math/rand] and the order in which [range] walks a map are an
      interface ([Runtime]) with the contract the Go documentation gives.

    Weights are IEEE 754 binary64 numbers, as Go's [float64]; ids, indices
    and counts are integers. *)

From Stdlib Require Import ZArith Floats.
From stdpp Require Import gmap strings list pretty.

Local Open Scope Z_scope.

(** ** Data model *)

(** A pointer: the index of an object in the heap array of its type. *)
Abbreviation loc := nat (only parsing).

(** [type NodeGene struct { ID int; Type string; Activation *ActivationFunc }].
    The field [Type] is [Type_] here ([Type] is reserved); the activation
    pointer is [None] for Go's [nil]. *)
Record NodeGene := mkNodeGene {
  ID : Z;
  Type_ : string;
  Activation : option loc
}.

(** [type ConnGene struct { From, To *NodeGene; Weight float64; Disabled bool }] *)
Record ConnGene := mkConnGene
  { From : loc; To : loc; Weight : float; Disabled : bool }.

(** [type Genome struct { ID int; NodeGenes []*NodeGene; ConnGenes []*ConnGene }].
    The field [ID] is [GenomeID] here, next to the [ID] of a node. *)
Record Genome := mkGenome {
  GenomeID : Z;
  NodeGenes : list loc;
  ConnGenes : list loc
}.

Record Heap := mkHeap {
  nodes : list NodeGene;
  conns : list ConnGene;
  genomes : list Genome
}.

(** ** Properties of genomes and of runs

    The vocabulary in which the behaviour of the program is stated. *)

(** [nodes[i].ID == i] for every index of the node list. *)
Definition id_as_index (h : Heap) (gv : Genome) : Prop :=
  forall i p, NodeGenes gv !! i = Some p -> ID <$> nodes h !! p = Some (Z.of_nat i).

(** The pair [(From.ID, To.ID)] of a connection gene, read off the heap. *)
Definition conn_key (h : Heap) (conn : loc) : option (Z * Z) :=
  c ← conns h !! conn;
  from ← nodes h !! From c;
  to ← nodes h !! To c;
  Some (ID from, ID to).

(** The tuple [(From.ID, To.ID, Weight, Disabled)] of a connection gene. *)
Definition conn_tuple (h : Heap) (conn : loc) : option (Z * Z * float * bool) :=
  c ← conns h !! conn;
  k ← conn_key h conn;
  Some (k.1, k.2, Weight c, Disabled c).

(** Every connection gene of the genome is allocated and its two ends are
    node objects of the genome's own node list. *)
Definition endpoints_owned (h : Heap) (gv : Genome) : Prop :=
  forall conn, conn ∈ ConnGenes gv ->
    exists c, conns h !! conn = Some c /\ From c ∈ NodeGenes gv /\
              To c ∈ NodeGenes gv.

(** At most one connection gene per ordered pair [(From.ID, To.ID)]. *)
Definition unique_pairs (h : Heap) (gv : Genome) : Prop :=
  forall i j ci cj k,
    ConnGenes gv !! i = Some ci -> ConnGenes gv !! j = Some cj ->
    conn_key h ci = Some k -> conn_key h cj = Some k -> i = j.

(** The invariants of the data model, together. *)
Record valid_genome (h : Heap) (gv : Genome) : Prop := {
  valid_ids : id_as_index h gv;
  valid_endpoints : endpoints_owned h gv;
  valid_unique : unique_pairs h gv
}.

(** Is one of the genes of [l] a connection from the node object [n0] to
    the node object [n1]? *)
Definition has_edge (h : Heap) (l : list loc) (n0 n1 : loc) : bool :=
  existsb (fun conn => match conns h !! conn with
                       | Some c => (From c =? n0)%nat && (To c =? n1)%nat
                       | None => false
                       end) l.

(** Is the gene allocated and enabled, or allocated and disabled, in [h]? *)
Definition enabled_in (h : Heap) (conn : loc) : bool :=
  match conns h !! conn with Some c => negb (Disabled c) | None => false end.

Definition disabled_in (h : Heap) (conn : loc) : bool :=
  match conns h !! conn with Some c => Disabled c | None => false end.

(** The connection genes of [l] that are enabled in [h] and disabled in [h']. *)
Definition newly_disabled (h h' : Heap) (l : list loc) : list loc :=
  List.filter (fun conn => enabled_in h conn && disabled_in h' conn) l.

(** The connection genes of [l] with their keys, when every gene and both
    of its ends are allocated. *)
Definition keyed (h : Heap) (l : list loc) : option (list ((Z * Z) * loc)) :=
  mapM (fun conn => k ← conn_key h conn; Some (k, conn)) l.

(** [l[i]] as a partial function. *)
Definition at_index {A} (l : list A) (i : Z) : option A :=
  if decide (0 <= i) then l !! Z.to_nat i else None.

(** The gene [Crossover] builds for [conn] once the child's node list
    [nodeGenes] is there, when no dereference or index fails. *)
Definition copied_conn (h : Heap) (nodeGenes : list loc) (conn : loc)
  : option ConnGene :=
  c ← conns h !! conn;
  from ← nodes h !! From c;
  from' ← at_index nodeGenes (ID from);
  to ← nodes h !! To c;
  to' ← at_index nodeGenes (ID to);
  Some (mkConnGene from' to' (Weight c) (Disabled c)).

(** What the two loops over the parents' connection lists read: the two
    genomes and their genes with keys. *)
Definition innov_input (h : Heap) (g0 g1 : loc)
  : option (Genome * Genome * list ((Z * Z) * loc) * list ((Z * Z) * loc)) :=
  gv0 ← genomes h !! g0;
  genes0 ← keyed h (ConnGenes gv0);
  gv1 ← genomes h !! g1;
  genes1 ← keyed h (ConnGenes gv1);
  Some (gv0, gv1, genes0, genes1).

(** One of the genes of [l] has the tuple [t]. *)
Definition has_tuple (h : Heap) (l : list loc) (t : Z * Z * float * bool) : Prop :=
  exists conn, conn ∈ l /\ conn_tuple h conn = Some t.

(** Every object of [h] is still there, unchanged, in [h']. *)
Definition heap_extends (h h' : Heap) : Prop :=
  nodes h `prefix_of` nodes h' /\
  conns h `prefix_of` conns h' /\
  genomes h `prefix_of` genomes h'.

(** ** The Go runtime the package relies on

    [Float64] returns a number in the half-open interval [[0.0,1.0)],
    [NormFloat64] any float, [Intn n] a number in [[0,n)] (it panics for
    [n <= 0], which [intn] below writes out), and [range] over a map visits
    every entry once in an order the language leaves unspecified. *)
Class Runtime := {
  Src : Type;
  Float64 : Src -> float * Src;
  NormFloat64 : Src -> float * Src;
  Intn_pos : Z -> Src -> Z * Src;
  range_order : gmap (Z * Z) loc -> Src -> list ((Z * Z) * loc) * Src;
  Float64_range : forall r,
    PrimFloat.leb 0 (Float64 r).1 = true /\ PrimFloat.ltb (Float64 r).1 1 = true;
  Intn_pos_range : forall n r, 0 < n -> 0 <= (Intn_pos n r).1 < n;
  range_order_perm : forall m r, (range_order m r).1 ≡ₚ map_to_list m
}.

Section Neat.

Context {RT : Runtime}.

(** [var ActivationSet map[string]*ActivationFunc], declared in another file
    of the package: the registry is a parameter of the development. *)
Variable ActivationSet : gmap string loc.

Record State := mkState {
  heap : Heap;
  rand : Src
}.

(** ** The state-and-panic monad *)

Inductive outcome (A : Type) : Type :=
| Done (a : A) (s : State)
| Panicked (s : State).
Global Arguments Done {A} a s.
Global Arguments Panicked {A} s.

Definition M (A : Type) : Type := State -> outcome A.

Definition ret {A} (a : A) : M A := fun s => Done a s.

Definition bind {A B} (m : M A) (k : A -> M B) : M B :=
  fun s => match m s with
           | Done a s' => k a s'
           | Panicked s' => Panicked s'
           end.

Definition panic {A} : M A := fun s => Panicked s.

Notation "'do' x <- m ; k" := (bind m (fun x => k))
  (at level 10, x name, m at level 100, k at level 200).
Notation "'run' m ; k" := (bind m (fun _ => k))
  (at level 10, m at level 100, k at level 200).

(** The state an outcome ends in, whether the call returned or panicked. *)
Definition final {A} (o : outcome A) : State :=
  match o with Done _ s => s | Panicked s => s end.

(** [wp m s Q E]: from [s], [m] returns a value and a state that satisfy
    [Q], or panics in a state that satisfies [E]. *)
Definition wp {A} (m : M A) (s : State) (Q : A -> State -> Prop)
    (E : State -> Prop) : Prop :=
  match m s with
  | Done a s' => Q a s'
  | Panicked s' => E s'
  end.

(** *** Heap access *)

Definition deref {A} (sel : Heap -> list A) (p : loc) : M A :=
  fun s => match sel (heap s) !! p with
           | Some v => Done v s
           | None => Panicked s
           end.

Definition get_node : loc -> M NodeGene := deref nodes.
Definition get_conn : loc -> M ConnGene := deref conns.
Definition get_genome : loc -> M Genome := deref genomes.

Definition set_conn (p : loc) (c : ConnGene) : M unit :=
  fun s => let h := heap s in
           if decide (p < length (conns h))%nat
           then Done tt (mkState (mkHeap (nodes h) (<[p:=c]> (conns h)) (genomes h)) (rand s))
           else Panicked s.

Definition set_genome (p : loc) (g : Genome) : M unit :=
  fun s => let h := heap s in
           if decide (p < length (genomes h))%nat
           then Done tt (mkState (mkHeap (nodes h) (conns h) (<[p:=g]> (genomes h))) (rand s))
           else Panicked s.

Definition alloc_node (n : NodeGene) : M loc :=
  fun s => let h := heap s in
           Done (length (nodes h))
                (mkState (mkHeap (nodes h ++ [n]) (conns h) (genomes h)) (rand s)).

Definition alloc_conn (c : ConnGene) : M loc :=
  fun s => let h := heap s in
           Done (length (conns h))
                (mkState (mkHeap (nodes h) (conns h ++ [c]) (genomes h)) (rand s)).

Definition alloc_genome (g : Genome) : M loc :=
  fun s => let h := heap s in
           Done (length (genomes h))
                (mkState (mkHeap (nodes h) (conns h) (genomes h ++ [g])) (rand s)).

(** Slice indexing [l[i]] with Go's bounds check. *)
Definition index {A} (l : list A) (i : Z) : M A :=
  if decide (0 <= i)
  then match l !! Z.to_nat i with
       | Some v => ret v
       | None => panic
       end
  else panic.

(** *** Random draws *)

Definition float64 : M float :=
  fun s => Done (Float64 (rand s)).1 (mkState (heap s) (Float64 (rand s)).2).

Definition normFloat64 : M float :=
  fun s => Done (NormFloat64 (rand s)).1 (mkState (heap s) (NormFloat64 (rand s)).2).

(** [rand.Intn(n)]: panics if [n <= 0]. *)
Definition intn (n : Z) : M Z :=
  fun s => if decide (n <= 0) then Panicked s
           else Done (Intn_pos n (rand s)).1 (mkState (heap s) (Intn_pos n (rand s)).2).

Definition map_range (m : gmap (Z * Z) loc) : M (list ((Z * Z) * loc)) :=
  fun s => Done (range_order m (rand s)).1 (mkState (heap s) (range_order m (rand s)).2).

(** *** Loops over a slice *)

Fixpoint for_each {A} (l : list A) (body : A -> M unit) : M unit :=
  match l with
  | [] => ret tt
  | x :: l' => run body x; for_each l' body
  end.

Fixpoint fold_each {A B} (body : B -> A -> M B) (acc : B) (l : list A) : M B :=
  match l with
  | [] => ret acc
  | x :: l' => do acc' <- body acc x; fold_each body acc' l'
  end.

Fixpoint map_each {A B} (body : A -> M B) (l : list A) : M (list B) :=
  match l with
  | [] => ret []
  | x :: l' => do y <- body x; do ys <- map_each body l'; ret (y :: ys)
  end.

(** ** The program *)

(** Go's [int] is 64 bits wide: sums and products wrap around. *)
Definition wrap64 (z : Z) : Z := (z + 2 ^ 63) `mod` 2 ^ 64 - 2 ^ 63.

(** [make([]T, 0, c)] panics when the capacity is negative (a capacity
    beyond what the machine can allocate is left out of the model). *)
Definition make_cap (c : Z) : M unit :=
  if decide (c < 0) then panic else ret tt.

Definition NewNodeGene (id : Z) (ntype : string) (activation : option loc) : M loc :=
  alloc_node (mkNodeGene id ntype activation).

Definition NewConnGene (from to : loc) (weight : float) : M loc :=
  alloc_conn (mkConnGene from to weight false).

(** The first loop of [NewGenome]: the input nodes. *)
Definition input_layer (numInputs : Z) : M (list loc) :=
  fold_each
    (fun nodeGenes i =>
       do inputNode <- NewNodeGene i "input" (ActivationSet !! "identity");
       ret (nodeGenes ++ [inputNode]))
    [] (seqZ 0 numInputs).

(** The second loop: each output node and its connections from every input. *)
Definition output_layer (numInputs numOutputs : Z) (nodeGenes0 : list loc)
  : M (list loc * list loc) :=
  fold_each
    (fun '(nodeGenes, connGenes) i =>
       do outputNode <- NewNodeGene i "output" (ActivationSet !! "sigmoid");
       let nodeGenes' := nodeGenes ++ [outputNode] in
       do connGenes' <-
         fold_each
           (fun connGenes j =>
              do from <- index nodeGenes' j;
              do w <- normFloat64;
              do conn <- NewConnGene from outputNode (PrimFloat.mul w 6);
              ret (connGenes ++ [conn]))
           connGenes (seqZ 0 numInputs);
       ret (nodeGenes', connGenes'))
    (nodeGenes0, [])
    (seqZ numInputs (wrap64 (numInputs + numOutputs) - numInputs)).

(** What the function literal [func() []*NodeGene { }()] of the returned
    struct yields: its body is empty, so the source does not say. *)
Variable literal_nodes : list loc.

(** The locals [nodeGenes] and [connGenes] as they stand when the loops of
    [NewGenome] are over. *)
Definition NewGenome_locals (numInputs numOutputs : Z) : M (list loc * list loc) :=
  run make_cap (wrap64 (numInputs + numOutputs));
  run make_cap (wrap64 (numInputs * numOutputs));
  do nodeGenes <- input_layer numInputs;
  output_layer numInputs numOutputs nodeGenes.

Definition NewGenome (id numInputs numOutputs : Z) : M loc :=
  do _locals <- NewGenome_locals numInputs numOutputs;
  alloc_genome (mkGenome id literal_nodes []).

(** The weight-perturbation loop of [Mutate]. *)
Definition perturb (ratePerturb : float) (connGenes : list loc) : M unit :=
  for_each connGenes (fun conn =>
    do x <- float64;
    if PrimFloat.ltb x ratePerturb
    then do d <- normFloat64;
         do c <- get_conn conn;
         set_conn conn (mkConnGene (From c) (To c) (PrimFloat.add (Weight c) d) (Disabled c))
    else ret tt).

(** The add-node step of [Mutate]. *)
Definition add_node (g : loc) (rateAddNode : float) : M unit :=
  do x <- float64;
  if PrimFloat.ltb x rateAddNode
  then do gv <- get_genome g;
       if negb (length (ConnGenes gv) =? 0)%nat
       then do k <- intn (Z.of_nat (length (ConnGenes gv)));
            do selected <- index (ConnGenes gv) k;
            do newNode <- NewNodeGene (Z.of_nat (length (NodeGenes gv))) "hidden"
                                      (ActivationSet !! "sigmoid");
            run set_genome g (mkGenome (GenomeID gv) (NodeGenes gv ++ [newNode]) (ConnGenes gv));
            do sel <- get_conn selected;
            do c1 <- NewConnGene (From sel) newNode 1;
            do c2 <- NewConnGene newNode (To sel) (Weight sel);
            do gv' <- get_genome g;
            run set_genome g (mkGenome (GenomeID gv') (NodeGenes gv') (ConnGenes gv' ++ [c1; c2]));
            do sel' <- get_conn selected;
            set_conn selected (mkConnGene (From sel') (To sel') (Weight sel') true)
       else ret tt
  else ret tt.

(** The search loop of the add-connection step: is there a connection
    from [n0] to [n1] (the same node objects)? *)
Fixpoint connected (connGenes : list loc) (n0 n1 : loc) : M bool :=
  match connGenes with
  | [] => ret false
  | conn :: rest =>
      do c <- get_conn conn;
      if (From c =? n0)%nat && (To c =? n1)%nat then ret true
      else connected rest n0 n1
  end.

(** The add-connection step of [Mutate]. *)
Definition add_conn (g : loc) (rateAddConn : float) : M unit :=
  do x <- float64;
  if PrimFloat.ltb x rateAddConn
  then do gv <- get_genome g;
       do k0 <- intn (Z.of_nat (length (NodeGenes gv)));
       do selectedNode0 <- index (NodeGenes gv) k0;
       do k1 <- intn (Z.of_nat (length (NodeGenes gv)));
       do selectedNode1 <- index (NodeGenes gv) k1;
       do found <- connected (ConnGenes gv) selectedNode0 selectedNode1;
       if found then ret tt
       else do w <- normFloat64;
            do newConn <- NewConnGene selectedNode0 selectedNode1 (PrimFloat.mul w 6);
            do gv' <- get_genome g;
            set_genome g (mkGenome (GenomeID gv') (NodeGenes gv') (ConnGenes gv' ++ [newConn]))
  else ret tt.

Definition Mutate (g : loc) (ratePerturb rateAddNode rateAddConn : float) : M unit :=
  do gv <- get_genome g;
  run perturb ratePerturb (ConnGenes gv);
  run add_node g rateAddNode;
  add_conn g rateAddConn.

(** The key [[2]int{conn.From.ID, conn.To.ID}] of a connection gene. *)
Definition innov_key (conn : loc) : M (Z * Z) :=
  do c <- get_conn conn;
  do from <- get_node (From c);
  do to <- get_node (To c);
  ret (ID from, ID to).

(** The first loop of [Crossover]: every connection of [g0] is recorded. *)
Definition record_genes (connGenes : list loc) : M (gmap (Z * Z) loc) :=
  fold_each
    (fun (m : gmap (Z * Z) loc) conn =>
       do k <- innov_key conn;
       ret (<[k := conn]> m))
    ∅ connGenes.

(** The second loop: a connection of [g1] whose key is taken replaces the
    recorded gene when the draw is below 0.5, and is added when it is not. *)
Definition align_genes (m0 : gmap (Z * Z) loc) (connGenes : list loc)
  : M (gmap (Z * Z) loc) :=
  fold_each
    (fun (m : gmap (Z * Z) loc) conn =>
       do innov <- innov_key conn;
       match m !! innov with
       | Some _ =>
           do x <- float64;
           if PrimFloat.ltb x 0.5 then ret (<[innov := conn]> m) else ret m
       | None => ret (<[innov := conn]> m)
       end)
    m0 connGenes.

(** The map [innovations] of [Crossover] after its two loops. *)
Definition innovations (g0 g1 : loc) : M (gmap (Z * Z) loc) :=
  do gv0 <- get_genome g0;
  do m0 <- record_genes (ConnGenes gv0);
  do gv1 <- get_genome g1;
  align_genes m0 (ConnGenes gv1).

Definition copy_node (p : loc) : M loc :=
  do n <- get_node p;
  alloc_node (mkNodeGene (ID n) (Type_ n) (Activation n)).

Definition copy_conn (nodeGenes : list loc) (conn : loc) : M loc :=
  do c <- get_conn conn;
  do from <- get_node (From c);
  do from' <- index nodeGenes (ID from);
  do to <- get_node (To c);
  do to' <- index nodeGenes (ID to);
  alloc_conn (mkConnGene from' to' (Weight c) (Disabled c)).

(** The parent whose node list is copied: [g1] only if it has more nodes. *)
Definition largerParent (gv0 gv1 : Genome) : Genome :=
  if (length (NodeGenes gv0) <? length (NodeGenes gv1))%nat then gv1 else gv0.

Definition Crossover (id : Z) (g0 g1 : loc) : M loc :=
  do innovs <- innovations g0 g1;
  do gv0 <- get_genome g0;
  do gv1 <- get_genome g1;
  do nodeGenes <- map_each copy_node (NodeGenes (largerParent gv0 gv1));
  do order <- map_range innovs;
  do connGenes <- map_each (fun kv => copy_conn nodeGenes kv.2) order;
  alloc_genome (mkGenome id nodeGenes connGenes).

(** The source after [n] uniform draws. *)
Fixpoint skip_floats (n : nat) (r : Src) : Src :=
  match n with
  | O => r
  | S n' => skip_floats n' (Float64 r).2
  end.

(** The heap the add-node step leaves when it fires on [selected]. *)
Definition split_conn (h : Heap) (g : loc) (gv : Genome) (selected : loc)
    (sel : ConnGene) : Heap :=
  let newNode := length (nodes h) in
  let c1 := length (conns h) in
  mkHeap
    (nodes h ++ [mkNodeGene (Z.of_nat (length (NodeGenes gv))) "hidden"
                            (ActivationSet !! "sigmoid")])
    (<[selected := mkConnGene (From sel) (To sel) (Weight sel) true]>
       (conns h ++ [mkConnGene (From sel) newNode 1 false;
                    mkConnGene newNode (To sel) (Weight sel) false]))
    (<[g := mkGenome (GenomeID gv) (NodeGenes gv ++ [newNode])
                     (ConnGenes gv ++ [c1; S c1])]>
       (<[g := mkGenome (GenomeID gv) (NodeGenes gv ++ [newNode]) (ConnGenes gv)]>
          (genomes h))).

(** *** The alignment map as the specification words it

    "First insert every connection of [g0]; then for every connection of
    [g1], if the key already exists, replace the stored gene with [g1]'s
    gene with probability 0.5 (otherwise keep [g0]'s), else insert [g1]'s
    gene directly."  The genes come with their keys; the coin is a uniform
    draw below 0.5. *)
Definition insert_all (genes : list ((Z * Z) * loc)) : gmap (Z * Z) loc :=
  foldl (fun m kc => <[kc.1 := kc.2]> m) ∅ genes.

Fixpoint align_spec (m : gmap (Z * Z) loc) (genes : list ((Z * Z) * loc))
    (r : Src) : gmap (Z * Z) loc * Src :=
  match genes with
  | [] => (m, r)
  | (k, conn) :: rest =>
      match m !! k with
      | Some _ =>
          let coin := PrimFloat.ltb (Float64 r).1 0.5 in
          align_spec (if coin then <[k := conn]> m else m) rest (Float64 r).2
      | None => align_spec (<[k := conn]> m) rest r
      end
  end.

Definition alignment_spec (genes0 genes1 : list ((Z * Z) * loc)) (r : Src)
  : gmap (Z * Z) loc * Src :=
  align_spec (insert_all genes0) genes1 r.

(** Every tie-break among the next [n] draws keeps the first gene. *)
Fixpoint keeps_first (n : nat) (r : Src) : Prop :=
  match n with
  | O => True
  | S n' => PrimFloat.ltb (Float64 r).1 0.5 = false /\ keeps_first n' (Float64 r).2
  end.

(** What a call of [Crossover] that returns leaves: the child is the one
    new genome, [vals] are its node objects and [cvals] its connection
    objects, all appended to the heap; the nodes are read off the larger
    parent's node list, the connections off the alignment map in the order
    [range] walked it. *)
Definition crossover_done (s : State) (id : Z) (g0 g1 : loc) (child : loc)
    (s' : State) : Prop :=
  exists gv0 gv1 genes0 genes1 vals cvals,
    innov_input (heap s) g0 g1 = Some (gv0, gv1, genes0, genes1) /\
    let h := heap s in
    let al := alignment_spec genes0 genes1 (rand s) in
    let order := (range_order al.1 al.2).1 in
    let nodeGenes :=
      seq (length (nodes h)) (length (NodeGenes (largerParent gv0 gv1))) in
    let connGenes := seq (length (conns h)) (length order) in
    child = length (genomes h) /\
    s' = mkState (mkHeap (nodes h ++ vals) (conns h ++ cvals)
                         (genomes h ++ [mkGenome id nodeGenes connGenes]))
                 (range_order al.1 al.2).2 /\
    Forall2 (fun p v => (nodes h ++ vals) !! p = Some v)
            (NodeGenes (largerParent gv0 gv1)) vals /\
    Forall2 (fun kv c' =>
               copied_conn (mkHeap (nodes h ++ vals) (conns h ++ cvals) (genomes h))
                           nodeGenes kv.2 = Some c')
            order cvals.

(** What a call of [Crossover] that panics leaves, and why it panicked:
    a parent or one of its genes could not be read, a node of the larger
    parent could not be read, or a gene of the alignment map could not be
    resolved in the child's node list. *)
Definition crossover_panicked (s : State) (g0 g1 : loc) (s' : State) : Prop :=
  let h := heap s in
  (exists vals cvals,
      heap s' = mkHeap (nodes h ++ vals) (conns h ++ cvals) (genomes h)) /\
  match innov_input h g0 g1 with
  | None => True
  | Some (gv0, gv1, genes0, genes1) =>
      let al := alignment_spec genes0 genes1 (rand s) in
      let order := (range_order al.1 al.2).1 in
      let nodeGenes :=
        seq (length (nodes h)) (length (NodeGenes (largerParent gv0 gv1))) in
      (exists p, p ∈ NodeGenes (largerParent gv0 gv1) /\ nodes h !! p = None) \/
      (exists vals kv,
          Forall2 (fun p v => (nodes h ++ vals) !! p = Some v)
                  (NodeGenes (largerParent gv0 gv1)) vals /\
          kv ∈ order /\
          copied_conn (mkHeap (nodes h ++ vals) (conns h) (genomes h))
                      nodeGenes kv.2 = None)
  end.

(** The genome [g] is allocated and its nodes carry their positions. *)
Definition indexed (g : loc) (s : State) : Prop :=
  exists gv, genomes (heap s) !! g = Some gv /\ id_as_index (heap s) gv.

(** The heap the add-connection step leaves when it links [n0] to [n1]. *)
Definition link_nodes (h : Heap) (g : loc) (gv : Genome) (n0 n1 : loc)
    (w : float) : Heap :=
  mkHeap (nodes h)
         (conns h ++ [mkConnGene n0 n1 w false])
         (<[g := mkGenome (GenomeID gv) (NodeGenes gv)
                          (ConnGenes gv ++ [length (conns h)])]> (genomes h)).

(** [n] calls in a row; a panic ends the sequence. *)
Fixpoint repeatM (n : nat) (m : M unit) : M unit :=
  match n with
  | O => ret tt
  | S n' => run m; repeatM n' m
  end.

(** The source after one round of the perturbation loop at rate 1 (a
    uniform draw, then the normal sample), and the sample of round [i]. *)
Definition perturb_next (r : Src) : Src := (NormFloat64 (Float64 r).2).2.

Fixpoint perturb_sample (i : nat) (r : Src) : float :=
  match i with
  | O => (NormFloat64 (Float64 r).2).1
  | S i' => perturb_sample i' (perturb_next r)
  end.

Fixpoint perturb_src (n : nat) (r : Src) : Src :=
  match n with
  | O => r
  | S n' => perturb_src n' (perturb_next r)
  end.

End Neat.

Notation "'do' x <- m ; k" := (bind m (fun x => k))
  (at level 10, x name, m at level 100, k at level 200).
Notation "'run' m ; k" := (bind m (fun _ => k))
  (at level 10, m at level 100, k at level 200).

(** ** A scripted runtime

    An instance of [Runtime] that replays lists of prepared draws; it is
    used to run the program on concrete inputs. *)

Record Script := mkScript {
  unif : list float;
  norm : list float;
  ints : list Z
}.

(** A prepared uniform draw outside [[0,1)] is replaced by 0.5. *)
Definition clamp (x : float) : float :=
  if PrimFloat.leb 0 x && PrimFloat.ltb x 1 then x else 0.5%float.

Definition script_Float64 (s : Script) : float * Script :=
  (clamp (hd 0.5%float (unif s)), mkScript (tl (unif s)) (norm s) (ints s)).

Definition script_NormFloat64 (s : Script) : float * Script :=
  (hd 0%float (norm s), mkScript (unif s) (tl (norm s)) (ints s)).

Definition script_Intn (n : Z) (s : Script) : Z * Script :=
  (hd 0 (ints s) `mod` n, mkScript (unif s) (norm s) (tl (ints s))).

Definition script_range (m : gmap (Z * Z) loc) (s : Script)
  : list ((Z * Z) * loc) * Script :=
  (map_to_list m, s).

#[export] Program Instance script_runtime : Runtime := {|
  Src := Script;
  Float64 := script_Float64;
  NormFloat64 := script_NormFloat64;
  Intn_pos := script_Intn;
  range_order := script_range
|}.
Next Obligation.
  intros r. cbn. unfold clamp.
  destruct (PrimFloat.leb 0 _ && PrimFloat.ltb _ 1) eqn:E.
  - by apply andb_true_iff in E.
  - split; reflexivity.
Qed.
Next Obligation. intros n r Hn. simpl. apply Z.mod_pos_bound. lia. Qed.
Next Obligation. reflexivity. Qed.


(** ** Concrete heaps and sources for running the program *)

Definition registry : gmap string loc :=
  <["identity" := 0%nat]> (<["sigmoid" := 1%nat]> ∅).

Definition empty_heap : Heap := mkHeap [] [] [].

(** Two input nodes, one output node and the two connections between
    them, owned by genome 0. *)
Definition small_heap : Heap := mkHeap
  [mkNodeGene 0 "input" (Some 0%nat); mkNodeGene 1 "input" (Some 0%nat);
   mkNodeGene 2 "output" (Some 1%nat)]
  [mkConnGene 0%nat 2%nat 0.25 false; mkConnGene 1%nat 2%nat (-3) false]
  [mkGenome 1 [0; 1; 2]%nat%list [0; 1]%nat%list].

Definition small_genome : Genome := mkGenome 1 [0; 1; 2]%nat%list [0; 1]%nat%list.

(** [small_heap] after one add-node mutation that split connection 1. *)
Definition worn_heap : Heap := mkHeap
  [mkNodeGene 0 "input" (Some 0%nat); mkNodeGene 1 "input" (Some 0%nat);
   mkNodeGene 2 "output" (Some 1%nat); mkNodeGene 3 "hidden" (Some 1%nat)]
  [mkConnGene 0%nat 2%nat 0.25 false; mkConnGene 1%nat 2%nat (-3) true;
   mkConnGene 1%nat 3%nat 1 false; mkConnGene 3%nat 2%nat (-3) false]
  [mkGenome 1 [0; 1; 2; 3]%nat%list [0; 1; 2; 3]%nat%list].

(** Two genomes with their own node objects: both connect 0 to 2, the
    first also 1 to 2, the second also 1 to 0. *)
Definition pair_heap : Heap := mkHeap
  [mkNodeGene 0 "input" (Some 0%nat); mkNodeGene 1 "input" (Some 0%nat);
   mkNodeGene 2 "output" (Some 1%nat);
   mkNodeGene 0 "input" (Some 0%nat); mkNodeGene 1 "input" (Some 0%nat);
   mkNodeGene 2 "output" (Some 1%nat)]
  [mkConnGene 0%nat 2%nat 0.25 false; mkConnGene 1%nat 2%nat (-3) false;
   mkConnGene 3%nat 5%nat 8 false; mkConnGene 4%nat 3%nat 2 true]
  [mkGenome 1 [0; 1; 2]%nat%list [0; 1]%nat%list;
   mkGenome 2 [3; 4; 5]%nat%list [2; 3]%nat%list].

Definition first_genome : Genome := mkGenome 1 [0; 1; 2]%nat%list [0; 1]%nat%list.
Definition second_genome : Genome := mkGenome 2 [3; 4; 5]%nat%list [2; 3]%nat%list.

(** A smaller second parent whose only node carries the id 7. *)
Definition odd_heap : Heap := mkHeap
  [mkNodeGene 0 "input" (Some 0%nat); mkNodeGene 1 "output" (Some 1%nat);
   mkNodeGene 7 "hidden" (Some 1%nat)]
  [mkConnGene 0%nat 1%nat 0.5 false; mkConnGene 2%nat 2%nat 2 false]
  [mkGenome 1 [0; 1]%nat%list [0]%nat%list; mkGenome 2 [2]%nat%list [1]%nat%list].

(** A genome without nodes or connections. *)
Definition bare_heap : Heap := mkHeap [] [] [mkGenome 5 [] []].

Definition script (us ns : list float) (ks : list Z) : Script := mkScript us ns ks.

Definition small_state : State := mkState small_heap (script [] [1; 2]%float [1]).
Definition worn_state : State := mkState worn_heap (script [] [] [1]).
Definition linked_state : State := mkState small_heap (script [] [] [0; 2]).
Definition pair_state : State := mkState pair_heap (script [0.5; 0.75]%float [] []).
Definition odd_state : State := mkState odd_heap (script [] [] []).
Definition bare_state : State := mkState bare_heap (script [] [] []).

(** ** More vocabulary: what a mutation may change *)

(** [h'] has the node objects of [h] and no others, and every connection
    object of [h] with the ends and the disabled flag it had: only weights
    may differ. *)
Definition same_genes (h h' : Heap) : Prop :=
  nodes h' = nodes h /\
  genomes h' = genomes h /\
  length (conns h') = length (conns h) /\
  forall p c, conns h !! p = Some c ->
    exists c', conns h' !! p = Some c' /\
               From c' = From c /\ To c' = To c /\ Disabled c' = Disabled c.

(** [h'] keeps what [h] has: node objects as they were, connection
    objects with the ends they had and never enabled again once disabled,
    and every genome other than [g] as it was. *)
Definition genes_kept (g : loc) (h h' : Heap) : Prop :=
  nodes h `prefix_of` nodes h' /\
  (length (conns h) <= length (conns h'))%nat /\
  (forall p c, conns h !! p = Some c ->
     exists c', conns h' !! p = Some c' /\
                From c' = From c /\ To c' = To c /\
                (Disabled c = true -> Disabled c' = true)) /\
  length (genomes h') = length (genomes h) /\
  (forall g', g' <> g -> genomes h' !! g' = genomes h !! g').

(** The genome [g] of [h'] is the genome [g] of [h] with at most [dn]
    nodes and [dc] connections appended. *)
Definition grown_by (g : loc) (dn dc : nat) (h h' : Heap) : Prop :=
  genes_kept g h h' /\
  forall gv, genomes h !! g = Some gv ->
    exists gv', genomes h' !! g = Some gv' /\
                GenomeID gv' = GenomeID gv /\
                NodeGenes gv `prefix_of` NodeGenes gv' /\
                ConnGenes gv `prefix_of` ConnGenes gv' /\
                (length (NodeGenes gv') <= length (NodeGenes gv) + dn)%nat /\
                (length (ConnGenes gv') <= length (ConnGenes gv) + dc)%nat.
(** No connection object outside [l] has changed from the store [cs] to
    the store [cs']. *)
Definition untouched (l : list loc) (cs cs' : list ConnGene) : Prop :=
  forall p c, p ∉ l -> cs !! p = Some c -> cs' !! p = Some c.

(** The part of a rate that matters.  A uniform draw lies in [[0,1)], so a
    rate that is not above 0 (a NaN among them) acts as 0, and a rate of 1
    or more acts as 1. *)
Definition effective_rate (r : float) : float :=
  if PrimFloat.ltb 0 r then (if PrimFloat.leb 1 r then 1 else r) else 0.

(** The node objects the two loops of [NewGenome] create, in creation
    order. *)
Definition layer_nodes (ActivationSet : gmap string loc) (numInputs numOutputs : Z)
  : list NodeGene :=
  ((fun i => mkNodeGene i "input" (ActivationSet !! "identity")) <$> seqZ 0 numInputs) ++
  ((fun i => mkNodeGene i "output" (ActivationSet !! "sigmoid"))
     <$> seqZ numInputs numOutputs).

(** The connection objects of the store [cs] from position [C] on join,
    row by row, each of [a] input nodes to one output node: the object
    [q] places after [C] goes from input [q mod a] to output [q / a], the
    node objects starting at [N], and is enabled. *)
Definition wired (a N C : nat) (cs : list ConnGene) : Prop :=
  forall q c, cs !! (C + q)%nat = Some c ->
    From c = (N + q mod a)%nat /\ To c = (N + a + q / a)%nat /\ Disabled c = false.

Section Draws.

Context {RT : Runtime}.

(** Every tie-break among the next [n] draws takes the second gene. *)
Fixpoint takes_second (n : nat) (r : Src) : Prop :=
  match n with
  | O => True
  | S n' => PrimFloat.ltb (Float64 r).1 0.5 = true /\ takes_second n' (Float64 r).2
  end.

End Draws.

(** ** The textual rendering

    The three [String] methods only read the heap: a rendering is a
    string, or nothing where the method panics on a nil pointer. *)

Definition newline : string := String (Ascii.ascii_of_nat 10) EmptyString.

Section Rendering.

(** The field [Name] of the activation descriptor an address points to
    (the type [ActivationFunc] is declared elsewhere in the package). *)
Variable ActivationName : loc -> string.

(** [fmt.Sprintf("%.3f", w)] of the Go standard library. *)
Variable Sprintf_3f : float -> string.

(** [fmt.Sprintf("[%s(%d, %s)]", n.Type, n.ID, n.Activation.Name)] *)
Definition NodeGene_String (h : Heap) (n : loc) : option string :=
  v ← nodes h !! n;
  a ← Activation v;
  Some ("[" +:+ Type_ v +:+ "(" +:+ pretty (ID v) +:+ ", " +:+ ActivationName a
        +:+ ")]").

Definition ConnGene_String (h : Heap) (c : loc) : option string :=
  cv ← conns h !! c;
  let connectivity := if Disabled cv then "/" else Sprintf_3f (Weight cv) in
  from ← NodeGene_String h (From cv);
  to ← NodeGene_String h (To cv);
  Some (from +:+ "--" +:+ connectivity +:+ "--" +:+ to).

(** The loop of [Genome.String]: [str += conn.String() + "\n"]. *)
Fixpoint append_conns (h : Heap) (str : string) (connGenes : list loc)
  : option string :=
  match connGenes with
  | [] => Some str
  | conn :: rest =>
      line ← ConnGene_String h conn;
      append_conns h (str +:+ (line +:+ newline)) rest
  end.

(** [str[:len(str)-1]]: slicing panics when the string is empty. *)
Definition without_last_byte (str : string) : option string :=
  if decide (String.length str = 0)%nat then None
  else Some (String.substring 0 (String.length str - 1) str).

Definition Genome_String (h : Heap) (g : loc) : option string :=
  gv ← genomes h !! g;
  str ← append_conns h ("Genome(" +:+ pretty (GenomeID gv) +:+ "):" +:+ newline)
                     (ConnGenes gv);
  without_last_byte str.

End Rendering.

(** ** More concrete data *)

(** A registry without the entry ["sigmoid"]. *)
Definition bare_registry : gmap string loc := <["identity" := 0%nat]> ∅.

(** The names of the two activation descriptors of [registry]. *)
Definition registry_names (a : loc) : string :=
  if (a =? 0)%nat then "identity" else "sigmoid".

(** A stand-in for the formatter that shows every weight alike. *)
Definition fixed_3f (w : float) : string := "0.000".

(** The two genomes of [pair_heap] with two uniform draws below 0.5. *)
Definition second_state : State := mkState pair_heap (script [0.25; 0.125]%float [] []).

(** Both node draws of the add-connection step pick node 2. *)
Definition loop_state : State := mkState small_heap (script [] [] [2; 2]).

(** * Properties *)

Section Facts.

Context {RT : Runtime}.
Variable ActivationSet : gmap string loc.

(** ** The monad *)

Lemma bind_done {A B} (m : M A) (k : A -> M B) s a s' :
  m s = Done a s' -> bind m k s = k a s'.
Proof. unfold bind. by intros ->. Qed.

Lemma bind_panicked {A B} (m : M A) (k : A -> M B) s s' :
  m s = Panicked s' -> bind m k s = Panicked s'.
Proof. unfold bind. by intros ->. Qed.

Lemma deref_done {A} (sel : Heap -> list A) p s v :
  sel (heap s) !! p = Some v -> deref sel p s = Done v s.
Proof. unfold deref. by intros ->. Qed.

Lemma deref_panicked {A} (sel : Heap -> list A) p s :
  sel (heap s) !! p = None -> deref sel p s = Panicked s.
Proof. unfold deref. by intros ->. Qed.

Lemma index_done {A} (l : list A) (i : Z) v s :
  0 <= i -> l !! Z.to_nat i = Some v -> index l i s = Done v s.
Proof. intros Hi Hv. unfold index. rewrite decide_True by done. by rewrite Hv. Qed.

(** ** Uniform draws against the rates 0 and 1 *)

Lemma nonneg_not_below_zero (x : float) :
  PrimFloat.leb 0 x = true -> PrimFloat.ltb x 0 = false.
Proof.
  rewrite leb_spec, ltb_spec.
  change (Prim2SF 0) with (S754_zero false).
  destruct (Prim2SF x) as [sg|sg| |sg m e]; try destruct sg; cbn; congruence.
Qed.

Lemma draw_not_below_zero (r : Src) : PrimFloat.ltb (Float64 r).1 0 = false.
Proof. apply nonneg_not_below_zero, Float64_range. Qed.

Lemma draw_below_one (r : Src) : PrimFloat.ltb (Float64 r).1 1 = true.
Proof. apply Float64_range. Qed.

(** ** Outcomes *)

Lemma wp_bind {A B} (m : M A) (k : A -> M B) s Q E :
  wp m s (fun a s' => wp (k a) s' Q E) E -> wp (bind m k) s Q E.
Proof. unfold wp, bind. by destruct (m s). Qed.

Lemma wp_mono {A} (m : M A) s (Q Q' : A -> State -> Prop) (E E' : State -> Prop) :
  wp m s Q E ->
  (forall a s', Q a s' -> Q' a s') -> (forall s', E s' -> E' s') ->
  wp m s Q' E'.
Proof. unfold wp. destruct (m s); eauto. Qed.

Lemma wp_deref {A} (sel : Heap -> list A) p s (Q : A -> State -> Prop) E :
  (forall v, sel (heap s) !! p = Some v -> Q v s) ->
  (sel (heap s) !! p = None -> E s) ->
  wp (deref sel p) s Q E.
Proof. unfold wp, deref. destruct (sel (heap s) !! p); eauto. Qed.

Lemma wp_index {A} (l : list A) i s (Q : A -> State -> Prop) E :
  (forall v, at_index l i = Some v -> Q v s) ->
  (at_index l i = None -> E s) ->
  wp (index l i) s Q E.
Proof.
  unfold wp, index, at_index, ret, panic.
  destruct (decide (0 <= i)); [|by eauto].
  destruct (l !! Z.to_nat i); eauto.
Qed.

Lemma wp_ret {A} (a : A) s (Q : A -> State -> Prop) E :
  Q a s -> wp (ret a) s Q E.
Proof. done. Qed.

Lemma wp_float64 s (Q : float -> State -> Prop) E :
  Q (Float64 (rand s)).1 (mkState (heap s) (Float64 (rand s)).2) ->
  wp float64 s Q E.
Proof. done. Qed.

Lemma wp_normFloat64 s (Q : float -> State -> Prop) E :
  Q (NormFloat64 (rand s)).1 (mkState (heap s) (NormFloat64 (rand s)).2) ->
  wp normFloat64 s Q E.
Proof. done. Qed.

Lemma wp_intn n s (Q : Z -> State -> Prop) E :
  (0 < n -> 0 <= (Intn_pos n (rand s)).1 < n ->
   Q (Intn_pos n (rand s)).1 (mkState (heap s) (Intn_pos n (rand s)).2)) ->
  (n <= 0 -> E s) ->
  wp (intn n) s Q E.
Proof.
  unfold wp, intn. destruct (decide (n <= 0)); [by eauto|].
  intros HQ _. apply HQ; [lia|]. apply Intn_pos_range. lia.
Qed.

Lemma wp_alloc_node v s (Q : loc -> State -> Prop) E :
  Q (length (nodes (heap s)))
    (mkState (mkHeap (nodes (heap s) ++ [v]) (conns (heap s)) (genomes (heap s)))
             (rand s)) ->
  wp (alloc_node v) s Q E.
Proof. done. Qed.

Lemma wp_alloc_conn c s (Q : loc -> State -> Prop) E :
  Q (length (conns (heap s)))
    (mkState (mkHeap (nodes (heap s)) (conns (heap s) ++ [c]) (genomes (heap s)))
             (rand s)) ->
  wp (alloc_conn c) s Q E.
Proof. done. Qed.

Lemma wp_set_conn p c s (Q : unit -> State -> Prop) E :
  ((p < length (conns (heap s)))%nat ->
   Q tt (mkState (mkHeap (nodes (heap s)) (<[p:=c]> (conns (heap s)))
                         (genomes (heap s))) (rand s))) ->
  (~ (p < length (conns (heap s)))%nat -> E s) ->
  wp (set_conn p c) s Q E.
Proof. unfold wp, set_conn. destruct (decide _); eauto. Qed.

Lemma wp_set_genome p g s (Q : unit -> State -> Prop) E :
  ((p < length (genomes (heap s)))%nat ->
   Q tt (mkState (mkHeap (nodes (heap s)) (conns (heap s))
                         (<[p:=g]> (genomes (heap s)))) (rand s))) ->
  (~ (p < length (genomes (heap s)))%nat -> E s) ->
  wp (set_genome p g) s Q E.
Proof. unfold wp, set_genome. destruct (decide _); eauto. Qed.

Lemma wp_for_each {A} (l : list A) (body : A -> M unit) s (I : State -> Prop) :
  I s ->
  (forall x s0, x ∈ l -> I s0 -> wp (body x) s0 (fun _ s' => I s') I) ->
  wp (for_each l body) s (fun _ s' => I s') I.
Proof.
  revert s. induction l as [|x l IH]; intros s Hs Hbody; [done|].
  cbn [for_each]. apply wp_bind.
  eapply wp_mono; [apply Hbody; [apply list_elem_of_here|done]| |done].
  intros [] s' Hs'. apply IH; [done|].
  intros y s0 Hy. apply Hbody. by apply list_elem_of_further.
Qed.

(** ** Steps of [Mutate] whose rate is 0 *)

Lemma perturb_zero (l : list loc) (s : State) :
  perturb 0 l s = Done tt (mkState (heap s) (skip_floats (length l) (rand s))).
Proof.
  revert s. induction l as [|c l IH]; intros s.
  - by destruct s.
  - cbn [perturb for_each length skip_floats].
    unfold bind at 1. unfold bind at 1. unfold float64 at 1.
    rewrite draw_not_below_zero. unfold ret at 1.
    fold (perturb 0 l). by rewrite IH.
Qed.

Lemma add_node_zero (g : loc) (s : State) :
  add_node ActivationSet g 0 s = Done tt (mkState (heap s) (Float64 (rand s)).2).
Proof.
  unfold add_node, bind, float64. by rewrite draw_not_below_zero.
Qed.

Lemma add_conn_zero (g : loc) (s : State) :
  add_conn g 0 s = Done tt (mkState (heap s) (Float64 (rand s)).2).
Proof.
  unfold add_conn, bind, float64. by rewrite draw_not_below_zero.
Qed.

(** ** The perturbation loop at rate 1 *)

Lemma perturb_one (l : list loc) (s : State) :
  NoDup l ->
  (forall conn, conn ∈ l -> is_Some (conns (heap s) !! conn)) ->
  exists s',
    perturb 1 l s = Done tt s' /\
    nodes (heap s') = nodes (heap s) /\
    genomes (heap s') = genomes (heap s) /\
    length (conns (heap s')) = length (conns (heap s)) /\
    rand s' = perturb_src (length l) (rand s) /\
    (forall i conn c,
        l !! i = Some conn -> conns (heap s) !! conn = Some c ->
        conns (heap s') !! conn =
          Some (mkConnGene (From c) (To c)
                           (PrimFloat.add (Weight c) (perturb_sample i (rand s)))
                           (Disabled c))) /\
    (forall p, p ∉ l -> conns (heap s') !! p = conns (heap s) !! p).
Proof.
  revert s. induction l as [|c0 l IH]; intros s Hnd Hal.
  - exists s. split; [done|]. repeat split; done.
  - apply NoDup_cons in Hnd as [Hc0 Hnd].
    destruct (Hal c0) as [cv Hcv]; [set_solver|].
    pose (c1 := mkConnGene (From cv) (To cv)
                  (PrimFloat.add (Weight cv) (NormFloat64 (Float64 (rand s)).2).1)
                  (Disabled cv)).
    pose (s1 := mkState (mkHeap (nodes (heap s)) (<[c0:=c1]> (conns (heap s)))
                                (genomes (heap s)))
                        (perturb_next (rand s))).
    assert (Hstep : forall k : unit -> M unit,
               bind (do x <- float64;
                     if PrimFloat.ltb x 1
                     then do d <- normFloat64;
                          do c <- get_conn c0;
                          set_conn c0 (mkConnGene (From c) (To c)
                                         (PrimFloat.add (Weight c) d) (Disabled c))
                     else ret tt) k s = k tt s1).
    { intros k. unfold bind, float64, normFloat64, get_conn, deref, set_conn.
      cbn. rewrite draw_below_one. cbn. rewrite Hcv.
      rewrite decide_True by (by eapply lookup_lt_Some). done. }
    destruct (IH s1) as (s' & Hrun & Hn & Hg & Hlen & Hr & Hin & Hout); [done| |].
    { intros conn Hconn. cbn.
      destruct (Hal conn) as [v Hv]; [set_solver|].
      apply lookup_lt_is_Some. rewrite length_insert. by eapply lookup_lt_Some. }
    exists s'. split.
    { cbn [perturb for_each]. rewrite Hstep. exact Hrun. }
    split; [by rewrite Hn|]. split; [by rewrite Hg|].
    split; [by rewrite Hlen; cbn; rewrite length_insert|].
    split; [by rewrite Hr|]. split.
    + intros [|i] conn c Hi Hc; cbn in Hi.
      * injection Hi as <-. rewrite Hout by done. cbn.
        rewrite list_lookup_insert_eq by (by eapply lookup_lt_Some).
        rewrite Hcv in Hc. by injection Hc as <-.
      * assert (conn <> c0) by (intros ->; apply Hc0; by eapply list_elem_of_lookup_2).
        apply (Hin i conn c Hi). cbn. by rewrite list_lookup_insert_ne.
    + intros p Hp. rewrite Hout by set_solver. cbn.
      apply list_lookup_insert_ne. set_solver.
Qed.

(** C8: the perturbation step touches weights only.  With all three rates 0
    [Mutate] returns and leaves the heap as it was; with [ratePerturb = 1.0]
    and the other rates 0 it returns, leaves every node, every genome (so
    the node and connection counts) and every other connection gene as they
    were, and the gene at position [i] of the connection list has had the
    normal sample of round [i] added to its weight. *)
Theorem Mutate_perturbation (g : loc) (s : State) (gv : Genome) :
  genomes (heap s) !! g = Some gv ->
  (exists r, Mutate ActivationSet g 0 0 0 s = Done tt (mkState (heap s) r)) /\
  (NoDup (ConnGenes gv) ->
   (forall conn, conn ∈ ConnGenes gv -> is_Some (conns (heap s) !! conn)) ->
   exists s',
     Mutate ActivationSet g 1 0 0 s = Done tt s' /\
     nodes (heap s') = nodes (heap s) /\
     genomes (heap s') = genomes (heap s) /\
     length (conns (heap s')) = length (conns (heap s)) /\
     (forall i conn c,
         ConnGenes gv !! i = Some conn -> conns (heap s) !! conn = Some c ->
         conns (heap s') !! conn =
           Some (mkConnGene (From c) (To c)
                            (PrimFloat.add (Weight c) (perturb_sample i (rand s)))
                            (Disabled c))) /\
     (forall p, p ∉ ConnGenes gv -> conns (heap s') !! p = conns (heap s) !! p)).
Proof.
  intros Hg. split.
  - eexists. unfold Mutate.
    rewrite (bind_done _ _ _ _ _ (deref_done genomes g s gv Hg)).
    rewrite (bind_done _ _ _ _ _ (perturb_zero _ _)).
    rewrite (bind_done _ _ _ _ _ (add_node_zero _ _)).
    by rewrite add_conn_zero.
  - intros Hnd Hal.
    destruct (perturb_one _ s Hnd Hal) as (s1 & Hrun & Hn & Hgs & Hlen & _ & Hin & Hout).
    exists (mkState (heap s1) (Float64 (Float64 (rand s1)).2).2). split.
    { unfold Mutate.
      rewrite (bind_done _ _ _ _ _ (deref_done genomes g s gv Hg)).
      rewrite (bind_done _ _ _ _ _ Hrun).
      rewrite (bind_done _ _ _ _ _ (add_node_zero _ _)).
      by rewrite add_conn_zero. }
    done.
Qed.

(** ** The add-connection step and the node list *)

Lemma connected_done (l : list loc) (n0 n1 : loc) (s : State) :
  (forall conn, conn ∈ l -> is_Some (conns (heap s) !! conn)) ->
  exists b, connected l n0 n1 s = Done b s.
Proof.
  induction l as [|c l IH]; intros Hal.
  - by exists false.
  - destruct (Hal c) as [cv Hcv]; [set_solver|].
    cbn [connected]. unfold get_conn.
    rewrite (bind_done _ _ _ _ _ (deref_done conns c s cv Hcv)).
    destruct ((From cv =? n0)%nat && (To cv =? n1)%nat).
    + by exists true.
    + apply IH. intros conn Hconn. apply Hal. set_solver.
Qed.

Lemma endpoints_owned_no_nodes (h : Heap) (gv : Genome) :
  endpoints_owned h gv -> NodeGenes gv = [] -> ConnGenes gv = [].
Proof.
  intros Hown Hn. destruct (ConnGenes gv) as [|c l] eqn:E; [done|].
  destruct (Hown c) as (cv & _ & Hin & _); [rewrite E; set_solver|].
  rewrite Hn in Hin. set_solver.
Qed.

(** C10: the add-connection step has no guard on the node list.  On a
    genome without nodes the step panics as soon as its draw is below the
    rate, and so does [Mutate] as a whole (a genome without nodes that owns
    the ends of its connections has no connections, so the add-node step
    cannot add a node first); with at least one node and allocated
    connection genes the step returns. *)
Theorem add_conn_needs_a_node (g : loc) (s : State) (gv : Genome)
    (ratePerturb rateAddNode rateAddConn : float) :
  genomes (heap s) !! g = Some gv ->
  (NodeGenes gv = [] ->
   PrimFloat.ltb (Float64 (rand s)).1 rateAddConn = true ->
   add_conn g rateAddConn s = Panicked (mkState (heap s) (Float64 (rand s)).2)) /\
  (NodeGenes gv = [] ->
   endpoints_owned (heap s) gv ->
   PrimFloat.ltb (Float64 (Float64 (rand s)).2).1 rateAddConn = true ->
   Mutate ActivationSet g ratePerturb rateAddNode rateAddConn s =
     Panicked (mkState (heap s) (Float64 (Float64 (rand s)).2).2)) /\
  (NodeGenes gv <> [] ->
   (forall conn, conn ∈ ConnGenes gv -> is_Some (conns (heap s) !! conn)) ->
   exists s', add_conn g rateAddConn s = Done tt s').
Proof.
  intros Hg.
  assert (Hstep : forall s0 : State,
             heap s0 = heap s -> NodeGenes gv = [] ->
             PrimFloat.ltb (Float64 (rand s0)).1 rateAddConn = true ->
             add_conn g rateAddConn s0 =
               Panicked (mkState (heap s) (Float64 (rand s0)).2)).
  { intros s0 Hh Hn Hx. unfold add_conn.
    rewrite (bind_done float64 _ s0 _ _ eq_refl), Hx.
    erewrite (bind_done (get_genome g)); [|apply deref_done; cbn; by rewrite Hh].
    apply bind_panicked. rewrite Hn. unfold intn. cbn. by rewrite Hh. }
  split; [|split].
  - intros Hn Hx. by apply Hstep.
  - intros Hn Hown Hx.
    pose proof (endpoints_owned_no_nodes _ _ Hown Hn) as Hc.
    unfold Mutate.
    rewrite (bind_done _ _ _ _ _ (deref_done genomes g s gv Hg)).
    rewrite Hc. cbn [perturb for_each].
    rewrite (bind_done _ _ _ _ _ (eq_refl : ret tt s = Done tt s)).
    assert (Hadd : add_node ActivationSet g rateAddNode s =
                   Done tt (mkState (heap s) (Float64 (rand s)).2)).
    { unfold add_node. rewrite (bind_done float64 _ s _ _ eq_refl).
      destruct (PrimFloat.ltb (Float64 (rand s)).1 rateAddNode); [|done].
      erewrite (bind_done (get_genome g)); [|by apply deref_done].
      by rewrite Hc. }
    rewrite (bind_done _ _ _ _ _ Hadd).
    by rewrite (Hstep (mkState (heap s) (Float64 (rand s)).2)).
  - intros Hn Hal.
    pose (n := Z.of_nat (length (NodeGenes gv))).
    assert (Hpos : 0 < n) by (destruct (NodeGenes gv); [done|cbn in *; lia]).
    unfold add_conn. unfold bind at 1. unfold float64 at 1.
    destruct (PrimFloat.ltb _ _); [|by eexists].
    set (s1 := mkState (heap s) (Float64 (rand s)).2).
    assert (Hintn : forall s0, exists k, 0 <= k < n /\
              intn n s0 = Done k (mkState (heap s0) (Intn_pos n (rand s0)).2)).
    { intros s0. exists (Intn_pos n (rand s0)).1. split; [by apply Intn_pos_range|].
      unfold intn. by rewrite decide_False by lia. }
    assert (Hidx : forall k s0, 0 <= k < n -> exists p, index (NodeGenes gv) k s0 = Done p s0).
    { intros k s0 Hk. destruct (lookup_lt_is_Some_2 (NodeGenes gv) (Z.to_nat k)) as [p Hp];
        [subst n; lia|].
      exists p. apply index_done; [lia|done]. }
    rewrite (bind_done _ _ _ _ _ (deref_done genomes g s1 gv Hg)).
    destruct (Hintn s1) as (k0 & Hk0 & E0). unfold n in E0.
    rewrite (bind_done _ _ _ _ _ E0). clear E0.
    set (s2 := mkState _ _).
    destruct (Hidx k0 s2 Hk0) as [p0 Hp0]. rewrite (bind_done _ _ _ _ _ Hp0).
    destruct (Hintn s2) as (k1 & Hk1 & E1). unfold n in E1.
    rewrite (bind_done _ _ _ _ _ E1). clear E1.
    set (s3 := mkState _ _).
    destruct (Hidx k1 s3 Hk1) as [p1 Hp1]. rewrite (bind_done _ _ _ _ _ Hp1).
    destruct (connected_done (ConnGenes gv) p0 p1 s3 Hal) as [b Hb].
    rewrite (bind_done _ _ _ _ _ Hb).
    destruct b; [by eexists|].
    unfold bind, normFloat64, NewConnGene, alloc_conn, get_genome, deref, set_genome.
    cbn. rewrite Hg. rewrite decide_True by (by eapply lookup_lt_Some).
    by eexists.
Qed.

(** ** The add-node step *)

Lemma add_node_fires (g : loc) (s : State) (gv : Genome) (selected : loc)
    (sel : ConnGene) :
  let r1 := (Float64 (rand s)).2 in
  let n := Z.of_nat (length (ConnGenes gv)) in
  genomes (heap s) !! g = Some gv ->
  ConnGenes gv !! Z.to_nat (Intn_pos n r1).1 = Some selected ->
  conns (heap s) !! selected = Some sel ->
  add_node ActivationSet g 1 s =
    Done tt (mkState (split_conn ActivationSet (heap s) g gv selected sel) (Intn_pos n r1).2).
Proof.
  intros r1 n Hg Hk Hsel.
  assert (Hn : 0 < n).
  { apply lookup_lt_Some in Hk. subst n. lia. }
  pose proof (Intn_pos_range n r1 Hn) as Hr.
  assert (Hlen : length (ConnGenes gv) <> 0%nat) by (subst n; lia).
  assert (Hn' : ¬ n <= 0) by lia.
  subst n r1.
  assert (Hgl : (g < length (genomes (heap s)))%nat) by (by eapply lookup_lt_Some).
  assert (Hsl : (selected < length (conns (heap s)))%nat) by (by eapply lookup_lt_Some).
  unfold add_node.
  rewrite (bind_done float64 _ s _ _ eq_refl), draw_below_one.
  erewrite (bind_done (get_genome g)); [|by apply deref_done].
  replace (negb (length (ConnGenes gv) =? 0)%nat) with true
    by (symmetry; by apply negb_true_iff, Nat.eqb_neq).
  erewrite (bind_done (intn _)); [|unfold intn; by rewrite decide_False].
  cbn [heap rand].
  erewrite (bind_done (index _ _)); [|apply index_done; [lia|exact Hk]].
  erewrite (bind_done (NewNodeGene _ _ _)); [|reflexivity].
  cbn [heap rand].
  erewrite (bind_done (set_genome _ _)); [|unfold set_genome; by rewrite decide_True].
  cbn [heap rand nodes conns genomes].
  erewrite (bind_done (get_conn _)); [|by apply deref_done].
  erewrite (bind_done (NewConnGene _ _ _)); [|reflexivity].
  erewrite (bind_done (NewConnGene _ _ _)); [|reflexivity].
  cbn [heap rand nodes conns genomes].
  erewrite (bind_done (get_genome g));
    [|apply deref_done; by apply list_lookup_insert_eq].
  erewrite (bind_done (set_genome _ _));
    [|unfold set_genome; cbn [heap genomes];
      by rewrite decide_True by (by rewrite length_insert)].
  cbn [heap rand nodes conns genomes NodeGenes ConnGenes GenomeID].
  erewrite (bind_done (get_conn _));
    [|apply deref_done; cbn [heap conns]; rewrite <- app_assoc;
      by apply lookup_app_l_Some].
  unfold set_conn. cbn [heap rand nodes conns genomes From To Weight].
  rewrite decide_True by (rewrite !length_app; lia).
  unfold split_conn. rewrite <- app_assoc, length_app. cbn [app length].
  by rewrite Nat.add_1_r.
Qed.

Lemma filter_single (f : loc -> bool) (l : list loc) (a : loc) :
  NoDup l -> a ∈ l -> (forall x, x ∈ l -> x <> a -> f x = false) ->
  List.filter f l = if f a then [a] else [].
Proof.
  assert (Hnone : forall l', a ∉ l' ->
             (forall x, x ∈ l' -> x <> a -> f x = false) -> List.filter f l' = []).
  { induction l' as [|y l' IH]; intros Ha Hf; [done|]. cbn.
    apply not_elem_of_cons in Ha as [Hya Ha].
    rewrite (Hf y) by (done || apply list_elem_of_here).
    apply IH; [done|]. intros z Hz. apply Hf. by apply list_elem_of_further. }
  induction l as [|x l IH]; intros Hnd Ha Hf; [by apply elem_of_nil in Ha|].
  apply NoDup_cons in Hnd as [Hx Hnd]. cbn [List.filter].
  destruct (decide (x = a)) as [->|Hne].
  - rewrite (Hnone l Hx) by (intros z Hz; apply Hf; by apply list_elem_of_further).
    by destruct (f a).
  - rewrite (Hf x) by (done || apply list_elem_of_here).
    apply IH; [done| |].
    + apply elem_of_cons in Ha as [->|Ha]; done.
    + intros z Hz. apply Hf. by apply list_elem_of_further.
Qed.

(** C3 (as the code has it): with [rateAddNode = 1.0] and the other rates
    0, on a genome with at least one connection, [Mutate] returns.  It
    picks the connection at the index [rand.Intn] draws, appends one hidden
    node with id equal to the previous node count and the sigmoid
    activation, appends the two enabled connections (from the selected
    gene's input node to the new node with weight 1.0, from the new node to
    its output node with the selected gene's weight) and leaves the selected
    gene disabled and every other existing gene as it was.  So the node
    count grows by 1, the connection count by 2, and exactly one enabled
    gene becomes disabled when the selected gene was enabled; when it was
    disabled already, none does. *)
Theorem Mutate_add_node (g : loc) (s : State) (gv : Genome) :
  genomes (heap s) !! g = Some gv ->
  ConnGenes gv <> [] ->
  NoDup (ConnGenes gv) ->
  (forall conn, conn ∈ ConnGenes gv -> is_Some (conns (heap s) !! conn)) ->
  let r := (Float64 (skip_floats (length (ConnGenes gv)) (rand s))).2 in
  let k := (Intn_pos (Z.of_nat (length (ConnGenes gv))) r).1 in
  let newNode := length (nodes (heap s)) in
  let c1 := length (conns (heap s)) in
  exists selected sel s',
    ConnGenes gv !! Z.to_nat k = Some selected /\
    conns (heap s) !! selected = Some sel /\
    Mutate ActivationSet g 0 1 0 s = Done tt s' /\
    nodes (heap s') =
      nodes (heap s) ++ [mkNodeGene (Z.of_nat (length (NodeGenes gv))) "hidden"
                                    (ActivationSet !! "sigmoid")] /\
    genomes (heap s') !! g =
      Some (mkGenome (GenomeID gv) (NodeGenes gv ++ [newNode])
                     (ConnGenes gv ++ [c1; S c1])) /\
    length (conns (heap s')) = (length (conns (heap s)) + 2)%nat /\
    conns (heap s') !! c1 = Some (mkConnGene (From sel) newNode 1 false) /\
    conns (heap s') !! S c1 = Some (mkConnGene newNode (To sel) (Weight sel) false) /\
    conns (heap s') !! selected =
      Some (mkConnGene (From sel) (To sel) (Weight sel) true) /\
    (forall p, p <> selected -> (p < c1)%nat ->
               conns (heap s') !! p = conns (heap s) !! p) /\
    newly_disabled (heap s) (heap s') (ConnGenes gv) =
      if Disabled sel then [] else [selected].
Proof.
  intros Hg Hne Hnd Hal r k newNode c1.
  assert (Hn : 0 < Z.of_nat (length (ConnGenes gv))).
  { destruct (ConnGenes gv); [done|cbn; lia]. }
  pose proof (Intn_pos_range _ r Hn) as Hk. fold k in Hk.
  destruct (lookup_lt_is_Some_2 (ConnGenes gv) (Z.to_nat k)) as [selected Hsel]; [lia|].
  destruct (Hal selected) as [sel Hs]; [by eapply list_elem_of_lookup_2|].
  assert (Hsl : (selected < c1)%nat) by (by eapply lookup_lt_Some).
  assert (Hgl : (g < length (genomes (heap s)))%nat) by (by eapply lookup_lt_Some).
  set (s0 := mkState (heap s) (skip_floats (length (ConnGenes gv)) (rand s))).
  pose proof (add_node_fires g s0 gv selected sel Hg Hsel Hs) as Hadd.
  cbn zeta in Hadd. change (heap s0) with (heap s) in Hadd.
  exists selected, sel. eexists. split; [done|]. split; [done|]. split.
  { unfold Mutate.
    rewrite (bind_done _ _ _ _ _ (deref_done genomes g s gv Hg)).
    rewrite (bind_done _ _ _ _ _ (perturb_zero _ _)).
    rewrite (bind_done _ _ _ _ _ Hadd).
    apply add_conn_zero. }
  cbn [heap split_conn nodes conns genomes]. fold c1 newNode.
  assert (Hins : forall p, p <> selected ->
            <[selected:=mkConnGene (From sel) (To sel) (Weight sel) true]>
              (conns (heap s) ++ [mkConnGene (From sel) newNode 1 false;
                                  mkConnGene newNode (To sel) (Weight sel) false]) !! p =
            (conns (heap s) ++ [mkConnGene (From sel) newNode 1 false;
                                mkConnGene newNode (To sel) (Weight sel) false]) !! p).
  { intros p Hp. by apply list_lookup_insert_ne. }
  split; [done|]. split.
  { rewrite list_lookup_insert_eq; [done|by rewrite length_insert]. }
  split; [rewrite length_insert, length_app; cbn; lia|].
  split; [rewrite Hins by lia; by rewrite lookup_app_r, Nat.sub_diag by (fold c1; lia)|].
  split.
  { rewrite Hins by lia. rewrite lookup_app_r by (fold c1; lia). fold c1.
    by replace (S c1 - c1)%nat with 1%nat by lia. }
  split; [apply list_lookup_insert_eq; rewrite length_app; fold c1; lia|].
  split; [intros p Hp Hlt; rewrite Hins by done; by apply lookup_app_l|].
  unfold newly_disabled.
  rewrite (filter_single _ _ selected Hnd); [|by eapply list_elem_of_lookup_2|].
  - unfold enabled_in, disabled_in. cbn [conns split_conn]. rewrite Hs.
    rewrite list_lookup_insert_eq by (rewrite length_app; fold c1; lia).
    cbn. by destruct (Disabled sel).
  - intros x Hx Hxs. unfold enabled_in, disabled_in. cbn [conns split_conn].
    fold newNode.
    destruct (Hal x Hx) as [xv Hxv]. rewrite Hins by done.
    rewrite lookup_app_l by (by eapply lookup_lt_Some). rewrite Hxv.
    by destruct (Disabled xv).
Qed.

(** ** The add-connection step at rate 1 *)

Lemma connected_spec (l : list loc) (n0 n1 : loc) (s : State) :
  (forall conn, conn ∈ l -> is_Some (conns (heap s) !! conn)) ->
  connected l n0 n1 s = Done (has_edge (heap s) l n0 n1) s.
Proof.
  induction l as [|c l IH]; intros Hal; [done|].
  destruct (Hal c) as [cv Hcv]; [apply list_elem_of_here|].
  cbn [connected has_edge existsb]. unfold get_conn.
  rewrite (bind_done _ _ _ _ _ (deref_done conns c s cv Hcv)), Hcv.
  destruct ((From cv =? n0)%nat && (To cv =? n1)%nat); [done|].
  apply IH. intros conn Hconn. apply Hal. by apply list_elem_of_further.
Qed.

Lemma add_conn_one (g : loc) (s : State) (gv : Genome) :
  genomes (heap s) !! g = Some gv ->
  NodeGenes gv <> [] ->
  (forall conn, conn ∈ ConnGenes gv -> is_Some (conns (heap s) !! conn)) ->
  let n := Z.of_nat (length (NodeGenes gv)) in
  let r1 := (Float64 (rand s)).2 in
  let r2 := (Intn_pos n r1).2 in
  let r3 := (Intn_pos n r2).2 in
  exists n0 n1,
    NodeGenes gv !! Z.to_nat (Intn_pos n r1).1 = Some n0 /\
    NodeGenes gv !! Z.to_nat (Intn_pos n r2).1 = Some n1 /\
    add_conn g 1 s =
      if has_edge (heap s) (ConnGenes gv) n0 n1
      then Done tt (mkState (heap s) r3)
      else Done tt (mkState (link_nodes (heap s) g gv n0 n1
                               (PrimFloat.mul (NormFloat64 r3).1 6))
                            (NormFloat64 r3).2).
Proof.
  intros Hg Hne Hal n r1 r2 r3.
  assert (Hn : 0 < n) by (subst n; destruct (NodeGenes gv); [done|cbn; lia]).
  pose proof (Intn_pos_range n r1 Hn) as Hk0.
  pose proof (Intn_pos_range n r2 Hn) as Hk1.
  destruct (lookup_lt_is_Some_2 (NodeGenes gv) (Z.to_nat (Intn_pos n r1).1))
    as [n0 Hn0]; [subst n; lia|].
  destruct (lookup_lt_is_Some_2 (NodeGenes gv) (Z.to_nat (Intn_pos n r2).1))
    as [n1 Hn1]; [subst n; lia|].
  assert (Hn' : ¬ n <= 0) by lia.
  exists n0, n1. split; [done|]. split; [done|].
  subst r3 r2 r1 n.
  unfold add_conn.
  rewrite (bind_done float64 _ s _ _ eq_refl), draw_below_one.
  erewrite (bind_done (get_genome g)); [|by apply deref_done].
  erewrite (bind_done (intn _)); [|unfold intn; by rewrite decide_False].
  cbn [heap rand].
  erewrite (bind_done (index _ _)); [|apply index_done; [lia|exact Hn0]].
  erewrite (bind_done (intn _)); [|unfold intn; by rewrite decide_False].
  cbn [heap rand].
  erewrite (bind_done (index _ _)); [|apply index_done; [lia|exact Hn1]].
  erewrite (bind_done (connected _ _ _)); [|by apply connected_spec].
  cbn [heap rand].
  destruct (has_edge _ _ _ _); [done|].
  erewrite (bind_done normFloat64); [|reflexivity].
  erewrite (bind_done (NewConnGene _ _ _)); [|reflexivity].
  cbn [heap rand nodes conns genomes].
  erewrite (bind_done (get_genome g)); [|by apply deref_done].
  unfold set_genome. cbn [heap rand nodes conns genomes].
  by rewrite decide_True by (by eapply lookup_lt_Some).
Qed.

Lemma add_conn_no_nodes (g : loc) (s : State) (gv : Genome) (rate : float) :
  genomes (heap s) !! g = Some gv -> NodeGenes gv = [] ->
  PrimFloat.ltb (Float64 (rand s)).1 rate = true ->
  add_conn g rate s = Panicked (mkState (heap s) (Float64 (rand s)).2).
Proof.
  intros Hg Hn Hx. unfold add_conn.
  rewrite (bind_done float64 _ s _ _ eq_refl), Hx.
  erewrite (bind_done (get_genome g)); [|by apply deref_done].
  apply bind_panicked. by rewrite Hn.
Qed.

Lemma same_id_same_node (h : Heap) (gv : Genome) (p q : loc) :
  id_as_index h gv -> p ∈ NodeGenes gv -> q ∈ NodeGenes gv ->
  ID <$> nodes h !! p = ID <$> nodes h !! q -> p = q.
Proof.
  intros Hid [i Hi]%list_elem_of_lookup [j Hj]%list_elem_of_lookup Heq.
  rewrite (Hid i p Hi), (Hid j q Hj) in Heq.
  assert (i = j) as -> by (injection Heq; lia). congruence.
Qed.

Lemma has_edge_true (h : Heap) (l : list loc) (conn : loc) (c : ConnGene) :
  conn ∈ l -> conns h !! conn = Some c ->
  has_edge h l (From c) (To c) = true.
Proof.
  intros Hin Hc. apply existsb_exists. exists conn.
  split; [by apply list_elem_of_In|].
  rewrite Hc. by rewrite !Nat.eqb_refl.
Qed.

Lemma conn_key_grow (h : Heap) (extra : list ConnGene) (gs : list Genome)
    (conn : loc) :
  is_Some (conns h !! conn) ->
  conn_key (mkHeap (nodes h) (conns h ++ extra) gs) conn = conn_key h conn.
Proof.
  intros [c Hc]. unfold conn_key. cbn [nodes conns].
  by rewrite (lookup_app_l_Some _ _ _ _ Hc), Hc.
Qed.

Lemma conn_key_ends (h : Heap) (gv : Genome) (conn : loc) (n0 n1 : loc)
    (v0 v1 : NodeGene) :
  id_as_index h gv -> endpoints_owned h gv ->
  conn ∈ ConnGenes gv -> n0 ∈ NodeGenes gv -> n1 ∈ NodeGenes gv ->
  nodes h !! n0 = Some v0 -> nodes h !! n1 = Some v1 ->
  conn_key h conn = Some (ID v0, ID v1) ->
  exists c, conns h !! conn = Some c /\ From c = n0 /\ To c = n1.
Proof.
  intros Hid Hown Hconn H0 H1 Hv0 Hv1 Hkey.
  destruct (Hown conn Hconn) as (c & Hc & Hf & Ht).
  exists c. split; [done|].
  unfold conn_key in Hkey. rewrite Hc in Hkey. cbn in Hkey.
  destruct (nodes h !! From c) as [fv|] eqn:Ef; [|done]. cbn in Hkey.
  destruct (nodes h !! To c) as [tv|] eqn:Et; [|done]. cbn in Hkey.
  injection Hkey as Hi0 Hi1. split.
  - apply (same_id_same_node h gv); [done..|]. rewrite Ef, Hv0. cbn. by f_equal.
  - apply (same_id_same_node h gv); [done..|]. rewrite Et, Hv1. cbn. by f_equal.
Qed.

Lemma valid_link (h : Heap) (g : loc) (gv : Genome) (n0 n1 : loc) (w : float) :
  valid_genome h gv ->
  n0 ∈ NodeGenes gv -> n1 ∈ NodeGenes gv ->
  has_edge h (ConnGenes gv) n0 n1 = false ->
  valid_genome (link_nodes h g gv n0 n1 w)
               (mkGenome (GenomeID gv) (NodeGenes gv)
                         (ConnGenes gv ++ [length (conns h)])).
Proof.
  intros [Hid Hown Huni] H0 H1 Hno.
  assert (Hal : forall conn, conn ∈ ConnGenes gv -> is_Some (conns h !! conn)).
  { intros conn Hconn. destruct (Hown conn Hconn) as (c & Hc & _). by exists c. }
  assert (Hkey_new : forall k,
             conn_key (link_nodes h g gv n0 n1 w) (length (conns h)) = Some k ->
             exists v0 v1, nodes h !! n0 = Some v0 /\ nodes h !! n1 = Some v1 /\
                           k = (ID v0, ID v1)).
  { intros k. unfold conn_key, link_nodes. cbn [nodes conns].
    rewrite lookup_app_r, Nat.sub_diag by done. cbn.
    destruct (nodes h !! n0) as [v0|]; [|done]. cbn.
    destruct (nodes h !! n1) as [v1|]; [|done]. cbn.
    intros [= <-]. by exists v0, v1. }
  assert (Hclash : forall i ci k,
             ConnGenes gv !! i = Some ci -> conn_key h ci = Some k ->
             conn_key (link_nodes h g gv n0 n1 w) (length (conns h)) = Some k ->
             False).
  { intros i ci k Hi Hk Hnew.
    destruct (Hkey_new k Hnew) as (v0 & v1 & Hv0 & Hv1 & ->).
    assert (Hci : ci ∈ ConnGenes gv) by (by eapply list_elem_of_lookup_2).
    destruct (conn_key_ends h gv ci n0 n1 v0 v1) as (c & Hc & <- & <-); [done..|].
    by rewrite (has_edge_true h _ ci c) in Hno. }
  split.
  - exact Hid.
  - intros conn. cbn [ConnGenes NodeGenes]. rewrite elem_of_app, list_elem_of_singleton.
    intros [Hold| ->].
    + destruct (Hown conn Hold) as (c & Hc & Hf & Ht). exists c.
      split; [|done]. by apply lookup_app_l_Some.
    + exists (mkConnGene n0 n1 w false). split; [|done].
      cbn [link_nodes conns]. by rewrite lookup_app_r, Nat.sub_diag.
  - intros i j ci cj k. cbn [ConnGenes].
    intros Hi Hj Hki Hkj.
    apply lookup_app_Some in Hi as [Hi|[Hli Hi]];
      apply lookup_app_Some in Hj as [Hj|[Hlj Hj]].
    + unfold link_nodes in Hki, Hkj.
      rewrite conn_key_grow in Hki by (apply Hal; by eapply list_elem_of_lookup_2).
      rewrite conn_key_grow in Hkj by (apply Hal; by eapply list_elem_of_lookup_2).
      by eapply Huni.
    + exfalso. apply list_lookup_singleton_Some in Hj as [_ <-].
      unfold link_nodes in Hki.
      rewrite conn_key_grow in Hki by (apply Hal; by eapply list_elem_of_lookup_2).
      by eapply Hclash.
    + exfalso. apply list_lookup_singleton_Some in Hi as [_ <-].
      unfold link_nodes in Hkj.
      rewrite conn_key_grow in Hkj by (apply Hal; by eapply list_elem_of_lookup_2).
      by eapply Hclash.
    + apply list_lookup_singleton_Some in Hi as [Hi _].
      apply list_lookup_singleton_Some in Hj as [Hj _]. lia.
Qed.

Lemma valid_allocated (h : Heap) (gv : Genome) :
  valid_genome h gv ->
  forall conn, conn ∈ ConnGenes gv -> is_Some (conns h !! conn).
Proof.
  intros Hv conn Hconn.
  destruct (valid_endpoints _ _ Hv conn Hconn) as (c & Hc & _). by exists c.
Qed.

Lemma Mutate_add_conn_only (g : loc) (s : State) (gv : Genome) :
  genomes (heap s) !! g = Some gv ->
  Mutate ActivationSet g 0 0 1 s =
    add_conn g 1 (mkState (heap s)
                    (Float64 (skip_floats (length (ConnGenes gv)) (rand s))).2).
Proof.
  intros Hg. unfold Mutate.
  rewrite (bind_done _ _ _ _ _ (deref_done genomes g s gv Hg)).
  rewrite (bind_done _ _ _ _ _ (perturb_zero _ _)).
  by rewrite (bind_done _ _ _ _ _ (add_node_zero _ _)).
Qed.

Lemma Mutate_add_conn_valid (g : loc) (s : State) :
  (exists gv, genomes (heap s) !! g = Some gv /\ valid_genome (heap s) gv) ->
  let s' := final (Mutate ActivationSet g 0 0 1 s) in
  exists gv', genomes (heap s') !! g = Some gv' /\ valid_genome (heap s') gv'.
Proof.
  intros (gv & Hg & Hv) s'. subst s'.
  rewrite (Mutate_add_conn_only g s gv Hg).
  set (s1 := mkState _ _).
  destruct (decide (NodeGenes gv = [])) as [Hn|Hn].
  - rewrite (add_conn_no_nodes g s1 gv 1 Hg Hn (draw_below_one _)).
    by exists gv.
  - destruct (add_conn_one g s1 gv Hg Hn (valid_allocated _ _ Hv))
      as (n0 & n1 & Hn0 & Hn1 & ->).
    destruct (has_edge _ _ _ _) eqn:He; [by exists gv|].
    eexists. split.
    + cbn [final heap link_nodes genomes].
      apply list_lookup_insert_eq. by eapply lookup_lt_Some.
    + apply valid_link; [done| | |done]; by eapply list_elem_of_lookup_2.
Qed.

(** C4: the add-connection step never creates a second connection for an
    ordered pair of node ids.  On a genome that satisfies the invariants of
    the data model (ids equal to positions, connection ends among the
    genome's own nodes, at most one connection per pair), any number of
    calls [Mutate(g, 0, 0, 1.0)] in a row leaves a genome that satisfies
    them again, whether the calls return or the sequence ends in a panic;
    and when the two drawn nodes are already joined by a connection with
    that pair of ids, the call returns with the heap exactly as it was. *)
Theorem add_conn_never_duplicates (g : loc) (s : State) (gv : Genome) :
  genomes (heap s) !! g = Some gv ->
  valid_genome (heap s) gv ->
  (forall n,
      let s' := final (repeatM n (Mutate ActivationSet g 0 0 1) s) in
      exists gv', genomes (heap s') !! g = Some gv' /\ valid_genome (heap s') gv') /\
  (forall n0 n1 v0 v1 conn,
      let n := Z.of_nat (length (NodeGenes gv)) in
      let r := (Float64 (Float64 (skip_floats (length (ConnGenes gv)) (rand s))).2).2 in
      NodeGenes gv !! Z.to_nat (Intn_pos n r).1 = Some n0 ->
      NodeGenes gv !! Z.to_nat (Intn_pos n (Intn_pos n r).2).1 = Some n1 ->
      nodes (heap s) !! n0 = Some v0 ->
      nodes (heap s) !! n1 = Some v1 ->
      conn ∈ ConnGenes gv ->
      conn_key (heap s) conn = Some (ID v0, ID v1) ->
      exists r', Mutate ActivationSet g 0 0 1 s = Done tt (mkState (heap s) r')).
Proof.
  intros Hg Hv. split.
  - intros n. assert (Hinv : exists gv0, genomes (heap s) !! g = Some gv0 /\
                                        valid_genome (heap s) gv0) by eauto.
    clear Hg Hv. revert s Hinv. induction n as [|n IH]; intros s Hinv; [done|].
    pose proof (Mutate_add_conn_valid g s Hinv) as Hstep. cbn zeta in Hstep.
    cbn [repeatM]. unfold bind.
    destruct (Mutate ActivationSet g 0 0 1 s) as [[] s1|s1]; [|exact Hstep].
    by apply IH.
  - intros n0 n1 v0 v1 conn n r Hn0 Hn1 Hv0 Hv1 Hconn Hkey.
    rewrite (Mutate_add_conn_only g s gv Hg).
    set (s1 := mkState _ _).
    assert (Hne : NodeGenes gv <> []) by (intros E; by rewrite E in Hn0).
    destruct (add_conn_one g s1 gv Hg Hne (valid_allocated _ _ Hv))
      as (m0 & m1 & Hm0 & Hm1 & ->).
    cbn [rand s1] in Hm0, Hm1. fold n r in Hm0, Hm1.
    assert (m0 = n0) as -> by congruence.
    assert (m1 = n1) as -> by congruence.
    destruct (conn_key_ends (heap s) gv conn n0 n1 v0 v1
                (valid_ids _ _ Hv) (valid_endpoints _ _ Hv) Hconn
                (list_elem_of_lookup_2 _ _ _ Hn0) (list_elem_of_lookup_2 _ _ _ Hn1)
                Hv0 Hv1 Hkey) as (c & Hc & <- & <-).
    cbn [heap s1]. rewrite (has_edge_true _ _ conn c) by done.
    by eexists.
Qed.

(** ** The loops of [Crossover] *)

Lemma innov_key_run (conn : loc) (s : State) :
  innov_key conn s =
    match conn_key (heap s) conn with
    | Some k => Done k s
    | None => Panicked s
    end.
Proof.
  unfold innov_key, conn_key, bind, get_conn, get_node, deref.
  destruct (conns (heap s) !! conn) as [c|]; [|done]. cbn.
  destruct (nodes (heap s) !! From c) as [fv|]; [|done]. cbn.
  by destruct (nodes (heap s) !! To c) as [tv|].
Qed.

Lemma keyed_cons (h : Heap) (conn : loc) (l : list loc) :
  keyed h (conn :: l) =
    k ← conn_key h conn; genes ← keyed h l; Some ((k, conn) :: genes).
Proof.
  unfold keyed. cbn. destruct (conn_key h conn); [|done]. cbn.
  by destruct (mapM _ l).
Qed.

Lemma record_genes_run (l : list loc) (m : gmap (Z * Z) loc) (s : State) :
  fold_each (fun (m : gmap (Z * Z) loc) conn =>
               do k <- innov_key conn; ret (<[k := conn]> m)) m l s =
    match keyed (heap s) l with
    | Some genes => Done (foldl (fun m kc => <[kc.1 := kc.2]> m) m genes) s
    | None => Panicked s
    end.
Proof.
  revert m. induction l as [|conn l IH]; intros m; [done|].
  rewrite keyed_cons. cbn [fold_each]. unfold bind at 1 2.
  rewrite innov_key_run.
  destruct (conn_key (heap s) conn) as [k|]; [|done]. cbn.
  unfold ret at 1. rewrite IH. by destruct (keyed (heap s) l).
Qed.

Lemma align_genes_cons (m : gmap (Z * Z) loc) (conn : loc) (l : list loc)
    (s : State) :
  align_genes m (conn :: l) s =
    match conn_key (heap s) conn with
    | None => Panicked s
    | Some k =>
        match m !! k with
        | Some _ =>
            align_genes (if PrimFloat.ltb (Float64 (rand s)).1 0.5
                         then <[k := conn]> m else m)
                        l (mkState (heap s) (Float64 (rand s)).2)
        | None => align_genes (<[k := conn]> m) l s
        end
    end.
Proof.
  unfold align_genes. cbn [fold_each]. unfold bind at 1 2.
  rewrite innov_key_run.
  destruct (conn_key (heap s) conn) as [k|]; [|done].
  destruct (m !! k); [|done].
  unfold bind, float64. by destruct (PrimFloat.ltb _ _).
Qed.

Lemma align_genes_run (l : list loc) (m : gmap (Z * Z) loc) (s : State) :
  match keyed (heap s) l with
  | Some genes =>
      align_genes m l s =
        Done (align_spec m genes (rand s)).1
             (mkState (heap s) (align_spec m genes (rand s)).2)
  | None => exists r, align_genes m l s = Panicked (mkState (heap s) r)
  end.
Proof.
  revert m s. induction l as [|conn l IH]; intros m s.
  { cbn. by destruct s. }
  rewrite keyed_cons, align_genes_cons.
  destruct (conn_key (heap s) conn) as [k|]; [|exists (rand s); by destruct s].
  cbn [mbind option_bind].
  destruct (m !! k) as [old|] eqn:Em.
  - specialize (IH (if PrimFloat.ltb (Float64 (rand s)).1 0.5
                    then <[k := conn]> m else m)
                   (mkState (heap s) (Float64 (rand s)).2)).
    cbn [heap rand] in IH.
    destruct (keyed (heap s) l) as [genes|]; cbn [mbind option_bind align_spec].
    + by rewrite Em.
    + exact IH.
  - specialize (IH (<[k := conn]> m) s).
    destruct (keyed (heap s) l) as [genes|]; cbn [mbind option_bind align_spec].
    + by rewrite Em.
    + exact IH.
Qed.

Lemma innovations_eq (g0 g1 : loc) (s : State) :
  innovations g0 g1 s =
    match genomes (heap s) !! g0 with
    | None => Panicked s
    | Some gv0 =>
        match keyed (heap s) (ConnGenes gv0) with
        | None => Panicked s
        | Some genes0 =>
            match genomes (heap s) !! g1 with
            | None => Panicked s
            | Some gv1 => align_genes (insert_all genes0) (ConnGenes gv1) s
            end
        end
    end.
Proof.
  unfold innovations, record_genes, get_genome.
  unfold bind at 1. unfold deref at 1.
  destruct (genomes (heap s) !! g0) as [gv0|]; [|done].
  unfold bind at 1. rewrite record_genes_run.
  destruct (keyed (heap s) (ConnGenes gv0)) as [genes0|]; [|done].
  unfold bind, deref. by destruct (genomes (heap s) !! g1).
Qed.

Lemma innovations_run (g0 g1 : loc) (s : State) :
  match innov_input (heap s) g0 g1 with
  | Some (gv0, gv1, genes0, genes1) =>
      innovations g0 g1 s =
        Done (alignment_spec genes0 genes1 (rand s)).1
             (mkState (heap s) (alignment_spec genes0 genes1 (rand s)).2)
  | None => exists r, innovations g0 g1 s = Panicked (mkState (heap s) r)
  end.
Proof.
  rewrite innovations_eq. unfold innov_input.
  assert (Hp : exists r, Panicked s = Panicked (A := gmap (Z * Z) loc)
                                        (mkState (heap s) r)).
  { exists (rand s). by destruct s. }
  destruct (genomes (heap s) !! g0) as [gv0|]; cbn [mbind option_bind]; [|done].
  destruct (keyed (heap s) (ConnGenes gv0)) as [genes0|];
    cbn [mbind option_bind]; [|done].
  destruct (genomes (heap s) !! g1) as [gv1|]; cbn [mbind option_bind]; [|done].
  pose proof (align_genes_run (ConnGenes gv1) (insert_all genes0) s) as Hal.
  by destruct (keyed (heap s) (ConnGenes gv1)) as [genes1|]; cbn [mbind option_bind].
Qed.

Lemma copy_node_run (p : loc) (s : State) :
  copy_node p s =
    match nodes (heap s) !! p with
    | Some v => Done (length (nodes (heap s)))
                     (mkState (mkHeap (nodes (heap s) ++ [v]) (conns (heap s))
                                      (genomes (heap s))) (rand s))
    | None => Panicked s
    end.
Proof.
  unfold copy_node, bind, get_node, deref.
  by destruct (nodes (heap s) !! p) as [[]|].
Qed.

Lemma copy_nodes_spec (l : list loc) (s : State) :
  wp (map_each copy_node l) s
     (fun ps s' =>
        exists vals,
          length vals = length l /\
          s' = mkState (mkHeap (nodes (heap s) ++ vals) (conns (heap s))
                               (genomes (heap s))) (rand s) /\
          ps = seq (length (nodes (heap s))) (length l) /\
          Forall2 (fun p v => (nodes (heap s) ++ vals) !! p = Some v) l vals)
     (fun s' =>
        (exists vals,
            s' = mkState (mkHeap (nodes (heap s) ++ vals) (conns (heap s))
                                 (genomes (heap s))) (rand s)) /\
        exists p, p ∈ l /\ nodes (heap s) !! p = None).
Proof.
  revert s. induction l as [|p l IH]; intros s.
  { unfold wp. cbn. exists []. rewrite app_nil_r. by destruct s as [[]]. }
  cbn [map_each]. apply wp_bind. unfold wp at 1. rewrite copy_node_run.
  destruct (nodes (heap s) !! p) as [v|] eqn:Ep.
  2: { split; [exists []; rewrite app_nil_r; by destruct s as [[]]|].
       exists p. split; [apply list_elem_of_here|done]. }
  apply wp_bind. eapply wp_mono; [apply IH| |]; cbn [heap nodes conns genomes rand].
  - intros ps s' (vals & Hlen & -> & -> & Hall). unfold wp, ret.
    exists (v :: vals). split; [cbn; lia|]. split; [by rewrite <- app_assoc|].
    split; [by rewrite length_app, Nat.add_1_r|].
    constructor.
    + apply lookup_app_l_Some. exact Ep.
    + by rewrite <- app_assoc in Hall.
  - intros s' [(vals & ->) (q & Hq & Hnone)]. split.
    + exists (v :: vals). by rewrite <- app_assoc.
    + exists q. split; [by apply list_elem_of_further|].
      apply lookup_ge_None. apply lookup_ge_None in Hnone.
      rewrite length_app in Hnone. lia.
Qed.

Lemma copy_conn_run (nodeGenes : list loc) (conn : loc) (s : State) :
  copy_conn nodeGenes conn s =
    match copied_conn (heap s) nodeGenes conn with
    | Some c' => Done (length (conns (heap s)))
                      (mkState (mkHeap (nodes (heap s)) (conns (heap s) ++ [c'])
                                       (genomes (heap s))) (rand s))
    | None => Panicked s
    end.
Proof.
  unfold copy_conn, copied_conn, bind, get_conn, get_node, deref, index, at_index.
  destruct (conns (heap s) !! conn) as [c|]; [|done]. cbn.
  destruct (nodes (heap s) !! From c) as [fv|]; [|done]. cbn.
  destruct (decide (0 <= ID fv)); [|done].
  destruct (nodeGenes !! Z.to_nat (ID fv)) as [f'|]; [|done]. cbn.
  destruct (nodes (heap s) !! To c) as [tv|]; [|done]. cbn.
  destruct (decide (0 <= ID tv)); [|done].
  by destruct (nodeGenes !! Z.to_nat (ID tv)) as [t'|].
Qed.

Lemma copied_conn_grow (h : Heap) (extra : list ConnGene) (gs : list Genome)
    (nodeGenes : list loc) (conn : loc) (c' : ConnGene) :
  copied_conn h nodeGenes conn = Some c' ->
  copied_conn (mkHeap (nodes h) (conns h ++ extra) gs) nodeGenes conn = Some c'.
Proof.
  unfold copied_conn. cbn [nodes conns].
  destruct (conns h !! conn) as [c|] eqn:Ec; [|done].
  by rewrite (lookup_app_l_Some _ _ _ _ Ec).
Qed.

Lemma copy_conns_spec (nodeGenes : list loc) (order : list ((Z * Z) * loc))
    (s : State) :
  wp (map_each (fun kv => copy_conn nodeGenes kv.2) order) s
     (fun cs s' =>
        exists cvals,
          length cvals = length order /\
          s' = mkState (mkHeap (nodes (heap s)) (conns (heap s) ++ cvals)
                               (genomes (heap s))) (rand s) /\
          cs = seq (length (conns (heap s))) (length order) /\
          Forall2 (fun kv c' =>
                     copied_conn (mkHeap (nodes (heap s)) (conns (heap s) ++ cvals)
                                         (genomes (heap s)))
                                 nodeGenes kv.2 = Some c') order cvals)
     (fun s' =>
        (exists cvals,
            s' = mkState (mkHeap (nodes (heap s)) (conns (heap s) ++ cvals)
                                 (genomes (heap s))) (rand s)) /\
        exists kv, kv ∈ order /\ copied_conn (heap s) nodeGenes kv.2 = None).
Proof.
  revert s. induction order as [|kv order IH]; intros s.
  { unfold wp. cbn. exists []. rewrite app_nil_r. by destruct s as [[]]. }
  cbn [map_each]. apply wp_bind. unfold wp at 1. rewrite copy_conn_run.
  destruct (copied_conn (heap s) nodeGenes kv.2) as [c'|] eqn:Ec.
  2: { split; [exists []; rewrite app_nil_r; by destruct s as [[]]|].
       exists kv. split; [apply list_elem_of_here|done]. }
  apply wp_bind. eapply wp_mono; [apply IH| |]; cbn [heap nodes conns genomes rand].
  - intros cs s' (cvals & Hlen & -> & -> & Hall). unfold wp, ret.
    exists (c' :: cvals). split; [cbn; lia|]. split; [by rewrite <- app_assoc|].
    split; [by rewrite length_app, Nat.add_1_r|].
    constructor.
    + apply (copied_conn_grow (heap s) (c' :: cvals) (genomes (heap s))) in Ec.
      exact Ec.
    + by rewrite <- app_assoc in Hall.
  - intros s' [(cvals & ->) (kv' & Hkv & Hnone)]. split.
    + exists (c' :: cvals). by rewrite <- app_assoc.
    + exists kv'. split; [by apply list_elem_of_further|].
      destruct (copied_conn (heap s) nodeGenes kv'.2) as [c2|] eqn:E2; [|done].
      apply (copied_conn_grow (heap s) [c'] (genomes (heap s))) in E2.
      congruence.
Qed.

Lemma innov_input_Some (h : Heap) (g0 g1 : loc) gv0 gv1 genes0 genes1 :
  innov_input h g0 g1 = Some (gv0, gv1, genes0, genes1) ->
  genomes h !! g0 = Some gv0 /\ genomes h !! g1 = Some gv1 /\
  keyed h (ConnGenes gv0) = Some genes0 /\ keyed h (ConnGenes gv1) = Some genes1.
Proof.
  unfold innov_input.
  destruct (genomes h !! g0) as [a|]; cbn [mbind option_bind]; [|done].
  destruct (keyed h (ConnGenes a)) as [ka|] eqn:Ea; cbn [mbind option_bind]; [|done].
  destruct (genomes h !! g1) as [b|]; cbn [mbind option_bind]; [|done].
  destruct (keyed h (ConnGenes b)) as [kb|] eqn:Eb; cbn [mbind option_bind]; [|done].
  intros [= -> -> -> ->]. by rewrite Ea, Eb.
Qed.

Lemma Crossover_spec (id : Z) (g0 g1 : loc) (s : State) :
  wp (Crossover id g0 g1) s (crossover_done s id g0 g1) (crossover_panicked s g0 g1).
Proof.
  unfold Crossover. apply wp_bind.
  pose proof (innovations_run g0 g1 s) as Hin.
  destruct (innov_input (heap s) g0 g1) as [[[[gv0 gv1] genes0] genes1]|] eqn:Ein.
  2: { destruct Hin as [r Hr]. unfold wp. rewrite Hr.
       unfold crossover_panicked. rewrite Ein. split; [|done].
       exists [], []. cbn. rewrite !app_nil_r. by destruct (heap s). }
  destruct (innov_input_Some _ _ _ _ _ _ _ Ein) as (Hg0 & Hg1 & _ & _).
  unfold wp at 1. rewrite Hin. clear Hin.
  set (al := alignment_spec genes0 genes1 (rand s)).
  set (s1 := mkState (heap s) al.2).
  apply wp_bind. unfold wp at 1, get_genome.
  rewrite (deref_done genomes g0 s1 gv0 Hg0).
  apply wp_bind. unfold wp at 1, get_genome.
  rewrite (deref_done genomes g1 s1 gv1 Hg1).
  apply wp_bind. eapply wp_mono; [apply copy_nodes_spec| |];
    cbn [heap nodes conns genomes rand s1].
  2: { intros s' [(vals & ->) Hbad]. unfold crossover_panicked. rewrite Ein.
       split; [|by left]. exists vals, []. cbn. by rewrite app_nil_r. }
  intros nodeGenes s2 (vals & Hlen & -> & -> & Hvals).
  apply wp_bind. unfold wp at 1, map_range. cbn [heap rand].
  apply wp_bind. eapply wp_mono; [apply copy_conns_spec| |];
    cbn [heap nodes conns genomes rand].
  2: { intros s' [(cvals & ->) (kv & Hkv & Hbad)]. unfold crossover_panicked.
       rewrite Ein. split; [by exists vals, cvals|].
       right. exists vals, kv. by cbn zeta. }
  intros connGenes s3 (cvals & Hclen & -> & -> & Hcvals).
  unfold wp, alloc_genome. cbn [heap nodes conns genomes rand].
  exists gv0, gv1, genes0, genes1, vals, cvals. split; [done|]. cbn zeta.
  fold al. by repeat split.
Qed.

(** ** What [Crossover] leaves behind *)

Lemma at_index_Some {A} (l : list A) (i : Z) (v : A) :
  at_index l i = Some v <-> 0 <= i /\ l !! Z.to_nat i = Some v.
Proof.
  unfold at_index. destruct (decide (0 <= i)); [tauto|].
  split; [done|intros [? _]; lia].
Qed.

Lemma copied_conn_Some (h : Heap) (nodeGenes : list loc) (conn : loc)
    (c' : ConnGene) :
  copied_conn h nodeGenes conn = Some c' <->
  exists c fv tv,
    conns h !! conn = Some c /\
    nodes h !! From c = Some fv /\ nodes h !! To c = Some tv /\
    at_index nodeGenes (ID fv) = Some (From c') /\
    at_index nodeGenes (ID tv) = Some (To c') /\
    Weight c' = Weight c /\ Disabled c' = Disabled c.
Proof.
  unfold copied_conn. split.
  - destruct (conns h !! conn) as [c|]; [|done]. cbn.
    destruct (nodes h !! From c) as [fv|] eqn:E1; [|done]. cbn.
    destruct (at_index nodeGenes (ID fv)) as [f'|] eqn:E2; [|done]. cbn.
    destruct (nodes h !! To c) as [tv|] eqn:E3; [|done]. cbn.
    destruct (at_index nodeGenes (ID tv)) as [t'|] eqn:E4; [|done]. cbn.
    intros [= <-]. by exists c, fv, tv.
  - intros (c & fv & tv & -> & Hf & Ht & Hf' & Ht' & Hw & Hd). cbn.
    rewrite Hf. cbn. rewrite Hf'. cbn. rewrite Ht. cbn. rewrite Ht'. cbn.
    destruct c'; cbn in *. by subst.
Qed.

Lemma heap_extends_app (h : Heap) (vals : list NodeGene) (cvals : list ConnGene)
    (gs : list Genome) :
  heap_extends h (mkHeap (nodes h ++ vals) (conns h ++ cvals) (genomes h ++ gs)).
Proof. repeat split; by apply prefix_app_r. Qed.

(** C7: [Crossover] only reads its parents and builds the child out of new
    objects.  Whether the call returns or panics, every object that was on
    the heap before the call is still there unchanged.  When it returns, the
    child is a genome object that did not exist before, with the id that was
    asked for; its node list has the length of the node list of the larger
    parent ([g1] only if it has strictly more nodes than [g0]), and its
    [i]-th node is an object that did not exist before and holds the same
    id, role and activation reference as the [i]-th node of that parent;
    each of its connection genes is an object that did not exist before, and
    the two ends of that gene are nodes of the child. *)
Theorem Crossover_independent (id : Z) (g0 g1 : loc) (s : State) :
  heap_extends (heap s) (heap (final (Crossover id g0 g1 s))) /\
  (forall child s',
      Crossover id g0 g1 s = Done child s' ->
      exists gv0 gv1 cv,
        genomes (heap s) !! g0 = Some gv0 /\
        genomes (heap s) !! g1 = Some gv1 /\
        largerParent gv0 gv1 =
          (if (length (NodeGenes gv0) <? length (NodeGenes gv1))%nat
           then gv1 else gv0) /\
        child = length (genomes (heap s)) /\
        genomes (heap s') !! child = Some cv /\
        GenomeID cv = id /\
        length (NodeGenes cv) = length (NodeGenes (largerParent gv0 gv1)) /\
        (forall i p, NodeGenes (largerParent gv0 gv1) !! i = Some p ->
           exists q v, NodeGenes cv !! i = Some q /\
                       (length (nodes (heap s)) <= q)%nat /\
                       nodes (heap s') !! p = Some v /\
                       nodes (heap s') !! q = Some v) /\
        (forall c, c ∈ ConnGenes cv ->
           (length (conns (heap s)) <= c)%nat /\
           exists cval, conns (heap s') !! c = Some cval /\ From cval ∈ NodeGenes cv /\
                        To cval ∈ NodeGenes cv)).
Proof.
  pose proof (Crossover_spec id g0 g1 s) as Hspec. unfold wp in Hspec.
  destruct (Crossover id g0 g1 s) as [child s'|s'] eqn:Erun.
  2: { split; [|done]. destruct Hspec as [(vals & cvals & Hh) _]. cbn [final].
       rewrite Hh, <- (app_nil_r (genomes (heap s))). apply heap_extends_app. }
  destruct Hspec as (gv0 & gv1 & genes0 & genes1 & vals & cvals & Hin & Hspec).
  cbn zeta in Hspec. destruct Hspec as (-> & -> & Hvals & Hcvals).
  split; [apply heap_extends_app|].
  intros child s' [= <- <-].
  destruct (innov_input_Some _ _ _ _ _ _ _ Hin) as (Hg0 & Hg1 & _ & _).
  eexists gv0, gv1, _. split; [done|]. split; [done|]. split; [done|].
  split; [done|]. cbn [heap nodes conns genomes].
  split; [by rewrite lookup_app_r, Nat.sub_diag|].
  cbn [GenomeID NodeGenes ConnGenes]. split; [done|].
  split; [by rewrite length_seq|]. split.
  - intros i p Hp.
    destruct (Forall2_lookup_l _ _ _ _ _ Hvals Hp) as (v & Hv & Hpv).
    exists (length (nodes (heap s)) + i)%nat, v.
    split; [apply lookup_seq; split; [done|by eapply lookup_lt_Some]|].
    split; [lia|]. split; [done|].
    rewrite lookup_app_r by lia.
    by replace (length (nodes (heap s)) + i - length (nodes (heap s)))%nat with i by lia.
  - intros c [Hlo Hhi]%elem_of_seq.
    split; [lia|].
    destruct (lookup_lt_is_Some_2 _ (c - length (conns (heap s)))%nat
                ltac:(apply Nat.add_lt_mono_l with (p := length (conns (heap s)));
                      rewrite Nat.add_comm, Nat.sub_add by done; exact Hhi))
      as [kv Hkv].
    destruct (Forall2_lookup_l _ _ _ _ _ Hcvals Hkv) as (c' & Hc' & Hcopy).
    exists c'. split.
    + by rewrite lookup_app_r by lia.
    + apply copied_conn_Some in Hcopy
        as (c0 & fv & tv & _ & _ & _ & Hf & Ht & _).
      apply at_index_Some in Hf as [_ Hf]. apply at_index_Some in Ht as [_ Ht].
      split; by eapply list_elem_of_lookup_2.
Qed.

(** ** The alignment map *)

Lemma keyed_spec (h : Heap) (l : list loc) (genes : list ((Z * Z) * loc)) :
  keyed h l = Some genes ->
  Forall2 (fun conn kc => kc.2 = conn /\ conn_key h conn = Some kc.1) l genes.
Proof.
  revert genes. induction l as [|conn l IH]; intros genes.
  { cbn. intros [= <-]. constructor. }
  rewrite keyed_cons.
  destruct (conn_key h conn) as [k|] eqn:Ek; cbn [mbind option_bind]; [|done].
  destruct (keyed h l) as [rest|]; cbn [mbind option_bind]; [|done].
  intros [= <-]. constructor; [done|by apply IH].
Qed.

Lemma keyed_elem (h : Heap) (l : list loc) (genes : list ((Z * Z) * loc)) k conn :
  keyed h l = Some genes -> (k, conn) ∈ genes ->
  conn ∈ l /\ conn_key h conn = Some k.
Proof.
  intros Hk%keyed_spec [i Hi]%list_elem_of_lookup.
  destruct (Forall2_lookup_r _ _ _ _ _ Hk Hi) as (c & Hc & Heq & Hkey).
  cbn in Heq, Hkey. subst c. split; [by eapply list_elem_of_lookup_2|done].
Qed.

Lemma elem_keyed (h : Heap) (l : list loc) (genes : list ((Z * Z) * loc)) conn :
  keyed h l = Some genes -> conn ∈ l ->
  exists k, (k, conn) ∈ genes /\ conn_key h conn = Some k.
Proof.
  intros Hk%keyed_spec [i Hi]%list_elem_of_lookup.
  destruct (Forall2_lookup_l _ _ _ _ _ Hk Hi) as ([k c] & Hc & Heq & Hkey).
  cbn in Heq, Hkey. subst c. exists k. split; [by eapply list_elem_of_lookup_2|done].
Qed.

Lemma foldl_insert_entries (genes : list ((Z * Z) * loc)) (m : gmap (Z * Z) loc)
    k conn :
  foldl (fun m kc => <[kc.1 := kc.2]> m) m genes !! k = Some conn ->
  (k, conn) ∈ genes \/ m !! k = Some conn.
Proof.
  revert m. induction genes as [|[k' c'] genes IH]; intros m; cbn; [by right|].
  intros [Hin|Hm]%IH; [left; by apply list_elem_of_further|].
  destruct (decide (k' = k)) as [->|Hne].
  - rewrite lookup_insert_eq in Hm. injection Hm as ->. left. apply list_elem_of_here.
  - rewrite lookup_insert_ne in Hm by done. by right.
Qed.

Lemma foldl_insert_dom (genes : list ((Z * Z) * loc)) (m : gmap (Z * Z) loc) k :
  is_Some (m !! k) \/ k ∈ genes.*1 ->
  is_Some (foldl (fun m kc => <[kc.1 := kc.2]> m) m genes !! k).
Proof.
  revert m. induction genes as [|[k' c'] genes IH]; intros m; cbn.
  { intros [?|Hin]; [done|]. by apply elem_of_nil in Hin. }
  intros [Hm|Hin]; apply IH.
  - left. destruct (decide (k' = k)) as [->|Hne].
    + rewrite lookup_insert_eq. by eexists.
    + by rewrite lookup_insert_ne.
  - apply elem_of_cons in Hin as [->|Hin]; [left|by right].
    rewrite lookup_insert_eq. by eexists.
Qed.

Lemma align_spec_entries (genes : list ((Z * Z) * loc)) (m : gmap (Z * Z) loc)
    (r : Src) k conn :
  (align_spec m genes r).1 !! k = Some conn ->
  (k, conn) ∈ genes \/ m !! k = Some conn.
Proof.
  revert m r. induction genes as [|[k' c'] genes IH]; intros m r; cbn; [by right|].
  assert (Hins : <[k' := c']> m !! k = Some conn ->
                 (k, conn) ∈ (k', c') :: genes \/ m !! k = Some conn).
  { destruct (decide (k' = k)) as [->|Hne].
    - rewrite lookup_insert_eq. intros [= ->]. left. apply list_elem_of_here.
    - rewrite lookup_insert_ne by done. by right. }
  destruct (m !! k') as [old|] eqn:Em.
  - intros [Hin|Hm]%IH; [left; by apply list_elem_of_further|].
    destruct (PrimFloat.ltb _ _); [by apply Hins|by right].
  - intros [Hin|Hm]%IH; [left; by apply list_elem_of_further|by apply Hins].
Qed.

Lemma align_spec_dom (genes : list ((Z * Z) * loc)) (m : gmap (Z * Z) loc)
    (r : Src) k :
  is_Some (m !! k) \/ k ∈ genes.*1 ->
  is_Some ((align_spec m genes r).1 !! k).
Proof.
  revert m r. induction genes as [|[k' c'] genes IH]; intros m r; cbn.
  { intros [?|Hin]; [done|]. by apply elem_of_nil in Hin. }
  assert (Hins : is_Some (m !! k) \/ k = k' -> is_Some (<[k' := c']> m !! k)).
  { intros [Hm| ->]; [|rewrite lookup_insert_eq; by eexists].
    destruct (decide (k' = k)) as [->|Hne];
      [rewrite lookup_insert_eq; by eexists|by rewrite lookup_insert_ne]. }
  intros Hk.
  assert (Hcases : is_Some (m !! k) \/ k = k' \/ k ∈ genes.*1).
  { destruct Hk as [?|Hin]; [by left|].
    apply elem_of_cons in Hin as [->|Hin]; [right; by left|right; by right]. }
  destruct (m !! k') as [old|] eqn:Em.
  - apply IH. destruct Hcases as [Hm|[->|Hin]]; [|left|by right].
    + left. destruct (PrimFloat.ltb _ _); [apply Hins; by left|done].
    + destruct (PrimFloat.ltb _ _); [apply Hins; by right|by rewrite Em].
  - apply IH. destruct Hcases as [Hm|[->|Hin]]; [|left|by right].
    + left. apply Hins. by left.
    + apply Hins. by right.
Qed.

Lemma keeps_first_weaken (n : nat) (r : Src) :
  keeps_first (S n) r -> keeps_first n r.
Proof.
  revert r. induction n as [|n IH]; intros r; [done|].
  intros [H1 H2]. split; [done|by apply IH].
Qed.

Lemma align_spec_keeps_first (genes : list ((Z * Z) * loc))
    (m : gmap (Z * Z) loc) (r : Src) k conn :
  keeps_first (length genes) r ->
  m !! k = Some conn ->
  (align_spec m genes r).1 !! k = Some conn.
Proof.
  revert m r. induction genes as [|[k' c'] genes IH]; intros m r Hkeep Hm; [done|].
  cbn [align_spec]. destruct (m !! k') as [old|] eqn:Em.
  - destruct Hkeep as [-> Hkeep]. by apply IH.
  - apply IH; [by apply keeps_first_weaken|].
    rewrite lookup_insert_ne; [done|]. intros ->. congruence.
Qed.

Lemma alignment_entries (genes0 genes1 : list ((Z * Z) * loc)) (r : Src) k conn :
  (alignment_spec genes0 genes1 r).1 !! k = Some conn ->
  (k, conn) ∈ genes0 \/ (k, conn) ∈ genes1.
Proof.
  unfold alignment_spec, insert_all.
  intros [Hin|Hm]%align_spec_entries; [by right|].
  apply foldl_insert_entries in Hm as [Hin|Hm]; [by left|].
  by rewrite lookup_empty in Hm.
Qed.

Lemma copied_conn_key (h : Heap) (vals : list NodeGene) (cvals : list ConnGene)
    (gs : list Genome) (nodeGenes : list loc) (conn : loc) (k : Z * Z)
    (c' : ConnGene) :
  conn_key h conn = Some k ->
  copied_conn (mkHeap (nodes h ++ vals) (conns h ++ cvals) gs) nodeGenes conn
    = Some c' ->
  exists c, conns h !! conn = Some c /\
            at_index nodeGenes k.1 = Some (From c') /\
            at_index nodeGenes k.2 = Some (To c') /\
            Weight c' = Weight c /\ Disabled c' = Disabled c.
Proof.
  unfold conn_key. intros Hkey Hcopy.
  destruct (conns h !! conn) as [c|] eqn:Ec; [|done]. cbn in Hkey.
  destruct (nodes h !! From c) as [fv|] eqn:Ef; [|done]. cbn in Hkey.
  destruct (nodes h !! To c) as [tv|] eqn:Et; [|done]. cbn in Hkey.
  injection Hkey as <-.
  apply copied_conn_Some in Hcopy
    as (c2 & fv2 & tv2 & Hc2 & Hf2 & Ht2 & Hf' & Ht' & Hw & Hd).
  cbn [nodes conns] in Hc2, Hf2, Ht2.
  rewrite (lookup_app_l_Some _ _ _ _ Ec) in Hc2. injection Hc2 as <-.
  rewrite (lookup_app_l_Some _ _ _ _ Ef) in Hf2. injection Hf2 as <-.
  rewrite (lookup_app_l_Some _ _ _ _ Et) in Ht2. injection Ht2 as <-.
  by exists c.
Qed.

(** What a returned child says about any gene of the alignment map. *)
Lemma crossover_done_gene (s : State) (id : Z) (g0 g1 : loc) (child : loc)
    (s' : State) :
  crossover_done s id g0 g1 child s' ->
  exists gv0 gv1 genes0 genes1 cv,
    innov_input (heap s) g0 g1 = Some (gv0, gv1, genes0, genes1) /\
    genomes (heap s') !! child = Some cv /\
    NodeGenes cv =
      seq (length (nodes (heap s))) (length (NodeGenes (largerParent gv0 gv1))) /\
    forall k conn,
      (alignment_spec genes0 genes1 (rand s)).1 !! k = Some conn ->
      exists c c' p,
        conn_key (heap s) conn = Some k /\
        conns (heap s) !! conn = Some c /\
        p ∈ ConnGenes cv /\ conns (heap s') !! p = Some c' /\
        at_index (NodeGenes cv) k.1 = Some (From c') /\
        at_index (NodeGenes cv) k.2 = Some (To c') /\
        Weight c' = Weight c /\ Disabled c' = Disabled c.
Proof.
  intros (gv0 & gv1 & genes0 & genes1 & vals & cvals & Hin & Hspec).
  cbn zeta in Hspec. destruct Hspec as (-> & -> & Hvals & Hcvals).
  destruct (innov_input_Some _ _ _ _ _ _ _ Hin) as (Hg0 & Hg1 & Hk0 & Hk1).
  eexists gv0, gv1, genes0, genes1, _. split; [done|].
  cbn [heap genomes]. split; [by rewrite lookup_app_r, Nat.sub_diag|].
  cbn [NodeGenes ConnGenes]. split; [done|].
  intros k conn Hm.
  set (al := alignment_spec genes0 genes1 (rand s)) in *.
  assert (Hkey : conn_key (heap s) conn = Some k).
  { apply alignment_entries in Hm as [Hin0|Hin1].
    - by destruct (keyed_elem _ _ _ _ _ Hk0 Hin0).
    - by destruct (keyed_elem _ _ _ _ _ Hk1 Hin1). }
  assert (Hord : (k, conn) ∈ (range_order al.1 al.2).1).
  { rewrite range_order_perm. by apply elem_of_map_to_list. }
  apply list_elem_of_lookup in Hord as [j Hj].
  destruct (Forall2_lookup_l _ _ _ _ _ Hcvals Hj) as (c' & Hc' & Hcopy).
  cbn [snd] in Hcopy.
  destruct (copied_conn_key _ _ _ _ _ _ _ _ Hkey Hcopy) as (c & Hc & Hf & Ht & Hw & Hd).
  exists c, c', (length (conns (heap s)) + j)%nat.
  split; [done|]. split; [done|]. split.
  { apply elem_of_seq. apply lookup_lt_Some in Hj. lia. }
  split; [|done]. cbn [conns]. rewrite lookup_app_r by lia.
  by replace (length (conns (heap s)) + j - length (conns (heap s)))%nat with j by lia.
Qed.

(** C9: [Crossover] fails fast on a node id it cannot resolve.  If a gene
    of the alignment map has an end whose id is not an index of the node
    list of the larger parent (the list the child's nodes are copied from),
    the call panics: it returns no child, adds no genome to the heap and
    leaves every object that was there unchanged. *)
Theorem Crossover_fails_fast (id : Z) (g0 g1 : loc) (s s1 : State)
    (m : gmap (Z * Z) loc) (gv0 gv1 : Genome) (k : Z * Z) (conn : loc) (a b : Z) :
  innovations g0 g1 s = Done m s1 ->
  genomes (heap s) !! g0 = Some gv0 ->
  genomes (heap s) !! g1 = Some gv1 ->
  m !! k = Some conn ->
  conn_key (heap s) conn = Some (a, b) ->
  let n := Z.of_nat (length (NodeGenes (largerParent gv0 gv1))) in
  ~ (0 <= a < n /\ 0 <= b < n) ->
  exists s', Crossover id g0 g1 s = Panicked s' /\
             heap_extends (heap s) (heap s') /\
             genomes (heap s') = genomes (heap s).
Proof.
  intros Hrun Hg0 Hg1 Hm Hkey n Hbad.
  pose proof (Crossover_spec id g0 g1 s) as Hspec. unfold wp in Hspec.
  destruct (Crossover id g0 g1 s) as [child s'|s'] eqn:Erun.
  2: { exists s'. split; [done|]. destruct Hspec as [(vals & cvals & Hh) _].
       rewrite Hh. split; [|done].
       pose proof (heap_extends_app (heap s) vals cvals []) as Hext.
       by rewrite app_nil_r in Hext. }
  exfalso. apply Hbad.
  destruct (crossover_done_gene _ _ _ _ _ _ Hspec)
    as (gv0' & gv1' & genes0 & genes1 & cv & Hin & Hcv & Hnodes & Hgenes).
  destruct (innov_input_Some _ _ _ _ _ _ _ Hin) as (Hg0' & Hg1' & _ & _).
  assert (gv0' = gv0) as -> by congruence.
  assert (gv1' = gv1) as -> by congruence.
  pose proof (innovations_run g0 g1 s) as Hrun'. rewrite Hin, Hrun in Hrun'.
  injection Hrun' as -> _.
  destruct (Hgenes k conn Hm) as (c & c' & p & Hkey' & _ & _ & _ & Hf & Ht & _).
  assert (k = (a, b)) as -> by congruence. cbn [fst snd] in Hf, Ht.
  apply at_index_Some in Hf as [Ha Hf]. apply at_index_Some in Ht as [Hb Ht].
  apply lookup_lt_Some in Hf, Ht. rewrite Hnodes, length_seq in Hf, Ht.
  subst n. lia.
Qed.

(** ** The genes of the child *)

Lemma conn_tuple_Some (h : Heap) (conn : loc) (c : ConnGene) (k : Z * Z) :
  conns h !! conn = Some c -> conn_key h conn = Some k ->
  conn_tuple h conn = Some (k.1, k.2, Weight c, Disabled c).
Proof. intros Hc Hk. unfold conn_tuple. rewrite Hc. cbn. by rewrite Hk. Qed.

Lemma child_node_id (h : Heap) (gv : Genome) (vals : list NodeGene) (a : Z)
    (q : loc) :
  id_as_index h gv ->
  Forall2 (fun p v => (nodes h ++ vals) !! p = Some v) (NodeGenes gv) vals ->
  at_index (seq (length (nodes h)) (length (NodeGenes gv))) a = Some q ->
  ID <$> (nodes h ++ vals) !! q = Some a.
Proof.
  intros Hid Hvals [Ha [-> Hlt]%lookup_seq]%at_index_Some.
  destruct (lookup_lt_is_Some_2 _ _ Hlt) as [p Hp].
  destruct (Forall2_lookup_l _ _ _ _ _ Hvals Hp) as (v & Hv & Hpv).
  rewrite lookup_app_r by lia.
  replace (length (nodes h) + Z.to_nat a - length (nodes h))%nat
    with (Z.to_nat a) by lia.
  rewrite Hv. cbn. f_equal.
  pose proof (Hid _ p Hp) as Hidp.
  destruct (nodes h !! p) as [v0|] eqn:Ev0; [|done].
  rewrite (lookup_app_l_Some _ _ _ _ Ev0) in Hpv. injection Hpv as <-.
  cbn in Hidp. injection Hidp as ->. lia.
Qed.

Lemma crossover_child (s : State) (id : Z) (g0 g1 : loc) (child : loc)
    (s' : State) (gv0 gv1 : Genome) (genes0 genes1 : list ((Z * Z) * loc)) :
  Crossover id g0 g1 s = Done child s' ->
  innov_input (heap s) g0 g1 = Some (gv0, gv1, genes0, genes1) ->
  id_as_index (heap s) (largerParent gv0 gv1) ->
  let m := (alignment_spec genes0 genes1 (rand s)).1 in
  let related k conn p :=
    p ∈ ConnGenes (mkGenome id
           (seq (length (nodes (heap s))) (length (NodeGenes (largerParent gv0 gv1))))
           (seq (length (conns (heap s))) (size m))) /\
    m !! k = Some conn /\
    conn_key (heap s) conn = Some k /\
    conn_key (heap s') p = Some k /\
    conn_tuple (heap s') p = conn_tuple (heap s) conn in
  genomes (heap s') !! child =
    Some (mkGenome id
           (seq (length (nodes (heap s))) (length (NodeGenes (largerParent gv0 gv1))))
           (seq (length (conns (heap s))) (size m))) /\
  (forall i p, NodeGenes (largerParent gv0 gv1) !! i = Some p ->
     exists v, nodes (heap s) !! p = Some v /\
               nodes (heap s') !! (length (nodes (heap s)) + i)%nat = Some v) /\
  (forall k conn, m !! k = Some conn -> exists p, related k conn p) /\
  (forall p, (length (conns (heap s)) <= p < length (conns (heap s)) + size m)%nat ->
     exists k conn, related k conn p).
Proof.
  intros Hrun Hin Hid m related.
  pose proof (Crossover_spec id g0 g1 s) as Hspec. unfold wp in Hspec.
  rewrite Hrun in Hspec.
  destruct Hspec as (gv0' & gv1' & genes0' & genes1' & vals & cvals & Hin' & Hspec).
  rewrite Hin in Hin'. injection Hin' as <- <- <- <-.
  cbn zeta in Hspec. fold m in Hspec.
  set (al := alignment_spec genes0 genes1 (rand s)) in *.
  set (order := (range_order m al.2).1) in *.
  destruct Hspec as (-> & -> & Hvals & Hcvals).
  destruct (innov_input_Some _ _ _ _ _ _ _ Hin) as (Hg0 & Hg1 & Hk0 & Hk1).
  assert (Hperm : order ≡ₚ map_to_list m) by apply range_order_perm.
  assert (Hsize : length order = size m).
  { by rewrite Hperm, length_map_to_list. }
  set (cv := mkGenome id
               (seq (length (nodes (heap s)))
                    (length (NodeGenes (largerParent gv0 gv1))))
               (seq (length (conns (heap s))) (length order))).
  set (h' := mkHeap (nodes (heap s) ++ vals) (conns (heap s) ++ cvals)
                    (genomes (heap s) ++ [cv])).
  subst related. cbn [heap]. fold h'. rewrite <- Hsize. fold cv.
  assert (Hentry : forall j k conn c',
             order !! j = Some (k, conn) -> cvals !! j = Some c' ->
             copied_conn (mkHeap (nodes (heap s) ++ vals) (conns (heap s) ++ cvals)
                                 (genomes (heap s)))
               (seq (length (nodes (heap s)))
                    (length (NodeGenes (largerParent gv0 gv1)))) conn = Some c' ->
             (length (conns (heap s)) + j)%nat ∈ ConnGenes cv /\
             m !! k = Some conn /\
             conn_key (heap s) conn = Some k /\
             conn_key h' (length (conns (heap s)) + j)%nat = Some k /\
             conn_tuple h' (length (conns (heap s)) + j)%nat
               = conn_tuple (heap s) conn).
  { intros j k conn c' Hj Hc' Hcopy.
    assert (Hm : m !! k = Some conn).
    { apply elem_of_map_to_list. rewrite <- Hperm. by eapply list_elem_of_lookup_2. }
    assert (Hkey : conn_key (heap s) conn = Some k).
    { apply alignment_entries in Hm as [Hin0|Hin1].
      - by destruct (keyed_elem _ _ _ _ _ Hk0 Hin0).
      - by destruct (keyed_elem _ _ _ _ _ Hk1 Hin1). }
    destruct (copied_conn_key _ _ _ _ _ _ _ _ Hkey Hcopy)
      as (c & Hc & Hf & Ht & Hw & Hd).
    pose proof (child_node_id _ _ _ _ _ Hid Hvals Hf) as Hfid.
    pose proof (child_node_id _ _ _ _ _ Hid Hvals Ht) as Htid.
    assert (Hp : conns h' !! (length (conns (heap s)) + j)%nat = Some c').
    { cbn [h' conns]. rewrite lookup_app_r by lia.
      by replace (length (conns (heap s)) + j - length (conns (heap s)))%nat
        with j by lia. }
    assert (Hkey' : conn_key h' (length (conns (heap s)) + j)%nat = Some k).
    { unfold conn_key. rewrite Hp. cbn [h' nodes mbind option_bind].
      destruct ((nodes (heap s) ++ vals) !! From c') as [fv|]; [|done].
      destruct ((nodes (heap s) ++ vals) !! To c') as [tv|]; [|done].
      cbn in *. injection Hfid as ->. injection Htid as ->. by destruct k. }
    split; [apply elem_of_seq; apply lookup_lt_Some in Hj; lia|].
    split; [done|]. split; [done|]. split; [done|].
    rewrite (conn_tuple_Some h' _ c' k Hp Hkey').
    rewrite (conn_tuple_Some (heap s) _ c k Hc Hkey). by rewrite Hw, Hd. }
  split; [cbn [h' genomes]; by rewrite lookup_app_r, Nat.sub_diag|]. split; [|split].
  - intros i p Hp.
    destruct (Forall2_lookup_l _ _ _ _ _ Hvals Hp) as (v & Hv & Hpv).
    pose proof (Hid i p Hp) as Hidp.
    destruct (nodes (heap s) !! p) as [v0|] eqn:Ev0; [|done].
    rewrite (lookup_app_l_Some _ _ _ _ Ev0) in Hpv. injection Hpv as <-.
    exists v0. split; [done|]. cbn [h' nodes]. rewrite lookup_app_r by lia.
    by replace (length (nodes (heap s)) + i - length (nodes (heap s)))%nat
      with i by lia.
  - intros k conn Hm.
    assert (Hord : (k, conn) ∈ order).
    { rewrite Hperm. by apply elem_of_map_to_list. }
    apply list_elem_of_lookup in Hord as [j Hj].
    destruct (Forall2_lookup_l _ _ _ _ _ Hcvals Hj) as (c' & Hc' & Hcopy).
    exists (length (conns (heap s)) + j)%nat. by eapply Hentry.
  - intros p Hp.
    destruct (lookup_lt_is_Some_2 order (p - length (conns (heap s)))%nat)
      as [[k conn] Hj]; [lia|].
    destruct (Forall2_lookup_l _ _ _ _ _ Hcvals Hj) as (c' & Hc' & Hcopy).
    exists k, conn.
    replace p with (length (conns (heap s)) + (p - length (conns (heap s))))%nat
      by lia.
    by eapply Hentry.
Qed.

(** ** [Crossover] returns on parents that satisfy the invariants *)

Lemma valid_key_range (h : Heap) (gv : Genome) (conn : loc) :
  id_as_index h gv -> endpoints_owned h gv -> conn ∈ ConnGenes gv ->
  exists k, conn_key h conn = Some k /\
            0 <= k.1 < Z.of_nat (length (NodeGenes gv)) /\
            0 <= k.2 < Z.of_nat (length (NodeGenes gv)).
Proof.
  intros Hid Hown Hconn.
  destruct (Hown conn Hconn) as (c & Hc & [i Hi]%list_elem_of_lookup
                                          & [j Hj]%list_elem_of_lookup).
  pose proof (Hid i _ Hi) as Hfi. pose proof (Hid j _ Hj) as Htj.
  destruct (nodes h !! From c) as [fv|] eqn:Ef; [|done].
  destruct (nodes h !! To c) as [tv|] eqn:Et; [|done].
  cbn in Hfi, Htj. injection Hfi as Hfi. injection Htj as Htj.
  exists (ID fv, ID tv). split.
  - unfold conn_key. rewrite Hc. cbn. rewrite Ef. cbn. by rewrite Et.
  - apply lookup_lt_Some in Hi, Hj. cbn. lia.
Qed.

Lemma keyed_total (h : Heap) (l : list loc) :
  (forall conn, conn ∈ l -> is_Some (conn_key h conn)) -> is_Some (keyed h l).
Proof.
  induction l as [|conn l IH]; intros Hal; [by eexists|].
  rewrite keyed_cons.
  destruct (Hal conn) as [k ->]; [apply list_elem_of_here|].
  destruct IH as [genes ->]; [|by eexists].
  intros c Hc. apply Hal. by apply list_elem_of_further.
Qed.

Lemma valid_keyed (h : Heap) (gv : Genome) :
  id_as_index h gv -> endpoints_owned h gv -> is_Some (keyed h (ConnGenes gv)).
Proof.
  intros Hid Hown. apply keyed_total. intros conn Hconn.
  destruct (valid_key_range h gv conn Hid Hown Hconn) as (k & -> & _). by eexists.
Qed.

Lemma largerParent_cases (gv0 gv1 : Genome) :
  (largerParent gv0 gv1 = gv0 \/ largerParent gv0 gv1 = gv1) /\
  (length (NodeGenes gv0) <= length (NodeGenes (largerParent gv0 gv1)))%nat /\
  (length (NodeGenes gv1) <= length (NodeGenes (largerParent gv0 gv1)))%nat.
Proof.
  unfold largerParent.
  destruct (Nat.ltb_spec (length (NodeGenes gv0)) (length (NodeGenes gv1)));
    (split; [tauto|lia]).
Qed.

Lemma copied_conn_total (h : Heap) (vals : list NodeGene) (gs : list Genome)
    (nodeGenes : list loc) (conn : loc) (k : Z * Z) :
  conn_key h conn = Some k ->
  0 <= k.1 < Z.of_nat (length nodeGenes) ->
  0 <= k.2 < Z.of_nat (length nodeGenes) ->
  is_Some (copied_conn (mkHeap (nodes h ++ vals) (conns h) gs) nodeGenes conn).
Proof.
  unfold conn_key, copied_conn. cbn [nodes conns]. intros Hkey H1 H2.
  destruct (conns h !! conn) as [c|] eqn:Ec; [|done]. cbn in *.
  destruct (nodes h !! From c) as [fv|] eqn:Ef; [|done]. cbn in Hkey.
  destruct (nodes h !! To c) as [tv|] eqn:Et; [|done]. cbn in Hkey.
  injection Hkey as <-. cbn in H1, H2.
  rewrite (lookup_app_l_Some _ _ _ _ Ef). cbn.
  rewrite (lookup_app_l_Some _ _ _ _ Et).
  destruct (lookup_lt_is_Some_2 nodeGenes (Z.to_nat (ID fv))) as [f' Hf']; [lia|].
  destruct (lookup_lt_is_Some_2 nodeGenes (Z.to_nat (ID tv))) as [t' Ht']; [lia|].
  rewrite (proj2 (at_index_Some nodeGenes (ID fv) f')) by (split; [lia|done]). cbn.
  rewrite (proj2 (at_index_Some nodeGenes (ID tv) t')) by (split; [lia|done]). cbn.
  by eexists.
Qed.

Lemma Crossover_total (id : Z) (g0 g1 : loc) (s : State) (gv0 gv1 : Genome) :
  genomes (heap s) !! g0 = Some gv0 ->
  genomes (heap s) !! g1 = Some gv1 ->
  id_as_index (heap s) gv0 -> endpoints_owned (heap s) gv0 ->
  id_as_index (heap s) gv1 -> endpoints_owned (heap s) gv1 ->
  exists child s', Crossover id g0 g1 s = Done child s'.
Proof.
  intros Hg0 Hg1 Hid0 Hown0 Hid1 Hown1.
  pose proof (Crossover_spec id g0 g1 s) as Hspec. unfold wp in Hspec.
  destruct (Crossover id g0 g1 s) as [child s'|s'] eqn:Erun; [by eauto|].
  exfalso. destruct Hspec as [_ Hwhy].
  destruct (valid_keyed _ _ Hid0 Hown0) as [genes0 Hk0].
  destruct (valid_keyed _ _ Hid1 Hown1) as [genes1 Hk1].
  assert (Hin : innov_input (heap s) g0 g1 = Some (gv0, gv1, genes0, genes1)).
  { unfold innov_input. rewrite Hg0. cbn. rewrite Hk0. cbn. rewrite Hg1. cbn.
    by rewrite Hk1. }
  rewrite Hin in Hwhy. cbn zeta in Hwhy.
  destruct (largerParent_cases gv0 gv1) as (Hwhich & Hl0 & Hl1).
  destruct Hwhy as [(p & Hp & Hnone)|(vals & [k conn] & Hvals & Hkv & Hnone)].
  - apply list_elem_of_lookup in Hp as [i Hi].
    destruct Hwhich as [E|E]; rewrite E in Hi.
    + pose proof (Hid0 i p Hi) as H. by rewrite Hnone in H.
    + pose proof (Hid1 i p Hi) as H. by rewrite Hnone in H.
  - rewrite range_order_perm in Hkv. apply elem_of_map_to_list in Hkv.
    cbn [snd] in Hnone.
    assert (Hrange : conn_key (heap s) conn = Some k /\
              0 <= k.1 < Z.of_nat (length (NodeGenes (largerParent gv0 gv1))) /\
              0 <= k.2 < Z.of_nat (length (NodeGenes (largerParent gv0 gv1)))).
    { apply alignment_entries in Hkv as [Hin0|Hin1].
      - destruct (keyed_elem _ _ _ _ _ Hk0 Hin0) as [Hc Hkey].
        destruct (valid_key_range _ _ _ Hid0 Hown0 Hc) as (k' & Hkey' & H1 & H2).
        assert (k' = k) as -> by congruence. split; [done|lia].
      - destruct (keyed_elem _ _ _ _ _ Hk1 Hin1) as [Hc Hkey].
        destruct (valid_key_range _ _ _ Hid1 Hown1 Hc) as (k' & Hkey' & H1 & H2).
        assert (k' = k) as -> by congruence. split; [done|lia]. }
    destruct Hrange as (Hkey & H1 & H2).
    destruct (copied_conn_total (heap s) vals (genomes (heap s))
                (seq (length (nodes (heap s)))
                     (length (NodeGenes (largerParent gv0 gv1)))) conn k Hkey)
      as [c' Hc']; [by rewrite length_seq..|].
    congruence.
Qed.

(** ** Crossing a genome with itself *)

Lemma largerParent_same (gv : Genome) : largerParent gv gv = gv.
Proof. unfold largerParent. by rewrite Nat.ltb_irrefl. Qed.

Lemma unique_pairs_gene (h : Heap) (gv : Genome) (conn conn' : loc) (k : Z * Z) :
  unique_pairs h gv ->
  conn ∈ ConnGenes gv -> conn' ∈ ConnGenes gv ->
  conn_key h conn = Some k -> conn_key h conn' = Some k ->
  conn = conn'.
Proof.
  intros Huni [i Hi]%list_elem_of_lookup [j Hj]%list_elem_of_lookup Hk Hk'.
  assert (i = j) as -> by (by eapply Huni). congruence.
Qed.

Lemma keyed_keys (h : Heap) (l : list loc) (genes : list ((Z * Z) * loc))
    (conn : loc) (k : Z * Z) :
  keyed h l = Some genes -> conn ∈ l -> conn_key h conn = Some k ->
  (k, conn) ∈ genes /\ k ∈ genes.*1.
Proof.
  intros Hk Hconn Hkey.
  destruct (elem_keyed _ _ _ _ Hk Hconn) as (k' & Hin & Hkey').
  assert (k' = k) as -> by congruence. split; [done|].
  apply list_elem_of_fmap. by exists (k, conn).
Qed.

(** C5: crossing a valid genome with itself gives back the same genome in
    new objects.  [Crossover(childId, g, g)] returns, whatever the random
    source draws and in whatever order the map is walked; the nodes of the
    child have, position by position, the ids and roles of the nodes of [g];
    and a tuple (from id, to id, weight, disabled) is the tuple of a
    connection of the child exactly when it is the tuple of a connection of
    [g]. *)
Theorem Crossover_self (id : Z) (g : loc) (s : State) (gv : Genome) :
  genomes (heap s) !! g = Some gv ->
  valid_genome (heap s) gv ->
  exists child s' cv,
    Crossover id g g s = Done child s' /\
    genomes (heap s') !! child = Some cv /\
    length (NodeGenes cv) = length (NodeGenes gv) /\
    (forall i p, NodeGenes gv !! i = Some p ->
       exists q v w,
         NodeGenes cv !! i = Some q /\
         nodes (heap s) !! p = Some v /\ nodes (heap s') !! q = Some w /\
         ID w = ID v /\ Type_ w = Type_ v) /\
    (forall t, has_tuple (heap s') (ConnGenes cv) t <->
               has_tuple (heap s) (ConnGenes gv) t).
Proof.
  intros Hg [Hid Hown Huni].
  destruct (Crossover_total id g g s gv gv Hg Hg Hid Hown Hid Hown)
    as (child & s' & Hrun).
  destruct (valid_keyed _ _ Hid Hown) as [genes Hk].
  assert (Hin : innov_input (heap s) g g = Some (gv, gv, genes, genes)).
  { unfold innov_input. rewrite Hg. cbn. by rewrite Hk. }
  assert (Hidl : id_as_index (heap s) (largerParent gv gv))
    by (by rewrite largerParent_same).
  destruct (crossover_child s id g g child s' gv gv genes genes Hrun Hin Hidl)
    as (Hcv & Hnodes & Hfwd & Hbwd).
  rewrite largerParent_same in Hcv, Hnodes, Hfwd, Hbwd.
  set (m := (alignment_spec genes genes (rand s)).1) in *.
  exists child, s'. eexists. split; [done|]. split; [exact Hcv|].
  cbn [NodeGenes ConnGenes]. split; [by rewrite length_seq|]. split.
  - intros i p Hp. destruct (Hnodes i p Hp) as (v & Hv & Hv').
    exists (length (nodes (heap s)) + i)%nat, v, v.
    split; [apply lookup_seq; split; [done|by eapply lookup_lt_Some]|]. done.
  - intros t. split.
    + intros (p & [Hlo Hhi]%elem_of_seq & Ht).
      destruct (Hbwd p) as (k & conn & _ & Hm & Hkey & _ & Htup); [lia|].
      exists conn. split; [|by rewrite <- Htup].
      apply alignment_entries in Hm as [Hm|Hm];
        by destruct (keyed_elem _ _ _ _ _ Hk Hm).
    + intros (conn & Hconn & Ht).
      destruct (valid_key_range _ _ _ Hid Hown Hconn) as (k & Hkey & _).
      destruct (keyed_keys _ _ _ _ _ Hk Hconn Hkey) as [_ Hkin].
      destruct (align_spec_dom genes (insert_all genes) (rand s) k) as [conn' Hm];
        [by right|].
      fold (alignment_spec genes genes (rand s)) in Hm. fold m in Hm.
      destruct (Hfwd k conn' Hm) as (p & Hp & _ & Hkey' & _ & Htup).
      assert (conn' = conn) as ->.
      { apply (unique_pairs_gene (heap s) gv conn' conn k Huni); [|done..].
        apply alignment_entries in Hm as [Hm|Hm];
          by destruct (keyed_elem _ _ _ _ _ Hk Hm). }
      exists p. split; [exact Hp|]. by rewrite Htup.
Qed.

(** ** Aligned, disjoint and excess genes *)

Lemma conn_tuple_weight (h : Heap) (conn : loc) (t : Z * Z * float * bool) :
  conn_tuple h conn = Some t -> Weight <$> conns h !! conn = Some t.1.2.
Proof.
  unfold conn_tuple. destruct (conns h !! conn) as [c|]; [|done]. cbn.
  destruct (conn_key h conn); [|done]. cbn. by intros [= <-].
Qed.

Lemma conn_tuple_is_Some (h : Heap) (conn : loc) (k : Z * Z) :
  conn_key h conn = Some k -> is_Some (conn_tuple h conn).
Proof.
  intros Hk. unfold conn_tuple. pose proof Hk as Hk'. unfold conn_key in Hk'.
  destruct (conns h !! conn) as [c|]; [|done]. cbn. rewrite Hk. by eexists.
Qed.

(** C6: how the alignment map is built, and what follows for the child.
    For parents that satisfy the invariants of the data model, the two
    loops of [Crossover] return the map of the specification
    ([alignment_spec]: all genes of [g0] inserted, then each gene of [g1]
    replacing a recorded one when the draw is below 0.5 and added when its
    key is new), and [Crossover] returns a child in which: every gene of
    either parent whose pair of ids the other parent lacks appears with its
    tuple; and, when every tie-break draw keeps the first gene, a connection
    for a pair that both parents have exists and carries the weight of
    [g0]'s gene for that pair. *)
Theorem Crossover_alignment (id : Z) (g0 g1 : loc) (s : State) (gv0 gv1 : Genome) :
  genomes (heap s) !! g0 = Some gv0 ->
  genomes (heap s) !! g1 = Some gv1 ->
  valid_genome (heap s) gv0 ->
  valid_genome (heap s) gv1 ->
  exists genes0 genes1 child s' cv,
    keyed (heap s) (ConnGenes gv0) = Some genes0 /\
    keyed (heap s) (ConnGenes gv1) = Some genes1 /\
    innovations g0 g1 s =
      Done (alignment_spec genes0 genes1 (rand s)).1
           (mkState (heap s) (alignment_spec genes0 genes1 (rand s)).2) /\
    Crossover id g0 g1 s = Done child s' /\
    genomes (heap s') !! child = Some cv /\
    (forall conn k t,
        conn ∈ ConnGenes gv0 -> conn_key (heap s) conn = Some k ->
        (forall conn1, conn1 ∈ ConnGenes gv1 -> conn_key (heap s) conn1 <> Some k) ->
        conn_tuple (heap s) conn = Some t ->
        has_tuple (heap s') (ConnGenes cv) t) /\
    (forall conn k t,
        conn ∈ ConnGenes gv1 -> conn_key (heap s) conn = Some k ->
        (forall conn0, conn0 ∈ ConnGenes gv0 -> conn_key (heap s) conn0 <> Some k) ->
        conn_tuple (heap s) conn = Some t ->
        has_tuple (heap s') (ConnGenes cv) t) /\
    (keeps_first (length (ConnGenes gv1)) (rand s) ->
     forall conn0 conn1 k,
       conn0 ∈ ConnGenes gv0 -> conn1 ∈ ConnGenes gv1 ->
       conn_key (heap s) conn0 = Some k -> conn_key (heap s) conn1 = Some k ->
       (exists p, p ∈ ConnGenes cv /\ conn_key (heap s') p = Some k) /\
       (forall p, p ∈ ConnGenes cv -> conn_key (heap s') p = Some k ->
                  Weight <$> conns (heap s') !! p =
                  Weight <$> conns (heap s) !! conn0)).
Proof.
  intros Hg0 Hg1 [Hid0 Hown0 Huni0] [Hid1 Hown1 Huni1].
  destruct (Crossover_total id g0 g1 s gv0 gv1 Hg0 Hg1 Hid0 Hown0 Hid1 Hown1)
    as (child & s' & Hrun).
  destruct (valid_keyed _ _ Hid0 Hown0) as [genes0 Hk0].
  destruct (valid_keyed _ _ Hid1 Hown1) as [genes1 Hk1].
  assert (Hin : innov_input (heap s) g0 g1 = Some (gv0, gv1, genes0, genes1)).
  { unfold innov_input. rewrite Hg0. cbn. rewrite Hk0. cbn. rewrite Hg1. cbn.
    by rewrite Hk1. }
  assert (Hidl : id_as_index (heap s) (largerParent gv0 gv1)).
  { by destruct (largerParent_cases gv0 gv1) as ([->| ->] & _). }
  destruct (crossover_child s id g0 g1 child s' gv0 gv1 genes0 genes1 Hrun Hin Hidl)
    as (Hcv & _ & Hfwd & Hbwd).
  pose proof (innovations_run g0 g1 s) as Hinn. rewrite Hin in Hinn.
  set (m := (alignment_spec genes0 genes1 (rand s)).1) in *.
  exists genes0, genes1, child, s'. eexists.
  split; [done|]. split; [done|]. split; [done|]. split; [done|].
  split; [exact Hcv|]. cbn [ConnGenes].
  assert (Hfrom : forall k conn,
             m !! k = Some conn ->
             (conn ∈ ConnGenes gv0 \/ conn ∈ ConnGenes gv1) /\
             conn_key (heap s) conn = Some k).
  { intros k conn [Hm|Hm]%alignment_entries.
    - destruct (keyed_elem _ _ _ _ _ Hk0 Hm). tauto.
    - destruct (keyed_elem _ _ _ _ _ Hk1 Hm). tauto. }
  split; [|split].
  - intros conn k t Hconn Hkey Hdisj Ht.
    destruct (keyed_keys _ _ _ _ _ Hk0 Hconn Hkey) as [_ Hkin].
    destruct (align_spec_dom genes1 (insert_all genes0) (rand s) k) as [conn' Hm].
    { left. apply foldl_insert_dom. by right. }
    fold (alignment_spec genes0 genes1 (rand s)) in Hm. fold m in Hm.
    destruct (Hfrom k conn' Hm) as [[Hc'|Hc'] Hkey']; [|by destruct (Hdisj conn' Hc')].
    assert (conn' = conn) as -> by (by eapply (unique_pairs_gene (heap s) gv0)).
    destruct (Hfwd k conn Hm) as (p & Hp & _ & _ & _ & Htup).
    exists p. split; [exact Hp|]. by rewrite Htup.
  - intros conn k t Hconn Hkey Hdisj Ht.
    destruct (keyed_keys _ _ _ _ _ Hk1 Hconn Hkey) as [_ Hkin].
    destruct (align_spec_dom genes1 (insert_all genes0) (rand s) k) as [conn' Hm].
    { by right. }
    fold (alignment_spec genes0 genes1 (rand s)) in Hm. fold m in Hm.
    destruct (Hfrom k conn' Hm) as [[Hc'|Hc'] Hkey']; [by destruct (Hdisj conn' Hc')|].
    assert (conn' = conn) as -> by (by eapply (unique_pairs_gene (heap s) gv1)).
    destruct (Hfwd k conn Hm) as (p & Hp & _ & _ & _ & Htup).
    exists p. split; [exact Hp|]. by rewrite Htup.
  - intros Hkeep conn0 conn1 k Hc0 Hc1 Hkey0 Hkey1.
    destruct (keyed_keys _ _ _ _ _ Hk0 Hc0 Hkey0) as [_ Hkin].
    destruct (foldl_insert_dom genes0 ∅ k) as [c0' Hins]; [by right|].
    assert (c0' = conn0) as ->.
    { pose proof Hins as Hins'.
      apply foldl_insert_entries in Hins' as [Hins'|Hins'];
        [|by rewrite lookup_empty in Hins'].
      destruct (keyed_elem _ _ _ _ _ Hk0 Hins').
      by eapply (unique_pairs_gene (heap s) gv0). }
    assert (Hm : m !! k = Some conn0).
    { apply align_spec_keeps_first; [|exact Hins].
      apply keyed_spec, Forall2_length in Hk1. by rewrite <- Hk1. }
    split.
    + destruct (Hfwd k conn0 Hm) as (p & Hp & _ & _ & Hkey' & _). by exists p.
    + intros p [Hlo Hhi]%elem_of_seq Hkey'.
      destruct (Hbwd p) as (k' & conn' & _ & Hm' & _ & Hkey'' & Htup); [lia|].
      assert (k' = k) as -> by congruence.
      assert (conn' = conn0) as -> by congruence.
      destruct (conn_tuple_is_Some _ _ _ Hkey0) as [t Ht].
      rewrite (conn_tuple_weight _ _ t Ht).
      apply conn_tuple_weight. by rewrite Htup.
Qed.

(** ** The ID-as-index invariant along [Mutate] *)

Section IdAsIndex.

Variable g : loc.

Lemma id_as_index_grow (h h' : Heap) (gv : Genome) :
  nodes h `prefix_of` nodes h' -> id_as_index h gv -> id_as_index h' gv.
Proof.
  intros [extra Hn] Hid i p Hi. specialize (Hid i p Hi). rewrite Hn.
  destruct (nodes h !! p) as [v|] eqn:Ev; [|done].
  by rewrite (lookup_app_l_Some _ _ _ _ Ev).
Qed.

Lemma indexed_frame (s s' : State) :
  nodes (heap s) `prefix_of` nodes (heap s') ->
  genomes (heap s') = genomes (heap s) ->
  indexed g s -> indexed g s'.
Proof.
  intros Hn Hg (gv & Hgv & Hid). exists gv. rewrite Hg. split; [done|].
  by eapply id_as_index_grow.
Qed.

Lemma indexed_store (s s' : State) (gv' : Genome) :
  nodes (heap s') = nodes (heap s) ->
  genomes (heap s') = <[g := gv']> (genomes (heap s)) ->
  id_as_index (heap s) gv' ->
  indexed g s -> indexed g s'.
Proof.
  intros Hn Hg Hid' (gv & Hgv & _). exists gv'. rewrite Hg. split.
  - apply list_lookup_insert_eq. by eapply lookup_lt_Some.
  - eapply id_as_index_grow; [|done]. by rewrite Hn.
Qed.

Lemma perturb_indexed (rate : float) (l : list loc) (s : State) :
  indexed g s -> wp (perturb rate l) s (fun _ s' => indexed g s') (indexed g).
Proof.
  intros Hs. apply wp_for_each; [done|]. clear s Hs. intros conn s _ Hs.
  apply wp_bind, wp_float64.
  assert (Hs1 : indexed g (mkState (heap s) (Float64 (rand s)).2)) by done.
  destruct (PrimFloat.ltb _ _); [|by apply wp_ret].
  apply wp_bind, wp_normFloat64.
  apply wp_bind, wp_deref; [|done]. intros c _.
  apply wp_set_conn; [|done]. intros _.
  by eapply indexed_frame; [| |exact Hs].
Qed.

Lemma add_node_indexed (rate : float) (s : State) :
  indexed g s -> wp (add_node ActivationSet g rate) s (fun _ s' => indexed g s') (indexed g).
Proof.
  intros Hs. unfold add_node. apply wp_bind, wp_float64.
  set (s1 := mkState _ _).
  assert (Hs1 : indexed g s1) by done. clearbody s1.
  destruct (PrimFloat.ltb _ _); [|by apply wp_ret].
  apply wp_bind, wp_deref; [|done]. intros gv Hgv.
  destruct (negb _); [|by apply wp_ret].
  apply wp_bind, wp_intn; [|done]. intros _ _.
  set (s2 := mkState _ _).
  assert (Hs2 : indexed g s2) by done.
  assert (Hgv2 : genomes (heap s2) !! g = Some gv) by done.
  clearbody s2.
  apply wp_bind, wp_index; [|done]. intros selected _.
  apply wp_bind. unfold NewNodeGene. apply wp_alloc_node.
  set (s3 := mkState _ _).
  assert (Hid : id_as_index (heap s3)
                  (mkGenome (GenomeID gv) (NodeGenes gv ++ [length (nodes (heap s2))])
                            (ConnGenes gv))).
  { destruct Hs2 as (gv' & Hgv' & Hid). assert (gv' = gv) as -> by congruence.
    intros i p. cbn [NodeGenes]. intros [Hi|[Hi Hp]]%lookup_app_Some.
    - eapply (id_as_index_grow (heap s2)); [|done..]. cbn. by apply prefix_app_r.
    - apply list_lookup_singleton_Some in Hp as [Hz <-]. cbn.
      rewrite lookup_app_r, Nat.sub_diag by done. cbn. f_equal. lia. }
  assert (Hs3 : indexed g s3).
  { eapply indexed_frame; [| |exact Hs2]; [cbn; by apply prefix_app_r|done]. }
  clearbody s3.
  apply wp_bind, wp_set_genome; [|done]. intros Hlt.
  set (s4 := mkState _ _).
  assert (Hs4 : indexed g s4) by (by eapply indexed_store; [| | |exact Hs3]).
  assert (Hg4 : genomes (heap s4) !! g =
                Some (mkGenome (GenomeID gv)
                        (NodeGenes gv ++ [length (nodes (heap s2))]) (ConnGenes gv))).
  { cbn. by apply list_lookup_insert_eq. }
  assert (Hid4 : id_as_index (heap s4)
                   (mkGenome (GenomeID gv)
                      (NodeGenes gv ++ [length (nodes (heap s2))]) (ConnGenes gv))) by done.
  clearbody s4.
  apply wp_bind, wp_deref; [|done]. intros sel _.
  apply wp_bind. unfold NewConnGene. apply wp_alloc_conn.
  apply wp_bind, wp_alloc_conn. cbn [heap nodes conns genomes rand].
  apply wp_bind, wp_deref;
    [|intros Hnone; by eapply indexed_frame; [| |exact Hs4]].
  intros gv' Hgv'. cbn [heap genomes] in Hgv'.
  assert (gv' = mkGenome (GenomeID gv)
                   (NodeGenes gv ++ [length (nodes (heap s2))]) (ConnGenes gv))
    as -> by congruence.
  assert (Hs5 : indexed g
                  (mkState (mkHeap (nodes (heap s4))
                              ((conns (heap s4) ++
                                  [mkConnGene (From sel) (length (nodes (heap s2))) 1 false]) ++
                               [mkConnGene (length (nodes (heap s2))) (To sel) (Weight sel) false])
                              (genomes (heap s4))) (rand s4)))
    by (by eapply indexed_frame; [| |exact Hs4]).
  apply wp_bind, wp_set_genome; [|done]. intros Hlt'.
  cbn [heap nodes conns genomes rand GenomeID NodeGenes ConnGenes].
  set (s6 := mkState _ _).
  assert (Hs6 : indexed g s6) by (by eapply indexed_store; [| | |exact Hs5]).
  clearbody s6.
  apply wp_bind, wp_deref; [|done]. intros sel' _.
  apply wp_set_conn; [|done]. intros _.
  by eapply indexed_frame; [| |exact Hs6].
Qed.

Lemma connected_readonly (l : list loc) (n0 n1 : loc) (s : State) :
  wp (connected l n0 n1) s (fun _ s' => s' = s) (fun s' => s' = s).
Proof.
  induction l as [|c l IH]; [done|].
  cbn [connected]. apply wp_bind, wp_deref; [|done]. intros cv _.
  by destruct (_ && _).
Qed.

Lemma add_conn_indexed (rate : float) (s : State) :
  indexed g s -> wp (add_conn g rate) s (fun _ s' => indexed g s') (indexed g).
Proof.
  intros Hs. unfold add_conn. apply wp_bind, wp_float64.
  assert (Hs1 : indexed g (mkState (heap s) (Float64 (rand s)).2)) by done.
  destruct (PrimFloat.ltb _ _); [|by apply wp_ret].
  apply wp_bind, wp_deref; [|done]. intros gv Hgv.
  apply wp_bind, wp_intn; [|done]. intros _ _.
  apply wp_bind, wp_index; [|done]. intros n0 _.
  apply wp_bind, wp_intn; [|done]. intros _ _.
  apply wp_bind, wp_index; [|done]. intros n1 _.
  apply wp_bind.
  eapply wp_mono; [apply connected_readonly| |by intros s' ->].
  intros found s' ->. destruct found; [by apply wp_ret|].
  apply wp_bind, wp_normFloat64.
  apply wp_bind. unfold NewConnGene. apply wp_alloc_conn.
  cbn [heap nodes conns genomes rand].
  apply wp_bind, wp_deref; [|intros _; by eapply indexed_frame; [| |exact Hs]].
  intros gv' Hgv'. cbn [heap genomes] in Hgv'.
  apply wp_set_genome; [|intros _; by eapply indexed_frame; [| |exact Hs]].
  intros _. eapply indexed_store; [| | |exact Hs]; [done|done|].
  destruct Hs as (gv0 & Hgv0 & Hid).
  assert (gv' = gv0) as -> by congruence. exact Hid.
Qed.

Lemma Mutate_indexed (ratePerturb rateAddNode rateAddConn : float) (s : State) :
  indexed g s ->
  wp (Mutate ActivationSet g ratePerturb rateAddNode rateAddConn) s
     (fun _ s' => indexed g s') (indexed g).
Proof.
  intros Hs. unfold Mutate.
  apply wp_bind, wp_deref; [|done]. intros gv _.
  apply wp_bind. eapply wp_mono; [by apply perturb_indexed| |done].
  intros [] s1 Hs1.
  apply wp_bind. eapply wp_mono; [by apply add_node_indexed| |done].
  intros [] s2 Hs2. by apply add_conn_indexed.
Qed.

End IdAsIndex.

(** C2: the ID-as-index invariant is preserved.  If the nodes of a genome
    carry their positions as ids before [Mutate], the genome is still there
    and they do so after it, for any rates and whether the call returns or
    panics; and if the nodes of both parents carry their positions, so do
    the nodes of the child that [Crossover] returns. *)
Theorem id_as_index_preserved :
  (forall (g : loc) (ratePerturb rateAddNode rateAddConn : float) (s : State)
          (gv : Genome),
      genomes (heap s) !! g = Some gv ->
      id_as_index (heap s) gv ->
      let s' := final (Mutate ActivationSet g ratePerturb rateAddNode rateAddConn s) in
      exists gv', genomes (heap s') !! g = Some gv' /\ id_as_index (heap s') gv') /\
  (forall (id : Z) (g0 g1 : loc) (s : State) (gv0 gv1 : Genome) (child : loc)
          (s' : State),
      genomes (heap s) !! g0 = Some gv0 ->
      genomes (heap s) !! g1 = Some gv1 ->
      id_as_index (heap s) gv0 ->
      id_as_index (heap s) gv1 ->
      Crossover id g0 g1 s = Done child s' ->
      exists cv, genomes (heap s') !! child = Some cv /\ id_as_index (heap s') cv).
Proof.
  split.
  - intros g rp ra rc s gv Hg Hid s'.
    assert (Hs : indexed g s) by (by exists gv).
    pose proof (Mutate_indexed g rp ra rc s Hs) as Hwp. unfold wp in Hwp.
    subst s'. by destruct (Mutate ActivationSet g rp ra rc s).
  - intros id g0 g1 s gv0 gv1 child s' Hg0 Hg1 Hid0 Hid1 Hrun.
    pose proof (Crossover_spec id g0 g1 s) as Hspec. unfold wp in Hspec.
    rewrite Hrun in Hspec.
    destruct Hspec as (gv0' & gv1' & genes0 & genes1 & vals & cvals & Hin & Hspec).
    cbn zeta in Hspec. destruct Hspec as (-> & -> & Hvals & _).
    destruct (innov_input_Some _ _ _ _ _ _ _ Hin) as (Hg0' & Hg1' & _ & _).
    assert (gv0' = gv0) as -> by congruence.
    assert (gv1' = gv1) as -> by congruence.
    eexists. cbn [heap genomes]. split; [by rewrite lookup_app_r, Nat.sub_diag|].
    assert (Hidl : id_as_index (heap s) (largerParent gv0 gv1)).
    { by destruct (largerParent_cases gv0 gv1) as ([->| ->] & _). }
    intros i q. cbn [NodeGenes nodes]. intros [-> Hi]%lookup_seq.
    destruct (lookup_lt_is_Some_2 _ _ Hi) as [p Hp].
    destruct (Forall2_lookup_l _ _ _ _ _ Hvals Hp) as (v & Hv & Hpv).
    rewrite lookup_app_r by lia.
    replace (length (nodes (heap s)) + i - length (nodes (heap s)))%nat with i by lia.
    rewrite Hv. cbn. f_equal.
    pose proof (Hidl i p Hp) as Hidp.
    destruct (nodes (heap s) !! p) as [v0|] eqn:Ev0; [|done].
    rewrite (lookup_app_l_Some _ _ _ _ Ev0) in Hpv. injection Hpv as <-.
    by injection Hidp.
Qed.

End Facts.

(** * The factory *)

Section Factory.

Context {RT : Runtime}.
Variable ActivationSet : gmap string loc.
Variable literal_nodes : list loc.

(** Whatever the function literal of the returned struct yields, a genome
    that [NewGenome] returns has that as its node list and no connection. *)
Lemma NewGenome_result (id numInputs numOutputs : Z) (s : State) (g : loc)
    (s' : State) :
  NewGenome ActivationSet literal_nodes id numInputs numOutputs s = Done g s' ->
  genomes (heap s') !! g = Some (mkGenome id literal_nodes []).
Proof.
  unfold NewGenome, bind.
  destruct (NewGenome_locals _ _ _ _) as [locals s1|s1]; [|done].
  unfold alloc_genome. intros [= <- <-]. cbn.
  by rewrite lookup_app_r, Nat.sub_diag.
Qed.

Lemma wp_fold_each {A B} (body : B -> A -> M B) (l : list A)
    (I : B -> State -> Prop) (E : State -> Prop) (acc : B) (s : State) :
  I acc s ->
  (forall b x s0, x ∈ l -> I b s0 -> wp (body b x) s0 I E) ->
  wp (fold_each body acc l) s I E.
Proof.
  revert acc s. induction l as [|x l IH]; intros acc s Hacc Hbody; [done|].
  cbn [fold_each]. apply wp_bind.
  eapply wp_mono; [apply Hbody; [apply list_elem_of_here|done]| |done].
  intros b s' Hb. apply IH; [done|].
  intros b' y s0 Hy. apply Hbody. by apply list_elem_of_further.
Qed.

Lemma wrap64_small (z : Z) : - 2 ^ 63 <= z < 2 ^ 63 -> wrap64 z = z.
Proof. intros Hz. unfold wrap64. rewrite Z.mod_small; lia. Qed.

Lemma input_layer_length (numInputs : Z) (s : State) :
  wp (input_layer ActivationSet numInputs) s
     (fun nodeGenes _ => length nodeGenes = Z.to_nat numInputs)
     (fun _ => False).
Proof.
  unfold input_layer.
  assert (Hgen : forall (l : list Z) (acc : list loc) (s0 : State),
             wp (fold_each
                   (fun nodeGenes i =>
                      do inputNode <- NewNodeGene i "input" (ActivationSet !! "identity");
                      ret (nodeGenes ++ [inputNode])) acc l) s0
                (fun nodeGenes _ => length nodeGenes = (length acc + length l)%nat)
                (fun _ => False)).
  { induction l as [|i l IH]; intros acc s0; [unfold wp; cbn; lia|].
    cbn [fold_each]. apply wp_bind, wp_bind. unfold NewNodeGene.
    apply wp_alloc_node, wp_ret.
    eapply wp_mono; [apply IH| |done].
    intros nodeGenes _ ->. rewrite length_app. cbn. lia. }
  eapply wp_mono; [apply Hgen| |done].
  intros nodeGenes _ ->. rewrite length_seqZ. cbn. lia.
Qed.

Lemma output_layer_returns (numInputs numOutputs : Z) (nodeGenes0 : list loc)
    (s : State) :
  (Z.to_nat numInputs <= length nodeGenes0)%nat ->
  wp (output_layer ActivationSet numInputs numOutputs nodeGenes0) s
     (fun _ _ => True) (fun _ => False).
Proof.
  intros Hlen. unfold output_layer.
  eapply wp_mono;
    [apply (wp_fold_each _ _
              (fun (acc : list loc * list loc) _ =>
                 (Z.to_nat numInputs <= length acc.1)%nat)
              (fun _ => False)); [exact Hlen|] |done|done].
  intros [nodeGenes connGenes] i s0 _ Hacc. cbn [fst] in Hacc.
  apply wp_bind. unfold NewNodeGene. apply wp_alloc_node.
  apply wp_bind.
  eapply wp_mono;
    [apply (wp_fold_each _ _ (fun _ _ => True) (fun _ => False)); [done|] | |done].
  - intros connGenes' j s1 [Hj0 Hj1]%elem_of_seqZ _.
    apply wp_bind, wp_index.
    + intros from _. apply wp_bind, wp_normFloat64.
      apply wp_bind. unfold NewConnGene. apply wp_alloc_conn. by apply wp_ret.
    + unfold at_index. rewrite decide_True by lia.
      intros Hnone%lookup_ge_None. rewrite length_app in Hnone. cbn in Hnone. lia.
  - intros connGenes' s1 _. apply wp_ret. cbn [fst]. rewrite length_app. lia.
Qed.

(** C1 (the code departs from it): for counts that are not negative, within
    the range of [int], [NewGenome] returns, and the genome it returns holds
    none of the genes its loops have built: the connection list is empty
    (not [numInputs * numOutputs] connections), and the node list is what
    the function literal without a body yields. *)
Theorem NewGenome_no_connections (id numInputs numOutputs : Z) (s : State) :
  0 <= numInputs -> 0 <= numOutputs ->
  numInputs + numOutputs < 2 ^ 63 -> numInputs * numOutputs < 2 ^ 63 ->
  exists g s',
    NewGenome ActivationSet literal_nodes id numInputs numOutputs s = Done g s' /\
    genomes (heap s') !! g = Some (mkGenome id literal_nodes []).
Proof.
  intros HnI HnO Hsum Hprod.
  assert (Hwp : wp (NewGenome_locals ActivationSet numInputs numOutputs) s
                   (fun _ _ => True) (fun _ => False)).
  { unfold NewGenome_locals, make_cap.
    rewrite !wrap64_small by nia.
    apply wp_bind. rewrite decide_False by lia. apply wp_ret.
    apply wp_bind. rewrite decide_False by nia. apply wp_ret.
    apply wp_bind. eapply wp_mono; [apply input_layer_length| |done].
    intros nodeGenes s1 Hlen. cbn beta in Hlen.
    apply output_layer_returns. by rewrite Hlen. }
  unfold wp in Hwp.
  destruct (NewGenome_locals ActivationSet numInputs numOutputs s)
    as [locals s1|s1] eqn:Elocals; [|done].
  eexists _, _. split.
  - unfold NewGenome. rewrite (bind_done _ _ _ _ _ Elocals). reflexivity.
  - cbn. by rewrite lookup_app_r, Nat.sub_diag.
Qed.

End Factory.

(** * The program on concrete inputs *)

(** [NewGenome(1, 2, 1)] builds the three nodes with ids 0, 1, 2 and the
    two connections from 0 to 2 and from 1 to 2 in its locals, and then
    returns a genome that holds none of the connections. *)
Lemma NewGenome_1_2_1 (literal_nodes : list loc) :
  let s := mkState empty_heap (script [] [1; 2]%float []) in
  exists s1 s',
    NewGenome_locals registry 2 1 s = Done ([0; 1; 2]%nat, [0; 1]%nat) s1 /\
    conn_key (heap s1) 0%nat = Some (0, 2) /\
    conn_key (heap s1) 1%nat = Some (1, 2) /\
    NewGenome registry literal_nodes 1 2 1 s = Done 0%nat s' /\
    genomes (heap s') !! 0%nat = Some (mkGenome 1 literal_nodes []).
Proof.
  eexists _, _. split; [vm_compute; reflexivity|].
  split; [reflexivity|]. split; [reflexivity|].
  split; [vm_compute; reflexivity|reflexivity].
Qed.

Lemma small_genome_valid : valid_genome small_heap small_genome.
Proof.
  split.
  - intros i p Hi. do 3 (destruct i as [|i]; [by injection Hi as <-|]). done.
  - intros conn Hconn.
    repeat (apply elem_of_cons in Hconn as [->|Hconn]);
      [| |by apply elem_of_nil in Hconn];
      (eexists; split; [reflexivity|]; split; apply list_elem_of_In; cbn; tauto).
  - intros i j ci cj k Hi Hj Hki Hkj.
    destruct i as [|[|i]]; destruct j as [|[|j]];
      try (cbn in Hi; done); try (cbn in Hj; done); try reflexivity;
      injection Hi as <-; injection Hj as <-;
      vm_compute in Hki, Hkj; congruence.
Qed.

Lemma first_genome_valid : valid_genome pair_heap first_genome.
Proof.
  split.
  - intros i p Hi. do 3 (destruct i as [|i]; [by injection Hi as <-|]). done.
  - intros conn Hconn.
    repeat (apply elem_of_cons in Hconn as [->|Hconn]);
      [| |by apply elem_of_nil in Hconn];
      (eexists; split; [reflexivity|]; split; apply list_elem_of_In; cbn; tauto).
  - intros i j ci cj k Hi Hj Hki Hkj.
    destruct i as [|[|i]]; destruct j as [|[|j]];
      try (cbn in Hi; done); try (cbn in Hj; done); try reflexivity;
      injection Hi as <-; injection Hj as <-;
      vm_compute in Hki, Hkj; congruence.
Qed.

Lemma second_genome_valid : valid_genome pair_heap second_genome.
Proof.
  split.
  - intros i p Hi. do 3 (destruct i as [|i]; [by injection Hi as <-|]). done.
  - intros conn Hconn.
    repeat (apply elem_of_cons in Hconn as [->|Hconn]);
      [| |by apply elem_of_nil in Hconn];
      (eexists; split; [reflexivity|]; split; apply list_elem_of_In; cbn; tauto).
  - intros i j ci cj k Hi Hj Hki Hkj.
    destruct i as [|[|i]]; destruct j as [|[|j]];
      try (cbn in Hi; done); try (cbn in Hj; done); try reflexivity;
      injection Hi as <-; injection Hj as <-;
      vm_compute in Hki, Hkj; congruence.
Qed.

Lemma small_conns_allocated (r : Script) :
  forall conn, conn ∈ ConnGenes small_genome ->
               is_Some (conns (heap (mkState small_heap r)) !! conn).
Proof.
  intros conn Hconn.
  repeat (apply elem_of_cons in Hconn as [->|Hconn]);
    [| |by apply elem_of_nil in Hconn]; by eexists.
Qed.

Lemma small_conns_NoDup : NoDup (ConnGenes small_genome).
Proof.
  apply NoDup_cons. split; [|apply NoDup_singleton].
  intros H%list_elem_of_singleton. discriminate.
Qed.

(** [worn_heap] is what one add-node mutation makes of [small_heap]. *)
Lemma worn_heap_reached :
  heap (final (Mutate registry 0%nat 0 1 0 (mkState small_heap (script [] [] [1]))))
  = worn_heap.
Proof. vm_compute. reflexivity. Qed.

(** C3 as written fails: in [worn_state] the draw selects connection 1,
    which is disabled already, so the call disables no connection that was
    enabled before. *)
Lemma add_node_picks_disabled_gene :
  ~ exists s',
      Mutate registry 0%nat 0 1 0 worn_state = Done tt s' /\
      length (newly_disabled (heap worn_state) (heap s') [0; 1; 2; 3]%nat) = 1%nat.
Proof.
  intros (s' & Hrun & Hlen). vm_compute in Hrun. injection Hrun as <-.
  vm_compute in Hlen. discriminate.
Qed.

Lemma id_as_index_preserved_witness :
  genomes (heap small_state) !! 0%nat = Some small_genome /\
  id_as_index (heap small_state) small_genome /\
  Crossover 7 0%nat 0%nat small_state
    = Done 1%nat (final (Crossover 7 0%nat 0%nat small_state)) /\
  (exists gv', genomes (heap (final (Mutate registry 0%nat 1 1 1 small_state))) !! 0%nat
                 = Some gv' /\
               id_as_index (heap (final (Mutate registry 0%nat 1 1 1 small_state))) gv') /\
  (exists cv, genomes (heap (final (Crossover 7 0%nat 0%nat small_state))) !! 1%nat
                = Some cv /\
              id_as_index (heap (final (Crossover 7 0%nat 0%nat small_state))) cv).
Proof.
  assert (Hg : genomes (heap small_state) !! 0%nat = Some small_genome) by reflexivity.
  assert (Hid : id_as_index (heap small_state) small_genome)
    by exact (valid_ids _ _ small_genome_valid).
  assert (Hrun : Crossover 7 0%nat 0%nat small_state
                 = Done 1%nat (final (Crossover 7 0%nat 0%nat small_state)))
    by (vm_compute; reflexivity).
  split; [exact Hg|]. split; [exact Hid|]. split; [exact Hrun|]. split.
  - exact (proj1 (id_as_index_preserved registry) 0%nat 1%float 1%float 1%float
             small_state small_genome Hg Hid).
  - exact (proj2 (id_as_index_preserved registry) 7 0%nat 0%nat small_state
             small_genome small_genome 1%nat _ Hg Hg Hid Hid Hrun).
Defined.

Lemma Mutate_add_node_witness :
  genomes (heap small_state) !! 0%nat = Some small_genome /\
  ConnGenes small_genome <> [] /\
  NoDup (ConnGenes small_genome) /\
  (forall conn, conn ∈ ConnGenes small_genome ->
                is_Some (conns (heap small_state) !! conn)) /\
  exists selected sel s',
    conns (heap small_state) !! selected = Some sel /\
    Mutate registry 0%nat 0 1 0 small_state = Done tt s' /\
    length (conns (heap s')) = (length (conns (heap small_state)) + 2)%nat /\
    newly_disabled (heap small_state) (heap s') (ConnGenes small_genome)
      = if Disabled sel then [] else [selected].
Proof.
  assert (Hg : genomes (heap small_state) !! 0%nat = Some small_genome) by reflexivity.
  assert (Hne : ConnGenes small_genome <> []) by discriminate.
  split; [exact Hg|]. split; [exact Hne|]. split; [exact small_conns_NoDup|].
  split; [exact (small_conns_allocated _)|].
  destruct (Mutate_add_node registry 0%nat small_state small_genome Hg Hne
              small_conns_NoDup (small_conns_allocated _))
    as (selected & sel & s' & _ & Hsel & Hrun & _ & _ & Hlen & _ & _ & _ & _ & Hnew).
  exists selected, sel, s'. repeat split; assumption.
Defined.

Lemma add_conn_never_duplicates_witness :
  genomes (heap linked_state) !! 0%nat = Some small_genome /\
  valid_genome (heap linked_state) small_genome /\
  (exists gv',
      genomes (heap (final (repeatM 3 (Mutate registry 0%nat 0 0 1) linked_state))) !! 0%nat
        = Some gv' /\
      valid_genome (heap (final (repeatM 3 (Mutate registry 0%nat 0 0 1) linked_state)))
                   gv') /\
  (exists r', Mutate registry 0%nat 0 0 1 linked_state
              = Done tt (mkState (heap linked_state) r')).
Proof.
  assert (Hg : genomes (heap linked_state) !! 0%nat = Some small_genome) by reflexivity.
  split; [exact Hg|]. split; [exact small_genome_valid|].
  destruct (add_conn_never_duplicates registry 0%nat linked_state small_genome Hg
              small_genome_valid) as [Hseq Hnoop].
  split; [exact (Hseq 3%nat)|].
  apply (Hnoop 0%nat 2%nat (mkNodeGene 0 "input" (Some 0%nat))
               (mkNodeGene 2 "output" (Some 1%nat)) 0%nat);
    try reflexivity. apply list_elem_of_here.
Defined.

Lemma Crossover_self_witness :
  genomes (heap small_state) !! 0%nat = Some small_genome /\
  valid_genome (heap small_state) small_genome /\
  exists child s' cv,
    Crossover 7 0%nat 0%nat small_state = Done child s' /\
    genomes (heap s') !! child = Some cv /\
    (forall t, has_tuple (heap s') (ConnGenes cv) t <->
               has_tuple (heap small_state) (ConnGenes small_genome) t).
Proof.
  assert (Hg : genomes (heap small_state) !! 0%nat = Some small_genome) by reflexivity.
  split; [exact Hg|]. split; [exact small_genome_valid|].
  destruct (Crossover_self 7 0%nat small_state small_genome Hg small_genome_valid)
    as (child & s' & cv & Hrun & Hcv & _ & _ & Htup).
  exists child, s', cv. repeat split; try assumption; apply Htup.
Defined.

Lemma Crossover_alignment_witness :
  genomes (heap pair_state) !! 0%nat = Some first_genome /\
  genomes (heap pair_state) !! 1%nat = Some second_genome /\
  valid_genome (heap pair_state) first_genome /\
  valid_genome (heap pair_state) second_genome /\
  keeps_first (length (ConnGenes second_genome)) (rand pair_state) /\
  exists child s' cv,
    Crossover 7 0%nat 1%nat pair_state = Done child s' /\
    genomes (heap s') !! child = Some cv /\
    has_tuple (heap s') (ConnGenes cv) (1, 2, (-3)%float, false) /\
    has_tuple (heap s') (ConnGenes cv) (1, 0, 2%float, true) /\
    (forall p, p ∈ ConnGenes cv -> conn_key (heap s') p = Some (0, 2) ->
               Weight <$> conns (heap s') !! p = Some 0.25%float).
Proof.
  assert (Hg0 : genomes (heap pair_state) !! 0%nat = Some first_genome) by reflexivity.
  assert (Hg1 : genomes (heap pair_state) !! 1%nat = Some second_genome) by reflexivity.
  assert (Hkeep : keeps_first (length (ConnGenes second_genome)) (rand pair_state))
    by (repeat split).
  split; [exact Hg0|]. split; [exact Hg1|].
  split; [exact first_genome_valid|]. split; [exact second_genome_valid|].
  split; [exact Hkeep|].
  destruct (Crossover_alignment 7 0%nat 1%nat pair_state first_genome second_genome
              Hg0 Hg1 first_genome_valid second_genome_valid)
    as (genes0 & genes1 & child & s' & cv & _ & _ & _ & Hrun & Hcv & Hd0 & Hd1 & Hfirst).
  exists child, s', cv. split; [exact Hrun|]. split; [exact Hcv|]. split; [|split].
  - apply (Hd0 1%nat (1, 2)); [apply list_elem_of_further, list_elem_of_here
                              |reflexivity| |reflexivity].
    intros conn1 Hc1.
    repeat (apply elem_of_cons in Hc1 as [->|Hc1]);
      [| |by apply elem_of_nil in Hc1]; vm_compute; discriminate.
  - apply (Hd1 3%nat (1, 0)); [apply list_elem_of_further, list_elem_of_here
                              |reflexivity| |reflexivity].
    intros conn0 Hc0.
    repeat (apply elem_of_cons in Hc0 as [->|Hc0]);
      [| |by apply elem_of_nil in Hc0]; vm_compute; discriminate.
  - intros p Hp Hkey.
    destruct (Hfirst Hkeep 0%nat 2%nat (0, 2)) as [_ Hw];
      [apply list_elem_of_here|apply list_elem_of_here|reflexivity|reflexivity|].
    exact (Hw p Hp Hkey).
Defined.

Lemma Crossover_independent_witness :
  heap_extends (heap small_state) (heap (final (Crossover 7 0%nat 0%nat small_state))) /\
  exists gv0 gv1 cv,
    genomes (heap small_state) !! 0%nat = Some gv0 /\
    genomes (heap small_state) !! 0%nat = Some gv1 /\
    genomes (heap (final (Crossover 7 0%nat 0%nat small_state))) !! 1%nat = Some cv /\
    GenomeID cv = 7 /\
    length (NodeGenes cv) = length (NodeGenes (largerParent gv0 gv1)).
Proof.
  destruct (Crossover_independent 7 0%nat 0%nat small_state) as [Hext Hdone].
  split; [exact Hext|].
  destruct (Hdone 1%nat (final (Crossover 7 0%nat 0%nat small_state)))
    as (gv0 & gv1 & cv & Hg0 & Hg1 & _ & _ & Hcv & Hid & Hlen & _);
    [vm_compute; reflexivity|].
  exists gv0, gv1, cv. repeat split; assumption.
Defined.

Lemma Mutate_perturbation_witness :
  genomes (heap small_state) !! 0%nat = Some small_genome /\
  NoDup (ConnGenes small_genome) /\
  (forall conn, conn ∈ ConnGenes small_genome ->
                is_Some (conns (heap small_state) !! conn)) /\
  (exists r, Mutate registry 0%nat 0 0 0 small_state
             = Done tt (mkState (heap small_state) r)) /\
  (exists s',
      Mutate registry 0%nat 1 0 0 small_state = Done tt s' /\
      nodes (heap s') = nodes (heap small_state) /\
      genomes (heap s') = genomes (heap small_state) /\
      conns (heap s') !! 0%nat = Some (mkConnGene 0%nat 2%nat 1.25 false) /\
      conns (heap s') !! 1%nat = Some (mkConnGene 1%nat 2%nat (-1) false)).
Proof.
  assert (Hg : genomes (heap small_state) !! 0%nat = Some small_genome) by reflexivity.
  split; [exact Hg|]. split; [exact small_conns_NoDup|].
  split; [exact (small_conns_allocated _)|].
  destruct (Mutate_perturbation registry 0%nat small_state small_genome Hg)
    as [Hzero Hone].
  split; [exact Hzero|].
  destruct (Hone small_conns_NoDup (small_conns_allocated _))
    as (s' & Hrun & Hn & Hgs & _ & Hin & _).
  exists s'. split; [exact Hrun|]. split; [exact Hn|]. split; [exact Hgs|]. split.
  - exact (Hin 0%nat 0%nat (mkConnGene 0%nat 2%nat 0.25 false) eq_refl eq_refl).
  - exact (Hin 1%nat 1%nat (mkConnGene 1%nat 2%nat (-3) false) eq_refl eq_refl).
Defined.

Lemma Crossover_fails_fast_witness :
  innovations 0%nat 1%nat odd_state
    = Done (<[(7, 7) := 1%nat]> (<[(0, 1) := 0%nat]> ∅)) odd_state /\
  (<[(7, 7) := 1%nat]> (<[(0, 1) := 0%nat]> (∅ : gmap (Z * Z) nat))) !! (7, 7)
    = Some 1%nat /\
  conn_key (heap odd_state) 1%nat = Some (7, 7) /\
  ~ (0 <= 7 < 2 /\ 0 <= 7 < 2) /\
  exists s', Crossover 9 0%nat 1%nat odd_state = Panicked s' /\
             heap_extends (heap odd_state) (heap s') /\
             genomes (heap s') = genomes (heap odd_state).
Proof.
  assert (Hrun : innovations 0%nat 1%nat odd_state
                 = Done (<[(7, 7) := 1%nat]> (<[(0, 1) := 0%nat]> ∅)) odd_state)
    by (vm_compute; reflexivity).
  assert (Hm : (<[(7, 7) := 1%nat]> (<[(0, 1) := 0%nat]> (∅ : gmap (Z * Z) nat)))
                 !! (7, 7) = Some 1%nat) by (vm_compute; reflexivity).
  assert (Hbad : ~ (0 <= 7 < 2 /\ 0 <= 7 < 2)) by lia.
  split; [exact Hrun|]. split; [exact Hm|]. split; [reflexivity|]. split; [exact Hbad|].
  exact (Crossover_fails_fast 9 0%nat 1%nat odd_state odd_state _
           (mkGenome 1 [0; 1]%nat [0]%nat) (mkGenome 2 [2]%nat [1]%nat)
           (7, 7) 1%nat 7 7 Hrun eq_refl eq_refl Hm eq_refl Hbad).
Defined.

Lemma add_conn_needs_a_node_witness :
  genomes (heap bare_state) !! 0%nat = Some (mkGenome 5 [] []) /\
  endpoints_owned (heap bare_state) (mkGenome 5 [] []) /\
  PrimFloat.ltb (Float64 (Float64 (rand bare_state)).2).1 1 = true /\
  add_conn 0%nat 1 bare_state
    = Panicked (mkState (heap bare_state) (Float64 (rand bare_state)).2) /\
  Mutate registry 0%nat 0 0 1 bare_state
    = Panicked (mkState (heap bare_state) (Float64 (Float64 (rand bare_state)).2).2) /\
  NodeGenes small_genome <> [] /\
  exists s', add_conn 0%nat 1 small_state = Done tt s'.
Proof.
  assert (Hg : genomes (heap bare_state) !! 0%nat = Some (mkGenome 5 [] []))
    by reflexivity.
  assert (Hown : endpoints_owned (heap bare_state) (mkGenome 5 [] [])).
  { intros conn Hconn. by apply elem_of_nil in Hconn. }
  destruct (add_conn_needs_a_node registry 0%nat bare_state (mkGenome 5 [] [])
              0%float 0%float 1%float Hg) as (Hstep & Hmut & _).
  split; [exact Hg|]. split; [exact Hown|]. split; [reflexivity|].
  split; [exact (Hstep eq_refl eq_refl)|].
  split; [exact (Hmut eq_refl Hown eq_refl)|].
  assert (Hne : NodeGenes small_genome <> []) by discriminate.
  split; [exact Hne|].
  destruct (add_conn_needs_a_node registry 0%nat small_state small_genome
              0%float 0%float 1%float eq_refl) as (_ & _ & Htotal).
  exact (Htotal Hne (small_conns_allocated _)).
Defined.

Lemma NewGenome_no_connections_witness :
  0 <= 2 /\ 0 <= 1 /\ 2 + 1 < 2 ^ 63 /\ 2 * 1 < 2 ^ 63 /\
  exists g s',
    NewGenome registry [] 1 2 1 (mkState empty_heap (script [] [1; 2]%float []))
      = Done g s' /\
    genomes (heap s') !! g = Some (mkGenome 1 [] []).
Proof.
  assert (H1 : 0 <= 2) by lia. assert (H2 : 0 <= 1) by lia.
  assert (H3 : 2 + 1 < 2 ^ 63) by lia. assert (H4 : 2 * 1 < 2 ^ 63) by lia.
  split; [exact H1|]. split; [exact H2|]. split; [exact H3|]. split; [exact H4|].
  exact (NewGenome_no_connections registry [] 1 2 1
           (mkState empty_heap (script [] [1; 2]%float [])) H1 H2 H3 H4).
Defined.

(** * Further properties of [Mutate] *)

Section Growth.

Context {RT : Runtime}.
Variable ActivationSet : gmap string loc.
Variable g : loc.

Lemma genes_kept_refl (h : Heap) : genes_kept g h h.
Proof.
  split; [done|]. split; [done|]. split; [|done].
  intros p c Hc. by exists c.
Qed.

Lemma genes_kept_trans (h1 h2 h3 : Heap) :
  genes_kept g h1 h2 -> genes_kept g h2 h3 -> genes_kept g h1 h3.
Proof.
  intros (Hn1 & Hl1 & Hc1 & Hg1 & Ho1) (Hn2 & Hl2 & Hc2 & Hg2 & Ho2).
  split; [by etrans|]. split; [lia|]. split; [|split; [congruence|]].
  - intros p c Hc. destruct (Hc1 p c Hc) as (c' & Hc' & Hf & Ht & Hd).
    destruct (Hc2 p c' Hc') as (c'' & Hc'' & Hf' & Ht' & Hd').
    exists c''. split; [done|]. split; [congruence|]. split; [congruence|].
    intros H. by apply Hd', Hd.
  - intros g' Hg'. by rewrite Ho2, Ho1.
Qed.

Lemma grown_by_refl (h : Heap) : grown_by g 0 0 h h.
Proof.
  split; [apply genes_kept_refl|]. intros gv Hgv. exists gv.
  repeat split; (done || lia).
Qed.

Lemma grown_by_trans (a b c d : nat) (h1 h2 h3 : Heap) :
  grown_by g a b h1 h2 -> grown_by g c d h2 h3 ->
  grown_by g (a + c) (b + d) h1 h3.
Proof.
  intros [Hk1 Hg1] [Hk2 Hg2]. split; [by eapply genes_kept_trans|].
  intros gv Hgv. destruct (Hg1 gv Hgv) as (gv' & Hgv' & Hid & Hn & Hc & Hln & Hlc).
  destruct (Hg2 gv' Hgv') as (gv'' & Hgv'' & Hid' & Hn' & Hc' & Hln' & Hlc').
  exists gv''. split; [done|]. split; [congruence|].
  split; [by etrans|]. split; [by etrans|]. lia.
Qed.

Lemma grown_by_mono (a b a' b' : nat) (h h' : Heap) :
  (a <= a')%nat -> (b <= b')%nat -> grown_by g a b h h' -> grown_by g a' b' h h'.
Proof.
  intros Ha Hb [Hk Hg]. split; [done|]. intros gv Hgv.
  destruct (Hg gv Hgv) as (gv' & Hgv' & Hid & Hn & Hc & Hln & Hlc).
  exists gv'. repeat split; (done || lia).
Qed.

Lemma grown_by_alloc (h : Heap) (vs : list NodeGene) (cs : list ConnGene) :
  grown_by g 0 0 h (mkHeap (nodes h ++ vs) (conns h ++ cs) (genomes h)).
Proof.
  split.
  - split; [by apply prefix_app_r|]. cbn. rewrite length_app.
    split; [lia|]. split; [|done].
    intros p c Hc. exists c. split; [by apply lookup_app_l_Some|done].
  - intros gv Hgv. exists gv. repeat split; (done || lia).
Qed.

Lemma grown_by_set_conn (h : Heap) (p : loc) (c c' : ConnGene) :
  conns h !! p = Some c ->
  From c' = From c -> To c' = To c -> (Disabled c = true -> Disabled c' = true) ->
  grown_by g 0 0 h (mkHeap (nodes h) (<[p := c']> (conns h)) (genomes h)).
Proof.
  intros Hc Hf Ht Hd. split.
  - split; [done|]. cbn. rewrite length_insert. split; [done|]. split; [|done].
    intros q cq Hq. destruct (decide (p = q)) as [->|Hne].
    + exists c'. split; [apply list_lookup_insert_eq; by eapply lookup_lt_Some|].
      assert (cq = c) as -> by congruence. done.
    + exists cq. split; [by rewrite list_lookup_insert_ne|done].
  - intros gv Hgv. exists gv. repeat split; (done || lia).
Qed.

Lemma grown_by_set_genome (h : Heap) (gv gv' : Genome) (dn dc : nat) :
  genomes h !! g = Some gv ->
  GenomeID gv' = GenomeID gv ->
  NodeGenes gv `prefix_of` NodeGenes gv' ->
  ConnGenes gv `prefix_of` ConnGenes gv' ->
  (length (NodeGenes gv') <= length (NodeGenes gv) + dn)%nat ->
  (length (ConnGenes gv') <= length (ConnGenes gv) + dc)%nat ->
  grown_by g dn dc h (mkHeap (nodes h) (conns h) (<[g := gv']> (genomes h))).
Proof.
  intros Hgv Hid Hn Hc Hln Hlc. split.
  - split; [done|]. split; [done|]. split; [intros p c Hp; by exists c|].
    cbn. rewrite length_insert. split; [done|].
    intros g' Hg'. by apply list_lookup_insert_ne.
  - intros gv0 Hgv0. assert (gv0 = gv) as -> by congruence.
    exists gv'. split; [|done].
    cbn. apply list_lookup_insert_eq. by eapply lookup_lt_Some.
Qed.

(** [G a b s s']: from [s] to [s'] the genome grew by at most [a] nodes
    and [b] connections, and nothing else was lost. *)
Local Abbreviation G a b s s' := (grown_by g a b (heap s) (heap s')).

Lemma perturb_grows (rate : float) (l : list loc) (s : State) :
  wp (perturb rate l) s (fun _ s' => G 0 0 s s') (fun s' => G 0 0 s s').
Proof.
  apply (wp_for_each l _ s (fun s' => G 0%nat 0%nat s s')); [apply grown_by_refl|].
  intros conn s0 _ Hs0.
  apply wp_bind, wp_float64.
  destruct (PrimFloat.ltb _ _); [|by apply wp_ret].
  apply wp_bind, wp_normFloat64.
  apply wp_bind, wp_deref; [|done]. intros c Hc. cbn [heap] in Hc.
  apply wp_set_conn; [|done]. intros _. cbn [heap].
  apply (grown_by_trans 0 0 0 0 _ _ _ Hs0).
  by apply (grown_by_set_conn _ conn c).
Qed.

Lemma add_node_grows (rate : float) (s : State) :
  wp (add_node ActivationSet g rate) s (fun _ s' => G 1 2 s s') (fun s' => G 1 2 s s').
Proof.
  assert (H00 : forall h', grown_by g 0 0 (heap s) h' -> grown_by g 1 2 (heap s) h').
  { intros h'. apply grown_by_mono; lia. }
  assert (H10 : forall h', grown_by g 1 0 (heap s) h' -> grown_by g 1 2 (heap s) h').
  { intros h'. apply grown_by_mono; lia. }
  unfold add_node. apply wp_bind, wp_float64.
  destruct (PrimFloat.ltb _ _); [|apply wp_ret, H00, grown_by_refl].
  apply wp_bind, wp_deref; [|intros _; apply H00, grown_by_refl].
  intros gv Hgv. cbn [heap] in Hgv.
  destruct (negb _); [|apply wp_ret, H00, grown_by_refl].
  apply wp_bind, wp_intn; [|intros _; apply H00, grown_by_refl]. intros _ _.
  apply wp_bind, wp_index; [|intros _; apply H00, grown_by_refl].
  intros selected _.
  apply wp_bind. unfold NewNodeGene. apply wp_alloc_node. cbn [heap rand nodes conns genomes].
  set (newNode := length (nodes (heap s))).
  set (v := mkNodeGene _ _ _).
  assert (Ha : grown_by g 0 0 (heap s) (mkHeap (nodes (heap s) ++ [v]) (conns (heap s))
                                               (genomes (heap s)))).
  { pose proof (grown_by_alloc (heap s) [v] []) as H. by rewrite app_nil_r in H. }
  apply wp_bind, wp_set_genome; [|intros _; apply H00, Ha].
  intros Hlt. cbn [heap rand nodes conns genomes].
  set (gv1 := mkGenome (GenomeID gv) (NodeGenes gv ++ [newNode]) (ConnGenes gv)).
  pose (h4 := mkHeap (nodes (heap s) ++ [v]) (conns (heap s)) (<[g:=gv1]> (genomes (heap s)))).
  assert (H4 : grown_by g 1 0 (heap s) h4).
  { apply (grown_by_trans 0 0 1 0 _ _ _ Ha).
    apply (grown_by_set_genome
             (mkHeap (nodes (heap s) ++ [v]) (conns (heap s)) (genomes (heap s)))
             gv gv1); cbn; try done.
    - by apply prefix_app_r.
    - rewrite length_app. cbn. lia.
    - lia. }
  apply wp_bind, wp_deref; [|intros _; apply H10, H4]. intros sel Hsel.
  cbn [heap conns] in Hsel.
  apply wp_bind. unfold NewConnGene. apply wp_alloc_conn.
  apply wp_bind, wp_alloc_conn. cbn [heap rand nodes conns genomes].
  set (c1v := mkConnGene (From sel) newNode 1 false).
  set (c2v := mkConnGene newNode (To sel) (Weight sel) false).
  set (c1 := length (conns (heap s))).
  pose (h5 := mkHeap (nodes (heap s) ++ [v]) ((conns (heap s) ++ [c1v]) ++ [c2v])
                    (<[g:=gv1]> (genomes (heap s)))).
  assert (H5 : grown_by g 1 0 (heap s) h5).
  { apply (grown_by_trans 1 0 0 0 _ _ _ H4).
    pose proof (grown_by_alloc h4 [] [c1v; c2v]) as H.
    cbn in H. rewrite app_nil_r in H. unfold h5.
    by rewrite <- app_assoc. }
  assert (Hg5 : genomes h5 !! g = Some gv1).
  { cbn. by apply list_lookup_insert_eq. }
  apply wp_bind, wp_deref; [|intros _; apply H10, H5].
  intros gv' Hgv'. cbn [heap] in Hgv'.
  assert (gv' = gv1) as -> by (unfold h5 in Hg5; congruence).
  apply wp_bind, wp_set_genome; [|intros _; apply H10, H5].
  intros _. cbn [heap rand nodes conns genomes GenomeID NodeGenes ConnGenes gv1].
  set (gv2 := mkGenome _ _ _).
  pose (h6 := mkHeap (nodes (heap s) ++ [v]) ((conns (heap s) ++ [c1v]) ++ [c2v])
                     (<[g:=gv2]> (<[g:=gv1]> (genomes (heap s))))).
  assert (H6 : grown_by g 1 2 (heap s) h6).
  { apply (grown_by_trans 1 0 0 2 _ _ _ H5).
    apply (grown_by_set_genome h5 gv1 gv2); cbn; try done.
    - by apply prefix_app_r.
    - lia.
    - rewrite length_app. cbn. lia. }
  apply wp_bind, wp_deref; [|intros _; exact H6]. intros sel' Hsel'.
  cbn [heap] in Hsel'.
  apply wp_set_conn; [|intros _; exact H6]. intros _. cbn [heap].
  apply (grown_by_trans 1 2 0 0 _ _ _ H6).
  by apply (grown_by_set_conn h6 selected sel').
Qed.

Lemma add_conn_grows (rate : float) (s : State) :
  wp (add_conn g rate) s (fun _ s' => G 0 1 s s') (fun s' => G 0 1 s s').
Proof.
  assert (H00 : forall h', grown_by g 0 0 (heap s) h' -> grown_by g 0 1 (heap s) h').
  { intros h'. apply grown_by_mono; lia. }
  unfold add_conn. apply wp_bind, wp_float64.
  destruct (PrimFloat.ltb _ _); [|apply wp_ret, H00, grown_by_refl].
  apply wp_bind, wp_deref; [|intros _; apply H00, grown_by_refl].
  intros gv Hgv. cbn [heap] in Hgv.
  apply wp_bind, wp_intn; [|intros _; apply H00, grown_by_refl]. intros _ _.
  apply wp_bind, wp_index; [|intros _; apply H00, grown_by_refl]. intros n0 _.
  apply wp_bind, wp_intn; [|intros _; apply H00, grown_by_refl]. intros _ _.
  apply wp_bind, wp_index; [|intros _; apply H00, grown_by_refl]. intros n1 _.
  apply wp_bind.
  eapply wp_mono; [apply connected_readonly| |intros s' ->; apply H00, grown_by_refl].
  intros found s' ->. destruct found; [apply wp_ret, H00, grown_by_refl|].
  apply wp_bind, wp_normFloat64.
  apply wp_bind. unfold NewConnGene. apply wp_alloc_conn.
  cbn [heap nodes conns genomes rand].
  set (cv := mkConnGene _ _ _ _).
  assert (Ha : grown_by g 0 0 (heap s)
                 (mkHeap (nodes (heap s)) (conns (heap s) ++ [cv]) (genomes (heap s)))).
  { pose proof (grown_by_alloc (heap s) [] [cv]) as H. by rewrite app_nil_r in H. }
  apply wp_bind, wp_deref; [|intros _; apply H00, Ha].
  intros gv' Hgv'. cbn [heap genomes] in Hgv'.
  assert (gv' = gv) as -> by congruence.
  apply wp_set_genome; [|intros _; apply H00, Ha]. intros _.
  cbn [heap nodes conns genomes].
  apply (grown_by_trans 0 0 0 1 _ _ _ Ha).
  apply (grown_by_set_genome
           (mkHeap (nodes (heap s)) (conns (heap s) ++ [cv]) (genomes (heap s)))
           gv); cbn; try done.
  - by apply prefix_app_r.
  - lia.
  - rewrite length_app. cbn. lia.
Qed.

Lemma Mutate_grows (ratePerturb rateAddNode rateAddConn : float) (s : State) :
  wp (Mutate ActivationSet g ratePerturb rateAddNode rateAddConn) s
     (fun _ s' => G 1 3 s s') (fun s' => G 1 3 s s').
Proof.
  unfold Mutate.
  apply wp_bind, wp_deref;
    [|intros _; apply (grown_by_mono 0 0); [lia..|apply grown_by_refl]].
  intros gv _.
  apply wp_bind.
  eapply wp_mono; [apply perturb_grows| |intros s'; apply grown_by_mono; lia].
  intros [] s1 H1. apply wp_bind.
  eapply wp_mono; [apply add_node_grows| |].
  2: { intros s' H2. apply (grown_by_mono 1 2); [lia..|].
       exact (grown_by_trans 0 0 1 2 _ _ _ H1 H2). }
  intros [] s2 H2.
  eapply wp_mono; [apply add_conn_grows| |].
  - intros [] s3 H3.
    exact (grown_by_trans 1 2 0 1 _ _ _ (grown_by_trans 0 0 1 2 _ _ _ H1 H2) H3).
  - intros s3 H3.
    exact (grown_by_trans 1 2 0 1 _ _ _ (grown_by_trans 0 0 1 2 _ _ _ H1 H2) H3).
Qed.

Lemma Mutate_grows_final (ratePerturb rateAddNode rateAddConn : float) (s : State) :
  grown_by g 1 3 (heap s)
    (heap (final (Mutate ActivationSet g ratePerturb rateAddNode rateAddConn s))).
Proof.
  pose proof (Mutate_grows ratePerturb rateAddNode rateAddConn s) as Hwp.
  unfold wp in Hwp. by destruct (Mutate _ _ _ _ _ s).
Qed.

(** X1: One call of [Mutate] only adds.  For any rates, and whether the call
    returns or panics: every node object is as it was; every connection
    object has the ends it had and is still disabled if it was; every other
    genome is as it was; and the genome itself, if it was there, has its id,
    its node list extended by at most one node and its connection list
    extended by at most three connections. *)
Theorem Mutate_only_grows (ratePerturb rateAddNode rateAddConn : float)
    (s : State) :
  grown_by g 1 3 (heap s)
    (heap (final (Mutate ActivationSet g ratePerturb rateAddNode rateAddConn s))).
Proof. apply Mutate_grows_final. Qed.

(** ** What a mutation leaves alone *)

Lemma untouched_refl (l : list loc) (cs : list ConnGene) : untouched l cs cs.
Proof. by intros p c _ Hc. Qed.

Lemma untouched_trans (l : list loc) (cs1 cs2 cs3 : list ConnGene) :
  untouched l cs1 cs2 -> untouched l cs2 cs3 -> untouched l cs1 cs3.
Proof. intros H1 H2 p c Hp Hc. by apply H2, H1. Qed.

Lemma untouched_mono (l l' : list loc) (cs cs' : list ConnGene) :
  (forall p, p ∈ l -> p ∈ l') -> untouched l cs cs' -> untouched l' cs cs'.
Proof. intros Hl H p c Hp Hc. apply H; [|done]. intros Hin. by apply Hp, Hl. Qed.

Lemma untouched_alloc (l : list loc) (cs0 cs new : list ConnGene) :
  untouched l cs0 cs -> untouched l cs0 (cs ++ new).
Proof. intros H p c Hp Hc. apply lookup_app_l_Some. by apply H. Qed.

Lemma untouched_set_conn (l : list loc) (cs0 cs : list ConnGene) q cq :
  q ∈ l -> untouched l cs0 cs -> untouched l cs0 (<[q := cq]> cs).
Proof.
  intros Hq H p c Hp Hc.
  rewrite list_lookup_insert_ne by (intros ->; by apply Hp). by apply H.
Qed.

(** [U l s s']: from [s] to [s'] no connection object outside [l] changed. *)
Local Abbreviation U l s s' := (untouched l (conns (heap s)) (conns (heap s'))).

Lemma perturb_frame (rate : float) (l : list loc) (s : State) :
  wp (perturb rate l) s
     (fun _ s' => genomes (heap s') = genomes (heap s) /\ U l s s')
     (fun s' => genomes (heap s') = genomes (heap s) /\ U l s s').
Proof.
  apply (wp_for_each l _ s
           (fun s' => genomes (heap s') = genomes (heap s) /\ U l s s'));
    [split; [done|apply untouched_refl]|].
  intros conn s0 Hconn [Hgs Hs0].
  apply wp_bind, wp_float64.
  destruct (PrimFloat.ltb _ _); [|by apply wp_ret].
  apply wp_bind, wp_normFloat64.
  apply wp_bind, wp_deref; [|done]. intros c Hc.
  apply wp_set_conn; [|done]. intros _. cbn [heap rand nodes conns genomes].
  split; [done|]. by apply untouched_set_conn.
Qed.

Lemma add_node_frame (rate : float) (s : State) (gv : Genome) :
  genomes (heap s) !! g = Some gv ->
  wp (add_node ActivationSet g rate) s
     (fun _ s' => U (ConnGenes gv) s s') (fun s' => U (ConnGenes gv) s s').
Proof.
  intros Hg. unfold add_node. apply wp_bind, wp_float64.
  destruct (PrimFloat.ltb _ _); [|apply wp_ret, untouched_refl].
  apply wp_bind, wp_deref; [|intros _; apply untouched_refl].
  intros gv0 Hgv0. cbn [heap] in Hgv0. assert (gv0 = gv) as -> by congruence.
  destruct (negb _); [|apply wp_ret, untouched_refl].
  apply wp_bind, wp_intn; [|intros _; apply untouched_refl]. intros _ _.
  apply wp_bind, wp_index; [|intros _; apply untouched_refl].
  intros selected Hsel.
  assert (Hin : selected ∈ ConnGenes gv).
  { unfold at_index in Hsel. destruct (decide _); [|done].
    by eapply list_elem_of_lookup_2. }
  apply wp_bind. unfold NewNodeGene. apply wp_alloc_node.
  cbn [heap rand nodes conns genomes].
  apply wp_bind, wp_set_genome; [|intros _; apply untouched_refl].
  intros _. cbn [heap rand nodes conns genomes].
  apply wp_bind, wp_deref; [|intros _; apply untouched_refl].
  intros sel _.
  apply wp_bind. unfold NewConnGene. apply wp_alloc_conn.
  apply wp_bind, wp_alloc_conn. cbn [heap rand nodes conns genomes].
  rewrite <- app_assoc.
  apply wp_bind, wp_deref; [|intros _; apply untouched_alloc, untouched_refl].
  intros gv' _.
  apply wp_bind, wp_set_genome; [|intros _; apply untouched_alloc, untouched_refl].
  intros _. cbn [heap rand nodes conns genomes].
  apply wp_bind, wp_deref; [|intros _; apply untouched_alloc, untouched_refl].
  intros sel' _.
  apply wp_set_conn; [|intros _; apply untouched_alloc, untouched_refl].
  intros _. cbn [heap rand nodes conns genomes].
  apply untouched_set_conn; [done|]. apply untouched_alloc, untouched_refl.
Qed.

Lemma add_conn_frame (rate : float) (s : State) :
  wp (add_conn g rate) s (fun _ s' => U [] s s') (fun s' => U [] s s').
Proof.
  unfold add_conn. apply wp_bind, wp_float64.
  destruct (PrimFloat.ltb _ _); [|apply wp_ret, untouched_refl].
  apply wp_bind, wp_deref; [|intros _; apply untouched_refl].
  intros gv Hgv.
  apply wp_bind, wp_intn; [|intros _; apply untouched_refl]. intros _ _.
  apply wp_bind, wp_index; [|intros _; apply untouched_refl]. intros n0 _.
  apply wp_bind, wp_intn; [|intros _; apply untouched_refl]. intros _ _.
  apply wp_bind, wp_index; [|intros _; apply untouched_refl]. intros n1 _.
  apply wp_bind.
  eapply wp_mono; [apply connected_readonly| |intros s' ->; apply untouched_refl].
  intros found s' ->. destruct found; [apply wp_ret, untouched_refl|].
  apply wp_bind, wp_normFloat64.
  apply wp_bind. unfold NewConnGene. apply wp_alloc_conn.
  cbn [heap nodes conns genomes rand].
  apply wp_bind, wp_deref; [|intros _; apply untouched_alloc, untouched_refl].
  intros gv' _.
  apply wp_set_genome; [|intros _; apply untouched_alloc, untouched_refl].
  intros _. cbn [heap nodes conns genomes].
  apply untouched_alloc, untouched_refl.
Qed.

Lemma Mutate_frame (ratePerturb rateAddNode rateAddConn : float) (s : State)
    (gv : Genome) :
  genomes (heap s) !! g = Some gv ->
  untouched (ConnGenes gv) (conns (heap s))
    (conns (heap (final (Mutate ActivationSet g ratePerturb rateAddNode
                                rateAddConn s)))).
Proof.
  intros Hg.
  assert (Hwp : wp (Mutate ActivationSet g ratePerturb rateAddNode rateAddConn) s
                   (fun _ s' => U (ConnGenes gv) s s')
                   (fun s' => U (ConnGenes gv) s s')).
  { unfold Mutate.
    apply wp_bind, wp_deref; [|intros _; apply untouched_refl].
    intros gv0 Hgv0. assert (gv0 = gv) as -> by congruence.
    apply wp_bind.
    eapply wp_mono; [apply perturb_frame| |by intros s' [_ H]].
    intros [] s1 [Hgs H1]. apply wp_bind.
    assert (Hg1 : genomes (heap s1) !! g = Some gv) by (by rewrite Hgs).
    eapply wp_mono; [apply (add_node_frame rateAddNode s1 gv Hg1)| |].
    2: { intros s' H2. exact (untouched_trans _ _ _ _ H1 H2). }
    intros [] s2 H2.
    assert (H12 := untouched_trans _ _ _ _ H1 H2).
    eapply wp_mono; [apply add_conn_frame| |].
    - intros [] s3 H3. apply (untouched_trans _ _ _ _ H12).
      eapply untouched_mono; [|exact H3]. intros p Hp. by apply elem_of_nil in Hp.
    - intros s3 H3. apply (untouched_trans _ _ _ _ H12).
      eapply untouched_mono; [|exact H3]. intros p Hp. by apply elem_of_nil in Hp. }
  unfold wp in Hwp. by destruct (Mutate _ _ _ _ _ s).
Qed.

End Growth.

(** * [Mutate] and the invariants of the data model *)

Section Validity.

Context {RT : Runtime}.
Variable ActivationSet : gmap string loc.

Lemma same_genes_refl (h : Heap) : same_genes h h.
Proof. repeat split; try done. intros p c Hc. by exists c. Qed.

Lemma same_genes_trans (h1 h2 h3 : Heap) :
  same_genes h1 h2 -> same_genes h2 h3 -> same_genes h1 h3.
Proof.
  intros (Hn1 & Hg1 & Hl1 & Hc1) (Hn2 & Hg2 & Hl2 & Hc2).
  split; [congruence|]. split; [congruence|]. split; [congruence|].
  intros p c Hc. destruct (Hc1 p c Hc) as (c' & Hc' & Hf & Ht & Hd).
  destruct (Hc2 p c' Hc') as (c'' & Hc'' & Hf' & Ht' & Hd').
  exists c''. split; [done|]. split; [congruence|]. split; congruence.
Qed.

Lemma same_genes_key (h h' : Heap) (conn : loc) (k : Z * Z) :
  same_genes h h' -> conn_key h conn = Some k -> conn_key h' conn = Some k.
Proof.
  intros (Hn & _ & _ & Hc) Hk. unfold conn_key in *.
  destruct (conns h !! conn) as [c|] eqn:Ec; [|done].
  destruct (Hc conn c Ec) as (c' & -> & Hf & Ht & _). cbn in *.
  by rewrite Hn, Hf, Ht.
Qed.

Lemma same_genes_valid (h h' : Heap) (gv : Genome) :
  same_genes h h' -> valid_genome h gv -> valid_genome h' gv.
Proof.
  intros Hs [Hid Hown Huni]. pose proof Hs as (Hn & _ & _ & Hc).
  assert (Hkey : forall conn, conn ∈ ConnGenes gv ->
             conn_key h' conn = conn_key h conn).
  { intros conn Hconn.
    destruct (valid_key_range h gv conn Hid Hown Hconn) as (k & Hk & _).
    by rewrite Hk, (same_genes_key h h' conn k Hs Hk). }
  split.
  - intros i p Hi. rewrite Hn. by apply Hid.
  - intros conn Hconn. destruct (Hown conn Hconn) as (c & Hcv & Hf & Ht).
    destruct (Hc conn c Hcv) as (c' & Hc' & Hf' & Ht' & _).
    exists c'. by rewrite Hf', Ht'.
  - intros i j ci cj k Hi Hj Hki Hkj.
    rewrite Hkey in Hki by (by eapply list_elem_of_lookup_2).
    rewrite Hkey in Hkj by (by eapply list_elem_of_lookup_2).
    by eapply Huni.
Qed.

Lemma wp_for_each_inv {A} (l : list A) (body : A -> M unit) s
    (I : State -> Prop) (E : State -> Prop) :
  I s ->
  (forall x s0, x ∈ l -> I s0 -> wp (body x) s0 (fun _ s' => I s') E) ->
  wp (for_each l body) s (fun _ s' => I s') E.
Proof.
  revert s. induction l as [|x l IH]; intros s Hs Hbody; [done|].
  cbn [for_each]. apply wp_bind.
  eapply wp_mono; [apply Hbody; [apply list_elem_of_here|done]| |done].
  intros [] s' Hs'. apply IH; [done|].
  intros y s0 Hy. apply Hbody. by apply list_elem_of_further.
Qed.

Lemma wp_returns {A} (m : M A) (s : State) (Q : A -> State -> Prop) :
  wp m s Q (fun _ => False) -> exists a s', m s = Done a s' /\ Q a s'.
Proof. unfold wp. destruct (m s) as [a s'|s']; [by eauto|done]. Qed.

(** The perturbation loop, at any rate, returns when the connection genes
    are allocated, and changes weights only. *)
Lemma perturb_any (rate : float) (l : list loc) (s : State) :
  (forall conn, conn ∈ l -> is_Some (conns (heap s) !! conn)) ->
  exists s', perturb rate l s = Done tt s' /\ same_genes (heap s) (heap s').
Proof.
  intros Hal.
  destruct (wp_returns (perturb rate l) s
              (fun _ s' => same_genes (heap s) (heap s'))) as ([] & s' & Hrun & Hs');
    [|by exists s'].
  apply (wp_for_each_inv l _ s (fun s' => same_genes (heap s) (heap s')));
    [apply same_genes_refl|].
  intros conn s0 Hconn Hs0.
  apply wp_bind, wp_float64.
  destruct (PrimFloat.ltb _ _); [|by apply wp_ret].
  apply wp_bind, wp_normFloat64.
  destruct (Hal conn Hconn) as [c0 Hc0].
  destruct Hs0 as (Hn & Hg & Hl & Hc).
  destruct (Hc conn c0 Hc0) as (c & Hcv & Hf & Ht & Hd).
  apply wp_bind, wp_deref; [|cbn [heap]; congruence].
  intros c' Hc'. cbn [heap] in Hc'. assert (c' = c) as -> by congruence.
  apply wp_set_conn; [|intros Hlt; apply Hlt; by eapply lookup_lt_Some].
  intros Hlt. unfold same_genes. cbn [heap nodes conns genomes].
  split; [done|]. split; [done|]. split; [by rewrite length_insert|].
  intros p cp Hp. destruct (Hc p cp Hp) as (cp' & Hcp' & Hfp & Htp & Hdp).
  destruct (decide (conn = p)) as [->|Hne].
  - eexists. split; [by apply list_lookup_insert_eq|].
    assert (cp' = c) as -> by congruence. cbn.
    assert (cp = c0) as -> by congruence. done.
  - exists cp'. split; [by rewrite list_lookup_insert_ne|done].
Qed.

Lemma add_node_skips (g : loc) (rate : float) (s : State) :
  PrimFloat.ltb (Float64 (rand s)).1 rate = false ->
  add_node ActivationSet g rate s = Done tt (mkState (heap s) (Float64 (rand s)).2).
Proof.
  intros Hx. unfold add_node. by rewrite (bind_done float64 _ s _ _ eq_refl), Hx.
Qed.

Lemma add_node_rate (g : loc) (rate : float) (s : State) :
  PrimFloat.ltb (Float64 (rand s)).1 rate = true ->
  add_node ActivationSet g rate s = add_node ActivationSet g 1 s.
Proof.
  intros Hx. unfold add_node.
  by rewrite !(bind_done float64 _ s _ _ eq_refl), Hx, draw_below_one.
Qed.

Lemma add_node_no_conns (g : loc) (s : State) (gv : Genome) :
  genomes (heap s) !! g = Some gv -> ConnGenes gv = [] ->
  add_node ActivationSet g 1 s = Done tt (mkState (heap s) (Float64 (rand s)).2).
Proof.
  intros Hg Hc. unfold add_node.
  rewrite (bind_done float64 _ s _ _ eq_refl), draw_below_one.
  erewrite (bind_done (get_genome g)); [|by apply deref_done].
  by rewrite Hc.
Qed.

Lemma add_conn_skips (g : loc) (rate : float) (s : State) :
  PrimFloat.ltb (Float64 (rand s)).1 rate = false ->
  add_conn g rate s = Done tt (mkState (heap s) (Float64 (rand s)).2).
Proof.
  intros Hx. unfold add_conn. by rewrite (bind_done float64 _ s _ _ eq_refl), Hx.
Qed.

Lemma add_conn_rate (g : loc) (rate : float) (s : State) :
  PrimFloat.ltb (Float64 (rand s)).1 rate = true ->
  add_conn g rate s = add_conn g 1 s.
Proof.
  intros Hx. unfold add_conn.
  by rewrite !(bind_done float64 _ s _ _ eq_refl), Hx, draw_below_one.
Qed.

(** The heap the add-node step leaves keeps the genome valid. *)
Lemma valid_split (h : Heap) (g : loc) (gv : Genome) (selected : loc)
    (sel : ConnGene) :
  valid_genome h gv ->
  selected ∈ ConnGenes gv ->
  conns h !! selected = Some sel ->
  valid_genome (split_conn ActivationSet h g gv selected sel)
    (mkGenome (GenomeID gv) (NodeGenes gv ++ [length (nodes h)])
              (ConnGenes gv ++ [length (conns h); S (length (conns h))])).
Proof.
  intros [Hid Hown Huni] Hsel Hs.
  set (n := length (NodeGenes gv)).
  set (N := length (nodes h)). set (C := length (conns h)).
  remember (split_conn ActivationSet h g gv selected sel) as h' eqn:Eh'.
  assert (HselC : (selected < C)%nat) by (by eapply lookup_lt_Some).
  assert (Hnode : forall p v, nodes h !! p = Some v -> nodes h' !! p = Some v).
  { intros p v Hp. rewrite Eh'. cbn. by apply lookup_app_l_Some. }
  assert (Hnew : nodes h' !! N = Some (mkNodeGene (Z.of_nat n) "hidden"
                                                  (ActivationSet !! "sigmoid"))).
  { rewrite Eh'. cbn. by rewrite lookup_app_r, Nat.sub_diag. }
  assert (Hold : forall p c, conns h !! p = Some c ->
             exists c', conns h' !! p = Some c' /\
                        From c' = From c /\ To c' = To c).
  { intros p c Hp. rewrite Eh'. cbn [split_conn conns].
    destruct (decide (selected = p)) as [->|Hne].
    - eexists. split.
      + apply list_lookup_insert_eq. rewrite length_app. fold C. lia.
      + assert (c = sel) as -> by congruence. done.
    - exists c. split; [|done]. rewrite list_lookup_insert_ne by done.
      by apply lookup_app_l_Some. }
  assert (Hc1 : conns h' !! C = Some (mkConnGene (From sel) N 1 false)).
  { rewrite Eh'. cbn [split_conn conns]. rewrite list_lookup_insert_ne by lia.
    by rewrite lookup_app_r, Nat.sub_diag. }
  assert (Hc2 : conns h' !! S C = Some (mkConnGene N (To sel) (Weight sel) false)).
  { rewrite Eh'. cbn [split_conn conns]. rewrite list_lookup_insert_ne by lia.
    rewrite lookup_app_r by (fold C; lia). fold C.
    by replace (S C - C)%nat with 1%nat by lia. }
  destruct (Hown selected Hsel) as (sel0 & Hsel0 & Hfs & Hts).
  assert (sel0 = sel) as -> by congruence.
  assert (Hnode_id : forall p, p ∈ NodeGenes gv ->
             exists v, nodes h !! p = Some v /\ 0 <= ID v < Z.of_nat n).
  { intros p [i Hi]%list_elem_of_lookup. pose proof (Hid i p Hi) as Hv.
    destruct (nodes h !! p) as [v|]; [|done]. exists v. split; [done|].
    cbn in Hv. injection Hv as ->. apply lookup_lt_Some in Hi. fold n in Hi. lia. }
  assert (Hkey_old : forall conn k,
             conn ∈ ConnGenes gv -> conn_key h' conn = Some k ->
             conn_key h conn = Some k /\ k.1 < Z.of_nat n /\ k.2 < Z.of_nat n).
  { intros conn k Hconn Hk.
    destruct (valid_key_range h gv conn Hid Hown Hconn) as (k0 & Hk0 & H1 & H2).
    assert (Hk' : conn_key h' conn = Some k0).
    { unfold conn_key in Hk0 |- *.
      destruct (conns h !! conn) as [c|] eqn:Ec; [|done].
      destruct (Hold conn c Ec) as (c' & Hc' & Hf & Ht). rewrite Hc'.
      cbn in Hk0 |- *. rewrite Hf, Ht.
      destruct (nodes h !! From c) as [fv|] eqn:Ef; [|done]. cbn in Hk0.
      destruct (nodes h !! To c) as [tv|] eqn:Et; [|done].
      pose proof (Hnode _ _ Ef) as Ef'. pose proof (Hnode _ _ Et) as Et'.
      cbn in Ef', Et', Hk0. rewrite Ef'. cbn. by rewrite Et'. }
    assert (k0 = k) as -> by congruence. fold n in H1, H2. by repeat split; try lia. }
  assert (Hkey_c1 : forall k, conn_key h' C = Some k ->
             k.1 < Z.of_nat n /\ k.2 = Z.of_nat n).
  { intros k. unfold conn_key. rewrite Hc1. cbn.
    destruct (Hnode_id _ Hfs) as (fv & Hfv & Hr). rewrite (Hnode _ _ Hfv). cbn.
    rewrite Hnew. cbn. intros [= <-]. cbn. lia. }
  assert (Hkey_c2 : forall k, conn_key h' (S C) = Some k -> k.1 = Z.of_nat n).
  { intros k. unfold conn_key. rewrite Hc2. cbn. rewrite Hnew. cbn.
    destruct (Hnode_id _ Hts) as (tv & Htv & Hr). rewrite (Hnode _ _ Htv). cbn.
    by intros [= <-]. }
  split.
  - intros i p. cbn [NodeGenes]. intros [Hi|[Hi Hp]]%lookup_app_Some.
    + pose proof (Hid i p Hi) as Hv.
      destruct (nodes h !! p) as [v|] eqn:Ev; [|done]. by rewrite (Hnode _ _ Ev).
    + apply list_lookup_singleton_Some in Hp as [Hz <-]. rewrite Hnew. cbn.
      f_equal. fold n in Hi. lia.
  - intros conn. cbn [ConnGenes NodeGenes]. rewrite elem_of_app.
    intros [Hconn|Hconn].
    + destruct (Hown conn Hconn) as (c & Hc & Hf & Ht).
      destruct (Hold conn c Hc) as (c' & Hc' & Hf' & Ht').
      exists c'. split; [done|]. rewrite Hf', Ht', !elem_of_app. tauto.
    + apply elem_of_cons in Hconn as [->|Hconn];
        [|apply list_elem_of_singleton in Hconn as ->].
      * eexists. split; [exact Hc1|]. cbn. rewrite !elem_of_app.
        split; [by left|right; apply list_elem_of_here].
      * eexists. split; [exact Hc2|]. cbn. rewrite !elem_of_app.
        split; [right; apply list_elem_of_here|by left].
  - intros i j ci cj k. cbn [ConnGenes].
    intros Hi Hj Hki Hkj.
    assert (Hpos : forall i ci, [C; S C] !! i = Some ci ->
               (i = 0%nat /\ ci = C) \/ (i = 1%nat /\ ci = S C)).
    { intros [|[|i']] ci'; cbn; [intros [= <-]; by left|intros [= <-]; by right|done]. }
    apply lookup_app_Some in Hi as [Hi|[Hli Hi]];
      apply lookup_app_Some in Hj as [Hj|[Hlj Hj]].
    + destruct (Hkey_old ci k) as (Hki' & _); [by eapply list_elem_of_lookup_2|done|].
      destruct (Hkey_old cj k) as (Hkj' & _); [by eapply list_elem_of_lookup_2|done|].
      by eapply Huni.
    + exfalso.
      destruct (Hkey_old ci k) as (_ & H1 & H2); [by eapply list_elem_of_lookup_2|done|].
      destruct (Hpos _ _ Hj) as [[_ ->]|[_ ->]].
      * destruct (Hkey_c1 k Hkj). lia.
      * pose proof (Hkey_c2 k Hkj). lia.
    + exfalso.
      destruct (Hkey_old cj k) as (_ & H1 & H2); [by eapply list_elem_of_lookup_2|done|].
      destruct (Hpos _ _ Hi) as [[_ ->]|[_ ->]].
      * destruct (Hkey_c1 k Hki). lia.
      * pose proof (Hkey_c2 k Hki). lia.
    + destruct (Hpos _ _ Hi) as [[Ei ->]|[Ei ->]];
        destruct (Hpos _ _ Hj) as [[Ej ->]|[Ej ->]]; try lia.
      * exfalso. destruct (Hkey_c1 k Hki). pose proof (Hkey_c2 k Hkj). lia.
      * exfalso. destruct (Hkey_c1 k Hkj). pose proof (Hkey_c2 k Hki). lia.
Qed.

Lemma add_node_valid (g : loc) (rate : float) (s : State) (gv : Genome) :
  genomes (heap s) !! g = Some gv ->
  valid_genome (heap s) gv ->
  exists s' gv',
    add_node ActivationSet g rate s = Done tt s' /\
    genomes (heap s') !! g = Some gv' /\
    valid_genome (heap s') gv' /\
    (NodeGenes gv <> [] -> NodeGenes gv' <> []).
Proof.
  intros Hg Hv.
  destruct (PrimFloat.ltb (Float64 (rand s)).1 rate) eqn:Hd.
  2:{ rewrite (add_node_skips g rate s Hd). by exists (mkState (heap s) (Float64 (rand s)).2), gv. }
  rewrite (add_node_rate g rate s Hd).
  destruct (decide (ConnGenes gv = [])) as [Hc|Hc].
  { rewrite (add_node_no_conns g s gv Hg Hc).
    by exists (mkState (heap s) (Float64 (rand s)).2), gv. }
  set (r1 := (Float64 (rand s)).2).
  set (n := Z.of_nat (length (ConnGenes gv))).
  assert (Hn : 0 < n).
  { unfold n. destruct (ConnGenes gv); [done|cbn; lia]. }
  pose proof (Intn_pos_range n r1 Hn) as Hk.
  destruct (lookup_lt_is_Some_2 (ConnGenes gv) (Z.to_nat (Intn_pos n r1).1))
    as [selected Hsel]; [unfold n in *; lia|].
  destruct (valid_allocated _ _ Hv selected) as [sel Hs];
    [by eapply list_elem_of_lookup_2|].
  rewrite (add_node_fires ActivationSet g s gv selected sel Hg Hsel Hs).
  eexists _, _. split; [done|]. cbn [heap]. split; [|split].
  - cbn [split_conn genomes]. apply list_lookup_insert_eq.
    rewrite length_insert. by eapply lookup_lt_Some.
  - apply valid_split; [done| |done]. by eapply list_elem_of_lookup_2.
  - cbn. intros _. by destruct (NodeGenes gv).
Qed.

Lemma add_conn_valid (g : loc) (rate : float) (s : State) (gv : Genome) :
  genomes (heap s) !! g = Some gv ->
  valid_genome (heap s) gv ->
  NodeGenes gv <> [] ->
  exists s' gv',
    add_conn g rate s = Done tt s' /\
    genomes (heap s') !! g = Some gv' /\
    valid_genome (heap s') gv' /\
    NodeGenes gv' <> [].
Proof.
  intros Hg Hv Hn.
  destruct (PrimFloat.ltb (Float64 (rand s)).1 rate) eqn:Hd.
  2:{ rewrite (add_conn_skips g rate s Hd). by exists (mkState (heap s) (Float64 (rand s)).2), gv. }
  rewrite (add_conn_rate g rate s Hd).
  destruct (add_conn_one g s gv Hg Hn (valid_allocated _ _ Hv))
    as (n0 & n1 & Hn0 & Hn1 & ->).
  destruct (has_edge _ _ _ _) eqn:He; [by eexists _, gv|].
  eexists _, _. split; [done|]. split; [|split].
  - cbn [heap link_nodes genomes].
    apply list_lookup_insert_eq. by eapply lookup_lt_Some.
  - apply valid_link; [done| | |done]; by eapply list_elem_of_lookup_2.
  - done.
Qed.

(** One call of [Mutate] on a valid genome with a node. *)
Lemma Mutate_valid_step (g : loc) (ratePerturb rateAddNode rateAddConn : float)
    (s : State) :
  (exists gv, genomes (heap s) !! g = Some gv /\ valid_genome (heap s) gv /\
              NodeGenes gv <> []) ->
  exists s',
    Mutate ActivationSet g ratePerturb rateAddNode rateAddConn s = Done tt s' /\
    exists gv', genomes (heap s') !! g = Some gv' /\ valid_genome (heap s') gv' /\
                NodeGenes gv' <> [].
Proof.
  intros (gv & Hg & Hv & Hn). unfold Mutate.
  erewrite (bind_done (get_genome g)); [|by apply deref_done].
  destruct (perturb_any ratePerturb (ConnGenes gv) s (valid_allocated _ _ Hv))
    as (s1 & Hp & Hsame).
  rewrite (bind_done _ _ _ _ _ Hp).
  assert (Hg1 : genomes (heap s1) !! g = Some gv).
  { destruct Hsame as (_ & -> & _). done. }
  pose proof (same_genes_valid _ _ _ Hsame Hv) as Hv1.
  destruct (add_node_valid g rateAddNode s1 gv Hg1 Hv1)
    as (s2 & gv2 & Ha & Hg2 & Hv2 & Hn2).
  rewrite (bind_done _ _ _ _ _ Ha).
  destruct (add_conn_valid g rateAddConn s2 gv2 Hg2 Hv2 (Hn2 Hn))
    as (s3 & gv3 & Hc & Hg3 & Hv3 & Hn3).
  exists s3. split; [done|]. by exists gv3.
Qed.

(** X2: Whatever the three rates are, [Mutate] on a valid genome that has a node
    returns, and the genome it leaves is valid again: node ids are still the
    positions, every connection still joins two of the genome's own nodes,
    and no two connections share a pair of endpoint ids.  So any number of
    calls in a row return, and the genome is valid after them. *)
Theorem Mutate_keeps_valid (g : loc) (ratePerturb rateAddNode rateAddConn : float)
    (s : State) (gv : Genome) :
  genomes (heap s) !! g = Some gv ->
  valid_genome (heap s) gv ->
  NodeGenes gv <> [] ->
  (exists s' gv',
      Mutate ActivationSet g ratePerturb rateAddNode rateAddConn s = Done tt s' /\
      genomes (heap s') !! g = Some gv' /\
      valid_genome (heap s') gv') /\
  (forall n, exists s' gv',
      repeatM n (Mutate ActivationSet g ratePerturb rateAddNode rateAddConn) s
        = Done tt s' /\
      genomes (heap s') !! g = Some gv' /\
      valid_genome (heap s') gv').
Proof.
  intros Hg Hv Hn.
  assert (Hinv : exists gv, genomes (heap s) !! g = Some gv /\
                            valid_genome (heap s) gv /\ NodeGenes gv <> [])
    by eauto.
  clear gv Hg Hv Hn. split.
  - destruct (Mutate_valid_step g ratePerturb rateAddNode rateAddConn s Hinv)
      as (s' & Hrun & gv' & Hg' & Hv' & _).
    by exists s', gv'.
  - intros n. revert s Hinv. induction n as [|n IH]; intros s Hinv.
    + destruct Hinv as (gv & Hg & Hv & _). by exists s, gv.
    + destruct (Mutate_valid_step g ratePerturb rateAddNode rateAddConn s Hinv)
        as (s1 & Hrun & Hinv1).
      cbn [repeatM]. rewrite (bind_done _ _ _ _ _ Hrun). by apply IH.
Qed.

(** X3: The add-connection step links whatever pair of nodes it draws, unless
    the pair is linked already: it takes no account of the roles of the two
    nodes, and when the two draws pick the same node it adds a connection
    from that node to itself. *)
Theorem add_conn_any_pair (g : loc) (s : State) (gv : Genome) (n0 n1 : loc) :
  genomes (heap s) !! g = Some gv ->
  (forall conn, conn ∈ ConnGenes gv -> is_Some (conns (heap s) !! conn)) ->
  let n := Z.of_nat (length (NodeGenes gv)) in
  let r := (Float64 (Float64 (skip_floats (length (ConnGenes gv)) (rand s))).2).2 in
  NodeGenes gv !! Z.to_nat (Intn_pos n r).1 = Some n0 ->
  NodeGenes gv !! Z.to_nat (Intn_pos n (Intn_pos n r).2).1 = Some n1 ->
  has_edge (heap s) (ConnGenes gv) n0 n1 = false ->
  exists s' w,
    Mutate ActivationSet g 0 0 1 s = Done tt s' /\
    nodes (heap s') = nodes (heap s) /\
    conns (heap s') = conns (heap s) ++ [mkConnGene n0 n1 w false] /\
    genomes (heap s') !! g =
      Some (mkGenome (GenomeID gv) (NodeGenes gv)
                     (ConnGenes gv ++ [length (conns (heap s))])).
Proof.
  intros Hg Hal n r Hn0 Hn1 Hedge.
  rewrite (Mutate_add_conn_only ActivationSet g s gv Hg).
  set (s1 := mkState _ _).
  assert (Hne : NodeGenes gv <> []) by (intros E; by rewrite E in Hn0).
  destruct (add_conn_one g s1 gv Hg Hne Hal) as (m0 & m1 & Hm0 & Hm1 & ->).
  cbn [rand s1] in Hm0, Hm1. fold n r in Hm0, Hm1.
  assert (m0 = n0) as -> by congruence.
  assert (m1 = n1) as -> by congruence.
  cbn [heap s1]. rewrite Hedge.
  eexists _, _. split; [done|]. cbn [heap link_nodes nodes conns genomes].
  split; [done|]. split; [done|].
  apply list_lookup_insert_eq. by eapply lookup_lt_Some.
Qed.

(** X4: A genome without connections: the perturbation loop has nothing to do
    and the add-node step does not fire whatever its rate is, so [Mutate]
    either leaves every object as it was (also when the add-connection step
    panics on an empty node list), or adds one connection between two nodes
    of the genome. *)
Theorem Mutate_without_connections (g : loc)
    (ratePerturb rateAddNode rateAddConn : float) (s : State) (gv : Genome) :
  genomes (heap s) !! g = Some gv ->
  ConnGenes gv = [] ->
  let h' := heap (final (Mutate ActivationSet g ratePerturb rateAddNode
                                rateAddConn s)) in
  h' = heap s \/
  exists n0 n1 w, n0 ∈ NodeGenes gv /\ n1 ∈ NodeGenes gv /\
                  h' = link_nodes (heap s) g gv n0 n1 w.
Proof.
  intros Hg Hc h'. subst h'. unfold Mutate.
  rewrite (bind_done _ _ _ _ _ (deref_done genomes g s gv Hg)).
  rewrite Hc. cbn [perturb for_each].
  rewrite (bind_done _ _ _ _ _ (eq_refl : ret tt s = Done tt s)).
  assert (Hadd : add_node ActivationSet g rateAddNode s =
                 Done tt (mkState (heap s) (Float64 (rand s)).2)).
  { destruct (PrimFloat.ltb (Float64 (rand s)).1 rateAddNode) eqn:Hd.
    - rewrite (add_node_rate g rateAddNode s Hd). by apply (add_node_no_conns g s gv).
    - by apply add_node_skips. }
  rewrite (bind_done _ _ _ _ _ Hadd).
  set (s1 := mkState (heap s) (Float64 (rand s)).2).
  destruct (PrimFloat.ltb (Float64 (rand s1)).1 rateAddConn) eqn:Hd.
  2: { rewrite (add_conn_skips g rateAddConn s1 Hd). by left. }
  destruct (decide (NodeGenes gv = [])) as [Hn|Hn].
  { rewrite (add_conn_no_nodes g s1 gv rateAddConn Hg Hn Hd). by left. }
  rewrite (add_conn_rate g rateAddConn s1 Hd).
  destruct (add_conn_one g s1 gv Hg Hn) as (n0 & n1 & Hn0 & Hn1 & ->).
  { intros conn Hconn. rewrite Hc in Hconn. by apply elem_of_nil in Hconn. }
  rewrite Hc. cbn [has_edge existsb final heap s1].
  right. exists n0, n1. eexists.
  split; [by eapply list_elem_of_lookup_2|].
  split; [by eapply list_elem_of_lookup_2|done].
Qed.

End Validity.
(** * The loops of [NewGenome] *)

Section Layers.

Context {RT : Runtime}.
Variable ActivationSet : gmap string loc.
Variable literal_nodes : list loc.

(** X5: A negative count makes [NewGenome] panic at one of its two [make]
    calls, before anything is allocated. *)
Theorem NewGenome_negative_count (id numInputs numOutputs : Z) (s : State) :
  - 2 ^ 63 <= numInputs + numOutputs < 2 ^ 63 ->
  - 2 ^ 63 <= numInputs * numOutputs < 2 ^ 63 ->
  numInputs < 0 \/ numOutputs < 0 ->
  NewGenome ActivationSet literal_nodes id numInputs numOutputs s = Panicked s.
Proof.
  intros Hsum Hprod Hneg. unfold NewGenome. apply bind_panicked.
  unfold NewGenome_locals, make_cap. rewrite !wrap64_small by done.
  destruct (decide (numInputs + numOutputs < 0)) as [Hs|Hs]; [done|].
  rewrite (bind_done _ _ _ _ _ (eq_refl : ret tt s = Done tt s)).
  apply bind_panicked. rewrite decide_True by nia. done.
Qed.

(** ** What the loops build *)

Lemma input_fold (l : list Z) (acc : list loc) (s0 : State) :
  fold_each
    (fun nodeGenes i =>
       do inputNode <- NewNodeGene i "input" (ActivationSet !! "identity");
       ret (nodeGenes ++ [inputNode])) acc l s0
  = Done (acc ++ seq (length (nodes (heap s0))) (length l))
         (mkState (mkHeap (nodes (heap s0) ++
                           ((fun i => mkNodeGene i "input"
                                        (ActivationSet !! "identity")) <$> l))
                          (conns (heap s0)) (genomes (heap s0))) (rand s0)).
Proof.
  revert acc s0. induction l as [|i l IH]; intros acc s0.
  - cbn. rewrite !app_nil_r. by destruct s0 as [[] ?].
  - cbn [fold_each]. erewrite bind_done by reflexivity.
    rewrite IH. cbn [heap rand nodes conns genomes length seq fmap list_fmap].
    rewrite length_app, <- !app_assoc. cbn [length app].
    by rewrite Nat.add_1_r.
Qed.

Section Rows.

(** [a] input nodes from the address [N] on; connections from the address
    [C] on. *)
Variables a N C : nat.

Lemma wired_snoc (cs : list ConnGene) (c : ConnGene) (o j : nat) :
  (j < a)%nat ->
  length cs = (C + o * a + j)%nat ->
  From c = (N + j)%nat -> To c = (N + a + o)%nat -> Disabled c = false ->
  wired a N C cs -> wired a N C (cs ++ [c]).
Proof.
  intros Hj Hlen Hf Ht Hd Hw q c' Hq.
  apply lookup_app_Some in Hq as [Hq|[Hge Hq]]; [by apply Hw|].
  apply list_lookup_singleton_Some in Hq as [Hq <-].
  assert (q = (j + o * a)%nat) as -> by lia.
  rewrite Nat.Div0.mod_add, Nat.mod_small by done.
  rewrite Nat.div_add by lia. rewrite Nat.div_small by done.
  rewrite Hf, Ht. repeat split; (done || lia).
Qed.

Lemma inner_fold (nodeGenes' : list loc) (out : loc) (o : nat) (len : nat) :
  forall (j0 : nat) (connGenes : list loc) (s0 : State),
    (forall j, (j < a)%nat -> nodeGenes' !! j = Some (N + j)%nat) ->
    out = (N + a + o)%nat ->
    (j0 + len = a)%nat ->
    length (conns (heap s0)) = (C + o * a + j0)%nat ->
    wired a N C (conns (heap s0)) ->
    exists s1,
      fold_each
        (fun connGenes j =>
           do from <- index nodeGenes' j;
           do w <- normFloat64;
           do conn <- NewConnGene from out (PrimFloat.mul w 6);
           ret (connGenes ++ [conn]))
        connGenes (seqZ (Z.of_nat j0) (Z.of_nat len)) s0
      = Done (connGenes ++ seq (C + o * a + j0) len) s1 /\
      nodes (heap s1) = nodes (heap s0) /\
      genomes (heap s1) = genomes (heap s0) /\
      conns (heap s0) `prefix_of` conns (heap s1) /\
      length (conns (heap s1)) = (C + o * a + a)%nat /\
      wired a N C (conns (heap s1)).
Proof.
  induction len as [|len IH]; intros j0 connGenes s0 Hnodes Hout Hj Hlen Hw.
  - exists s0. rewrite seqZ_nil by lia. cbn [fold_each seq]. rewrite app_nil_r.
    split; [done|]. split; [done|]. split; [done|]. split; [done|]. split; [lia|done].
  - rewrite seqZ_cons by lia. cbn [fold_each].
    replace (Z.pred (Z.of_nat (S len))) with (Z.of_nat len) by lia.
    replace (Z.succ (Z.of_nat j0)) with (Z.of_nat (S j0)) by lia.
    set (c := mkConnGene (N + j0) out
                (PrimFloat.mul (NormFloat64 (rand s0)).1 6) false).
    set (s0' := mkState (mkHeap (nodes (heap s0)) (conns (heap s0) ++ [c])
                                (genomes (heap s0)))
                        (NormFloat64 (rand s0)).2).
    erewrite (bind_done _ _ s0 (connGenes ++ [length (conns (heap s0))]) s0').
    2: { erewrite (bind_done (index nodeGenes' (Z.of_nat j0)));
           [|apply index_done; [lia|rewrite Nat2Z.id; apply Hnodes; lia]].
         reflexivity. }
    destruct (IH (S j0) (connGenes ++ [length (conns (heap s0))]) s0')
      as (s1 & Hrun & Hn1 & Hg1 & Hp1 & Hl1 & Hw1); try done.
    + lia.
    + cbn [s0' heap conns]. rewrite length_app. cbn. lia.
    + cbn [s0' heap conns]. apply (wired_snoc _ c o j0); try done. lia.
    + exists s1. split; [|split; [done|split; [done|split; [|done]]]].
      * rewrite Hrun. f_equal. rewrite <- app_assoc. f_equal. cbn [app seq].
        rewrite Hlen. f_equal. f_equal. lia.
      * etrans; [|exact Hp1]. cbn [s0' heap conns]. by apply prefix_app_r.
Qed.

Lemma outer_fold (b : nat) (len : nat) :
  forall (o : nat) (s0 : State),
    (o + len = b)%nat ->
    length (nodes (heap s0)) = (N + a + o)%nat ->
    length (conns (heap s0)) = (C + o * a)%nat ->
    wired a N C (conns (heap s0)) ->
    exists s1,
      fold_each
        (fun '(nodeGenes, connGenes) i =>
           do outputNode <- NewNodeGene i "output" (ActivationSet !! "sigmoid");
           let nodeGenes' := nodeGenes ++ [outputNode] in
           do connGenes' <-
             fold_each
               (fun connGenes j =>
                  do from <- index nodeGenes' j;
                  do w <- normFloat64;
                  do conn <- NewConnGene from outputNode (PrimFloat.mul w 6);
                  ret (connGenes ++ [conn]))
               connGenes (seqZ 0 (Z.of_nat a));
           ret (nodeGenes', connGenes'))
        (seq N (a + o), seq C (o * a))
        (seqZ (Z.of_nat a + Z.of_nat o) (Z.of_nat len)) s0
      = Done (seq N (a + b), seq C (b * a)) s1 /\
      nodes (heap s1) =
        nodes (heap s0) ++
        ((fun i => mkNodeGene i "output" (ActivationSet !! "sigmoid"))
           <$> seqZ (Z.of_nat a + Z.of_nat o) (Z.of_nat len)) /\
      genomes (heap s1) = genomes (heap s0) /\
      conns (heap s0) `prefix_of` conns (heap s1) /\
      length (conns (heap s1)) = (C + b * a)%nat /\
      wired a N C (conns (heap s1)).
Proof.
  induction len as [|len IH]; intros o s0 Hb Hln Hlc Hw.
  - exists s0. rewrite (seqZ_nil (Z.of_nat a + Z.of_nat o) (Z.of_nat 0)) by lia.
    cbn [fold_each fmap list_fmap].
    rewrite app_nil_r. assert (o = b) as -> by lia.
    split; [done|]. split; [done|]. split; [done|]. split; [done|]. by split.
  - rewrite (seqZ_cons (Z.of_nat a + Z.of_nat o) (Z.of_nat (S len))) by lia.
    cbn [fold_each fmap list_fmap].
    replace (Z.pred (Z.of_nat (S len))) with (Z.of_nat len) by lia.
    replace (Z.succ (Z.of_nat a + Z.of_nat o))
      with (Z.of_nat a + Z.of_nat (S o)) by lia.
    set (v := mkNodeGene (Z.of_nat a + Z.of_nat o) "output"
                         (ActivationSet !! "sigmoid")).
    set (s0' := mkState (mkHeap (nodes (heap s0) ++ [v]) (conns (heap s0))
                                (genomes (heap s0))) (rand s0)).
    destruct (inner_fold (seq N (a + o) ++ [length (nodes (heap s0))])
                (length (nodes (heap s0))) o a 0%nat (seq C (o * a)) s0')
      as (s1 & Hrun & Hn1 & Hg1 & Hp1 & Hl1 & Hw1); try done.
    { intros j Hj. rewrite lookup_app_l by (rewrite length_seq; lia).
      apply lookup_seq. lia. }
    { cbn [s0' heap conns]. lia. }
    change (Z.of_nat 0) with 0 in Hrun.
    erewrite (bind_done _ _ s0
                (seq N (a + o) ++ [length (nodes (heap s0))],
                 seq C (o * a) ++ seq (C + o * a + 0) a) s1).
    2: { unfold NewNodeGene.
         erewrite (bind_done (alloc_node _)) by reflexivity.
         cbn zeta. fold v. fold s0'.
         by erewrite (bind_done _ _ s0' _ s1) by exact Hrun. }
    assert (E1 : seq N (a + o) ++ [length (nodes (heap s0))] = seq N (a + S o)).
    { rewrite Hln. replace (a + S o)%nat with (S (a + o)) by lia.
      rewrite seq_S. do 2 f_equal. lia. }
    assert (E2 : seq C (o * a) ++ seq (C + o * a + 0) a = seq C (S o * a)).
    { replace (S o * a)%nat with (o * a + a)%nat by lia.
      rewrite seq_app. do 2 f_equal. lia. }
    rewrite E1, E2.
    destruct (IH (S o) s1) as (s2 & Hrun2 & Hn2 & Hg2 & Hp2 & Hl2 & Hw2); try done.
    + lia.
    + rewrite Hn1. cbn [s0' heap nodes]. rewrite length_app. cbn. lia.
    + lia.
    + exists s2. split; [done|]. split; [|split; [|split; [|done]]].
      * rewrite Hn2, Hn1. cbn [s0' heap nodes]. by rewrite <- app_assoc.
      * by rewrite Hg2, Hg1.
      * etrans; [|exact Hp2]. exact Hp1.
Qed.

End Rows.

Lemma layer_nodes_lookup (a b i : nat) :
  (i < a + b)%nat ->
  layer_nodes ActivationSet (Z.of_nat a) (Z.of_nat b) !! i =
    Some (if decide (i < a)%nat
          then mkNodeGene (Z.of_nat i) "input" (ActivationSet !! "identity")
          else mkNodeGene (Z.of_nat i) "output" (ActivationSet !! "sigmoid")).
Proof.
  intros Hi. unfold layer_nodes. destruct (decide (i < a)%nat) as [Hlt|Hge].
  - rewrite lookup_app_l by (rewrite length_fmap, length_seqZ; lia).
    rewrite list_lookup_fmap, lookup_seqZ_lt by lia. cbn. do 2 f_equal.
  - rewrite lookup_app_r by (rewrite length_fmap, length_seqZ; lia).
    rewrite length_fmap, length_seqZ.
    rewrite list_lookup_fmap, lookup_seqZ_lt by lia. cbn. do 2 f_equal. lia.
Qed.

Lemma wired_key (h : Heap) (a b N C q : nat) :
  (forall i, (i < a + b)%nat -> ID <$> nodes h !! (N + i)%nat = Some (Z.of_nat i)) ->
  length (conns h) = (C + b * a)%nat ->
  wired a N C (conns h) ->
  (q < b * a)%nat ->
  (q mod a < a)%nat /\ (q / a < b)%nat /\
  exists c, conns h !! (C + q)%nat = Some c /\
            From c = (N + q mod a)%nat /\ To c = (N + a + q / a)%nat /\
            conn_key h (C + q)%nat
              = Some (Z.of_nat (q mod a), Z.of_nat (a + q / a)).
Proof.
  intros Hnodes Hlen Hw Hq.
  assert (Ha : a <> 0%nat) by lia.
  assert (Hm : (q mod a < a)%nat) by (by apply Nat.mod_upper_bound).
  assert (Hd : (q / a < b)%nat) by (apply Nat.Div0.div_lt_upper_bound; lia).
  split; [done|]. split; [done|].
  destruct (lookup_lt_is_Some_2 (conns h) (C + q)%nat) as [c Hc]; [lia|].
  destruct (Hw q c Hc) as (Hf & Ht & _).
  exists c. split; [done|]. split; [done|]. split; [done|].
  unfold conn_key. rewrite Hc. cbn. rewrite Hf, Ht.
  pose proof (Hnodes (q mod a)%nat ltac:(lia)) as H1.
  pose proof (Hnodes (a + q / a)%nat ltac:(lia)) as H2.
  rewrite Nat.add_assoc in H2.
  destruct (nodes h !! (N + q mod a)%nat) as [fv|]; [|done].
  destruct (nodes h !! (N + a + q / a)%nat) as [tv|]; [|done].
  cbn in *. by injection H1 as ->; injection H2 as ->.
Qed.

(** A store wired row by row is a valid genome over the node objects from
    [N] on. *)
Lemma wired_valid (h : Heap) (a b N C : nat) (id : Z) :
  (forall i, (i < a + b)%nat -> ID <$> nodes h !! (N + i)%nat = Some (Z.of_nat i)) ->
  length (conns h) = (C + b * a)%nat ->
  wired a N C (conns h) ->
  valid_genome h (mkGenome id (seq N (a + b)) (seq C (b * a))).
Proof.
  intros Hnodes Hlen Hw. split.
  - intros i p Hp. cbn [NodeGenes] in Hp. apply lookup_seq in Hp as [-> Hi].
    by apply Hnodes.
  - intros conn Hconn. cbn [ConnGenes NodeGenes] in Hconn |- *.
    apply elem_of_seq in Hconn.
    destruct (wired_key h a b N C (conn - C) Hnodes Hlen Hw)
      as (Hm & Hd & c & Hc & Hf & Ht & _); [lia|].
    replace (C + (conn - C))%nat with conn in Hc by lia.
    exists c. split; [done|]. rewrite Hf, Ht, !elem_of_seq. lia.
  - intros i j ci cj k Hi Hj Hki Hkj. cbn [ConnGenes] in Hi, Hj.
    apply lookup_seq in Hi as [-> Hi]. apply lookup_seq in Hj as [-> Hj].
    destruct (wired_key h a b N C i Hnodes Hlen Hw Hi) as (_ & _ & _ & _ & _ & _ & Ei).
    destruct (wired_key h a b N C j Hnodes Hlen Hw Hj) as (_ & _ & _ & _ & _ & _ & Ej).
    rewrite Ei in Hki. rewrite Ej in Hkj. rewrite <- Hkj in Hki.
    injection Hki as Hm Hd.
    assert (Ha : a <> 0%nat) by lia.
    rewrite (Nat.div_mod i a Ha), (Nat.div_mod j a Ha).
    assert (i mod a = j mod a)%nat as -> by lia.
    assert (i / a = j / a)%nat as -> by lia. done.
Qed.

Lemma NewGenome_locals_run (numInputs numOutputs : Z) (s : State) :
  0 <= numInputs -> 0 <= numOutputs ->
  numInputs + numOutputs < 2 ^ 63 -> numInputs * numOutputs < 2 ^ 63 ->
  let a := Z.to_nat numInputs in
  let b := Z.to_nat numOutputs in
  let N := length (nodes (heap s)) in
  let C := length (conns (heap s)) in
  exists s1,
    NewGenome_locals ActivationSet numInputs numOutputs s
      = Done (seq N (a + b), seq C (b * a)) s1 /\
    nodes (heap s1) = nodes (heap s) ++ layer_nodes ActivationSet numInputs numOutputs /\
    genomes (heap s1) = genomes (heap s) /\
    conns (heap s) `prefix_of` conns (heap s1) /\
    length (conns (heap s1)) = (C + b * a)%nat /\
    wired a N C (conns (heap s1)) /\
    forall id, valid_genome (heap s1) (mkGenome id (seq N (a + b)) (seq C (b * a))).
Proof.
  intros HnI HnO Hsum Hprod a b N C.
  assert (EI : numInputs = Z.of_nat a) by (unfold a; lia).
  assert (EO : numOutputs = Z.of_nat b) by (unfold b; lia).
  set (s_in := mkState (mkHeap (nodes (heap s) ++
                                ((fun i => mkNodeGene i "input"
                                             (ActivationSet !! "identity"))
                                   <$> seqZ 0 numInputs))
                               (conns (heap s)) (genomes (heap s))) (rand s)).
  assert (Hin : input_layer ActivationSet numInputs s = Done (seq N a) s_in).
  { unfold input_layer. rewrite input_fold. cbn [app]. rewrite length_seqZ. done. }
  destruct (outer_fold a N C b b 0%nat s_in) as (s1 & Hrun & Hn1 & Hg1 & Hp1 & Hl1 & Hw1).
  { lia. }
  { cbn [s_in heap nodes]. rewrite length_app, length_fmap, length_seqZ. lia. }
  { cbn [s_in heap conns]. lia. }
  { intros q c Hq. apply lookup_lt_Some in Hq. cbn [s_in heap conns] in Hq. lia. }
  rewrite Nat.add_0_r in Hrun. change (0 * a)%nat with 0%nat in Hrun.
  change (Z.of_nat 0) with 0 in Hrun, Hn1. rewrite Z.add_0_r in Hrun, Hn1.
  rewrite <- EI, <- EO in Hrun, Hn1.
  assert (Hnodes : nodes (heap s1) =
                   nodes (heap s) ++ layer_nodes ActivationSet numInputs numOutputs).
  { rewrite Hn1. cbn [s_in heap nodes]. by rewrite <- app_assoc. }
  exists s1. split; [|split; [done|split; [done|split; [done|split; [done|split; [done|]]]]]].
  - unfold NewGenome_locals, make_cap. rewrite !wrap64_small by nia.
    rewrite decide_False by lia.
    rewrite (bind_done _ _ _ _ _ (eq_refl : ret tt s = Done tt s)).
    rewrite decide_False by nia.
    rewrite (bind_done _ _ _ _ _ (eq_refl : ret tt s = Done tt s)).
    rewrite (bind_done _ _ _ _ _ Hin).
    unfold output_layer. rewrite wrap64_small by nia.
    replace (numInputs + numOutputs - numInputs) with numOutputs by lia.
    exact Hrun.
  - intros id. apply wired_valid; [|done|done].
    intros i Hi. rewrite Hnodes, lookup_app_r by (unfold N; lia).
    replace (N + i - length (nodes (heap s)))%nat with i by (unfold N; lia).
    rewrite EI, EO, layer_nodes_lookup by done.
    by destruct (decide (i < a)%nat).
Qed.

(** X6: The locals of [NewGenome] when its loops are over hold the fully
    connected network the function is documented to return: for counts that
    are not negative, within the range of [int], the loops return; the node
    list has the [numInputs + numOutputs] new node objects, the inputs
    first, each with its position as id; the connection list has the
    [numInputs * numOutputs] new connection objects, output by output, each
    enabled and from one input to that output; no object of the heap is
    changed; and the two lists form a valid genome. *)
Theorem NewGenome_locals_connected (numInputs numOutputs : Z) (s : State) :
  0 <= numInputs -> 0 <= numOutputs ->
  numInputs + numOutputs < 2 ^ 63 -> numInputs * numOutputs < 2 ^ 63 ->
  let a := Z.to_nat numInputs in
  let b := Z.to_nat numOutputs in
  let N := length (nodes (heap s)) in
  let C := length (conns (heap s)) in
  exists s1,
    NewGenome_locals ActivationSet numInputs numOutputs s
      = Done (seq N (a + b), seq C (b * a)) s1 /\
    nodes (heap s1) = nodes (heap s) ++ layer_nodes ActivationSet numInputs numOutputs /\
    genomes (heap s1) = genomes (heap s) /\
    conns (heap s) `prefix_of` conns (heap s1) /\
    length (conns (heap s1)) = (C + b * a)%nat /\
    wired a N C (conns (heap s1)) /\
    forall id, valid_genome (heap s1) (mkGenome id (seq N (a + b)) (seq C (b * a))).
Proof. apply NewGenome_locals_run. Qed.

End Layers.

(** * The textual rendering *)

Section Text.

Context {RT : Runtime}.
Variable ActivationSet : gmap string loc.
Variable ActivationName : loc -> string.
Variable Sprintf_3f : float -> string.

Lemma string_app_cons (c : Ascii.ascii) (s1 s2 : string) :
  String c s1 +:+ s2 = String c (s1 +:+ s2).
Proof. reflexivity. Qed.

Lemma string_app_assoc (s1 s2 s3 : string) :
  (s1 +:+ s2) +:+ s3 = s1 +:+ (s2 +:+ s3).
Proof.
  induction s1 as [|c s1 IH]; [done|]. by rewrite !string_app_cons, IH.
Qed.

Lemma string_app_nil_r (s1 : string) : s1 +:+ EmptyString = s1.
Proof.
  induction s1 as [|c s1 IH]; [done|]. by rewrite string_app_cons, IH.
Qed.

Lemma string_length_app (s1 s2 : string) :
  String.length (s1 +:+ s2) = (String.length s1 + String.length s2)%nat.
Proof.
  induction s1 as [|c s1 IH]; [done|]. rewrite string_app_cons. cbn. by rewrite IH.
Qed.

Lemma substring_app_l (s1 s2 : string) :
  String.substring 0 (String.length s1) (s1 +:+ s2) = s1.
Proof.
  induction s1 as [|c s1 IH]; [by destruct s2|].
  rewrite string_app_cons. cbn. by rewrite IH.
Qed.

(** Slicing off the last byte takes back a newline that was appended. *)
Lemma without_last_newline (str : string) :
  without_last_byte (str +:+ newline) = Some str.
Proof.
  unfold without_last_byte. rewrite string_length_app.
  change (String.length newline) with 1%nat.
  rewrite decide_False by lia.
  replace (String.length str + 1 - 1)%nat with (String.length str) by lia.
  by rewrite substring_app_l.
Qed.

(** The lines of [lines], each followed by a newline. *)
Lemma append_conns_lines (h : Heap) (str : string) (l : list loc) :
  append_conns ActivationName Sprintf_3f h str l =
    lines ← mapM (ConnGene_String ActivationName Sprintf_3f h) l;
    Some (str +:+ foldr (fun line rest => (line +:+ newline) +:+ rest)
                        EmptyString lines).
Proof.
  revert str. induction l as [|conn l IH]; intros str.
  - cbn. by rewrite string_app_nil_r.
  - cbn [append_conns mapM].
    destruct (ConnGene_String _ _ h conn) as [line|]; [|done]. cbn.
    rewrite IH.
    destruct (mapM _ l) as [lines|]; [|done]. cbn.
    by rewrite !string_app_assoc.
Qed.

Lemma concat_lines (x : string) (lines : list string) :
  (x +:+ newline) +:+ foldr (fun line rest => (line +:+ newline) +:+ rest)
                            EmptyString lines
  = String.concat newline (x :: lines) +:+ newline.
Proof.
  revert x. induction lines as [|l lines IH]; intros x.
  - cbn. by rewrite string_app_nil_r.
  - cbn [foldr]. rewrite IH.
    change (String.concat newline (x :: l :: lines))
      with (x +:+ newline +:+ String.concat newline (l :: lines)).
    by rewrite !string_app_assoc.
Qed.

Lemma Genome_String_eq (h : Heap) (g : loc) :
  Genome_String ActivationName Sprintf_3f h g =
    gv ← genomes h !! g;
    lines ← mapM (ConnGene_String ActivationName Sprintf_3f h) (ConnGenes gv);
    Some (String.concat newline
            (("Genome(" +:+ pretty (GenomeID gv) +:+ "):") :: lines)).
Proof.
  unfold Genome_String. destruct (genomes h !! g) as [gv|]; [|done].
  cbn [mbind option_bind]. rewrite append_conns_lines.
  destruct (mapM _ (ConnGenes gv)) as [lines|]; [|done].
  cbn [mbind option_bind].
  set (header := "Genome(" +:+ pretty (GenomeID gv) +:+ "):").
  replace ("Genome(" +:+ pretty (GenomeID gv) +:+ "):" +:+ newline)
    with (header +:+ newline) by (unfold header; by rewrite !string_app_assoc).
  rewrite concat_lines. apply without_last_newline.
Qed.

(** X7: [Genome.String] yields the header [Genome(id):] and the renderings of
    the connections, in the order of the connection list, joined by
    newlines: one line per connection and no newline at the end.  It
    panics exactly when the genome or one of its connections cannot be
    rendered. *)
Theorem Genome_String_lines (h : Heap) (g : loc) :
  Genome_String ActivationName Sprintf_3f h g =
    gv ← genomes h !! g;
    lines ← mapM (ConnGene_String ActivationName Sprintf_3f h) (ConnGenes gv);
    Some (String.concat newline
            (("Genome(" +:+ pretty (GenomeID gv) +:+ "):") :: lines)).
Proof. apply Genome_String_eq. Qed.

(** X8: A valid genome whose nodes all have an activation can be rendered. *)
Theorem Genome_String_renders (h : Heap) (g : loc) (gv : Genome) :
  genomes h !! g = Some gv ->
  id_as_index h gv -> endpoints_owned h gv ->
  (forall n v, n ∈ NodeGenes gv -> nodes h !! n = Some v -> is_Some (Activation v)) ->
  is_Some (Genome_String ActivationName Sprintf_3f h g).
Proof.
  intros Hg Hid Hown Hact. rewrite Genome_String_eq, Hg. cbn [mbind option_bind].
  assert (Hnode : forall n, n ∈ NodeGenes gv ->
             is_Some (NodeGene_String ActivationName h n)).
  { intros n Hn. pose proof Hn as [i Hi]%list_elem_of_lookup.
    pose proof (Hid i n Hi) as Hv. unfold NodeGene_String.
    destruct (nodes h !! n) as [v|] eqn:Ev; [|done].
    destruct (Hact n v Hn Ev) as [a Ha]. cbn. rewrite Ha. by eexists. }
  destruct (mapM_is_Some_2 (ConnGene_String ActivationName Sprintf_3f h) (ConnGenes gv))
    as [lines Hlines]; [|rewrite Hlines; by eexists].
  apply Forall_forall. intros conn Hconn. cbn.
  destruct (Hown conn Hconn) as (c & Hc & Hf & Ht).
  unfold ConnGene_String. rewrite Hc. cbn.
  destruct (Hnode _ Hf) as [from ->]. destruct (Hnode _ Ht) as [to ->]. by eexists.
Qed.

(** A connection into a node without activation cannot be rendered, and
    neither can a genome that has it, in any heap grown from this one. *)
Lemma unprintable_grown (g : loc) (dn dc : nat) (h2 h3 : Heap) (gv2 : Genome)
    (c1 : loc) (cv : ConnGene) (v : NodeGene) :
  grown_by g dn dc h2 h3 ->
  genomes h2 !! g = Some gv2 ->
  c1 ∈ ConnGenes gv2 ->
  conns h2 !! c1 = Some cv ->
  nodes h2 !! To cv = Some v ->
  Activation v = None ->
  Genome_String ActivationName Sprintf_3f h3 g = None.
Proof.
  intros [(Hn & _ & Hc & _) Hgen] Hg Hin Hcv Hv Hact.
  destruct (Hgen gv2 Hg) as (gv3 & Hg3 & _ & _ & [k Hk] & _).
  destruct (Hc c1 cv Hcv) as (c' & Hc' & _ & Ht & _).
  rewrite Genome_String_eq, Hg3. cbn [mbind option_bind].
  rewrite (mapM_None_2 (ConnGene_String ActivationName Sprintf_3f h3) (ConnGenes gv3));
    [done|].
  apply Exists_exists. exists c1. split; [rewrite Hk; apply elem_of_app; by left|].
  unfold ConnGene_String. rewrite Hc'. cbn [mbind option_bind].
  destruct (NodeGene_String ActivationName h3 (From c')) as [from|]; [|done].
  cbn [mbind option_bind]. unfold NodeGene_String. rewrite Ht.
  rewrite (prefix_lookup_Some _ _ _ _ Hv Hn). cbn. by rewrite Hact.
Qed.

(** X9: With no ["sigmoid"] entry in the registry, a call of [Mutate] whose
    add-node step fires leaves a genome that cannot be rendered: the new
    hidden node has no activation, and [Genome.String] panics on the first
    connection that touches it.  This holds whatever the other two rates
    are and whether the add-connection step returns or panics. *)
Theorem Mutate_unprintable (g : loc) (ratePerturb rateAddConn : float)
    (s : State) (gv : Genome) :
  ActivationSet !! "sigmoid" = None ->
  genomes (heap s) !! g = Some gv ->
  ConnGenes gv <> [] ->
  (forall conn, conn ∈ ConnGenes gv -> is_Some (conns (heap s) !! conn)) ->
  Genome_String ActivationName Sprintf_3f
    (heap (final (Mutate ActivationSet g ratePerturb 1 rateAddConn s))) g = None.
Proof.
  intros Hsig Hg Hne Hal. unfold Mutate.
  rewrite (bind_done _ _ _ _ _ (deref_done genomes g s gv Hg)).
  destruct (perturb_any ratePerturb (ConnGenes gv) s Hal) as (s1 & Hp & Hsame).
  rewrite (bind_done _ _ _ _ _ Hp).
  assert (Hg1 : genomes (heap s1) !! g = Some gv).
  { destruct Hsame as (_ & -> & _). done. }
  set (r1 := (Float64 (rand s1)).2).
  set (n := Z.of_nat (length (ConnGenes gv))).
  assert (Hn : 0 < n).
  { unfold n. destruct (ConnGenes gv); [done|cbn; lia]. }
  pose proof (Intn_pos_range n r1 Hn) as Hk.
  destruct (lookup_lt_is_Some_2 (ConnGenes gv) (Z.to_nat (Intn_pos n r1).1))
    as [selected Hsel]; [unfold n in *; lia|].
  assert (Hs : is_Some (conns (heap s1) !! selected)).
  { destruct (Hal selected) as [c Hc]; [by eapply list_elem_of_lookup_2|].
    destruct Hsame as (_ & _ & _ & Hcs). destruct (Hcs _ _ Hc) as (c' & Hc' & _).
    by exists c'. }
  destruct Hs as [sel Hs].
  rewrite (bind_done _ _ _ _ _
             (add_node_fires ActivationSet g s1 gv selected sel Hg1 Hsel Hs)).
  fold r1 n. set (s2 := mkState _ _).
  assert (Hlt : (selected < length (conns (heap s1)))%nat)
    by (by eapply lookup_lt_Some).
  pose proof (add_conn_grows g rateAddConn s2) as Hwp. unfold wp in Hwp.
  assert (Hgrown : grown_by g 0 1 (heap s2) (heap (final (add_conn g rateAddConn s2)))).
  { by destruct (add_conn g rateAddConn s2) as [[] s3|s3]. }
  apply (unprintable_grown g 0 1 (heap s2) _
           (mkGenome (GenomeID gv) (NodeGenes gv ++ [length (nodes (heap s1))])
                     (ConnGenes gv ++ [length (conns (heap s1));
                                       S (length (conns (heap s1)))]))
           (length (conns (heap s1)))
           (mkConnGene (From sel) (length (nodes (heap s1))) 1 false)
           (mkNodeGene (Z.of_nat (length (NodeGenes gv))) "hidden"
                       (ActivationSet !! "sigmoid")) Hgrown).
  - cbn [s2 heap split_conn genomes]. apply list_lookup_insert_eq.
    rewrite length_insert. by eapply lookup_lt_Some.
  - cbn [ConnGenes]. apply elem_of_app. right. apply list_elem_of_here.
  - cbn [s2 heap split_conn conns]. rewrite list_lookup_insert_ne by lia.
    by rewrite lookup_app_r, Nat.sub_diag.
  - cbn [s2 heap split_conn nodes To]. by rewrite lookup_app_r, Nat.sub_diag.
  - done.
Qed.

(** X10: The genome [NewGenome] returns renders as its header alone: it has
    none of the connections the loops built. *)
Theorem NewGenome_renders_header (literal_nodes : list loc)
    (id numInputs numOutputs : Z) (s : State) :
  0 <= numInputs -> 0 <= numOutputs ->
  numInputs + numOutputs < 2 ^ 63 -> numInputs * numOutputs < 2 ^ 63 ->
  exists g s',
    NewGenome ActivationSet literal_nodes id numInputs numOutputs s = Done g s' /\
    Genome_String ActivationName Sprintf_3f (heap s') g
      = Some ("Genome(" +:+ pretty id +:+ "):").
Proof.
  intros HnI HnO Hsum Hprod.
  destruct (NewGenome_locals_run ActivationSet numInputs numOutputs s
              HnI HnO Hsum Hprod) as (s1 & Hrun & _).
  eexists _, _. split.
  - unfold NewGenome. rewrite (bind_done _ _ _ _ _ Hrun). reflexivity.
  - rewrite Genome_String_eq. cbn [heap genomes].
    by rewrite lookup_app_r, Nat.sub_diag.
Qed.

(** X11: A nil genome: [Mutate], [Crossover] (as either parent) and
    [Genome.String] panic at once, and the state is as it was. *)
Theorem nil_genome_panics (g : loc) (s : State) :
  genomes (heap s) !! g = None ->
  (forall ratePerturb rateAddNode rateAddConn,
      Mutate ActivationSet g ratePerturb rateAddNode rateAddConn s = Panicked s) /\
  (forall id g1, Crossover id g g1 s = Panicked s) /\
  (forall id g0, Crossover id g0 g s = Panicked s) /\
  Genome_String ActivationName Sprintf_3f (heap s) g = None.
Proof.
  intros Hg. split; [|split; [|split]].
  - intros rp ra rc. unfold Mutate. apply bind_panicked. by apply deref_panicked.
  - intros id g1. unfold Crossover, innovations.
    apply bind_panicked, bind_panicked. by apply deref_panicked.
  - intros id g0. unfold Crossover, innovations. apply bind_panicked.
    destruct (genomes (heap s) !! g0) as [gv0|] eqn:Hg0.
    + rewrite (bind_done _ _ _ _ _ (deref_done genomes g0 s gv0 Hg0)).
      unfold record_genes. 
      pose proof (record_genes_run (ConnGenes gv0) ∅ s) as Hrec.
      destruct (keyed (heap s) (ConnGenes gv0)) as [genes|].
      * rewrite (bind_done _ _ _ _ _ Hrec). apply bind_panicked.
        by apply deref_panicked.
      * by apply bind_panicked.
    + apply bind_panicked. by apply deref_panicked.
  - unfold Genome_String. by rewrite Hg.
Qed.

End Text.

(** * The rates of [Mutate] *)

Section Rates.

Context {RT : Runtime}.
Variable ActivationSet : gmap string loc.

Lemma SFltb_leb_trans (x y z : spec_float) :
  SFltb x y = true -> SFleb y z = true -> SFltb x z = true.
Proof.
  unfold SFltb, SFleb, SFcompare.
  destruct x as [sx|sx| |sx mx ex], y as [sy|sy| |sy my ey], z as [sz|sz| |sz mz ez];
    try destruct sx; try destruct sy; try destruct sz; cbn; try congruence.
  all: destruct (Z.compare_spec ex ey); cbn; try congruence;
       destruct (Z.compare_spec ey ez); cbn; try congruence;
       destruct (Z.compare_spec ex ez); cbn; try congruence; try lia; subst.
  all: try rewrite !Pos.compare_cont_spec; cbn.
  all: try (destruct (Pos.compare_spec mx my); cbn; try congruence;
       destruct (Pos.compare_spec my mz); cbn; try congruence;
       destruct (Pos.compare_spec mx mz); cbn; try congruence; try lia; subst; try lia).
Qed.

Lemma SFleb_ltb_trans (x y z : spec_float) :
  SFleb x y = true -> SFltb y z = true -> SFltb x z = true.
Proof.
  unfold SFltb, SFleb, SFcompare.
  destruct x as [sx|sx| |sx mx ex], y as [sy|sy| |sy my ey], z as [sz|sz| |sz mz ez];
    try destruct sx; try destruct sy; try destruct sz; cbn; try congruence.
  all: destruct (Z.compare_spec ex ey); cbn; try congruence;
       destruct (Z.compare_spec ey ez); cbn; try congruence;
       destruct (Z.compare_spec ex ez); cbn; try congruence; try lia; subst.
  all: try rewrite !Pos.compare_cont_spec; cbn.
  all: try (destruct (Pos.compare_spec mx my); cbn; try congruence;
       destruct (Pos.compare_spec my mz); cbn; try congruence;
       destruct (Pos.compare_spec mx mz); cbn; try congruence; try lia; subst; try lia).
Qed.

(** A number in [[0,1)] is below a rate exactly when it is below the
    effective rate. *)
Lemma below_effective_rate (x r : float) :
  PrimFloat.leb 0 x = true -> PrimFloat.ltb x 1 = true ->
  PrimFloat.ltb x r = PrimFloat.ltb x (effective_rate r).
Proof.
  intros H0 H1. unfold effective_rate.
  destruct (PrimFloat.ltb 0 r) eqn:Hr.
  - destruct (PrimFloat.leb 1 r) eqn:Hr1; [|done].
    rewrite H1. rewrite ltb_spec in H1 |- *. rewrite leb_spec in Hr1.
    by eapply SFltb_leb_trans.
  - rewrite (nonneg_not_below_zero x H0).
    destruct (PrimFloat.ltb x r) eqn:Hx; [|done].
    rewrite ltb_spec in Hx, Hr. rewrite leb_spec in H0.
    by rewrite (SFleb_ltb_trans _ _ _ H0 Hx) in Hr.
Qed.

Lemma draw_effective_rate (r : float) (rs : Src) :
  PrimFloat.ltb (Float64 rs).1 r = PrimFloat.ltb (Float64 rs).1 (effective_rate r).
Proof. apply below_effective_rate; apply Float64_range. Qed.

Lemma for_each_ext {A} (l : list A) (f f' : A -> M unit) (s : State) :
  (forall x s0, f x s0 = f' x s0) -> for_each l f s = for_each l f' s.
Proof.
  intros H. revert s. induction l as [|x l IH]; intros s; [done|].
  cbn [for_each]. unfold bind. rewrite H. by destruct (f' x s).
Qed.

Lemma perturb_effective (rate : float) (l : list loc) (s : State) :
  perturb rate l s = perturb (effective_rate rate) l s.
Proof.
  apply for_each_ext. intros conn s0.
  by rewrite !(bind_done float64 _ s0 _ _ eq_refl), <- draw_effective_rate.
Qed.

Lemma add_node_effective (g : loc) (rate : float) (s : State) :
  add_node ActivationSet g rate s = add_node ActivationSet g (effective_rate rate) s.
Proof.
  unfold add_node.
  by rewrite !(bind_done float64 _ s _ _ eq_refl), <- draw_effective_rate.
Qed.

Lemma add_conn_effective (g : loc) (rate : float) (s : State) :
  add_conn g rate s = add_conn g (effective_rate rate) s.
Proof.
  unfold add_conn.
  by rewrite !(bind_done float64 _ s _ _ eq_refl), <- draw_effective_rate.
Qed.

Lemma Mutate_effective (g : loc)
    (ratePerturb rateAddNode rateAddConn : float) (s : State) :
  Mutate ActivationSet g ratePerturb rateAddNode rateAddConn s =
  Mutate ActivationSet g (effective_rate ratePerturb) (effective_rate rateAddNode)
         (effective_rate rateAddConn) s.
Proof.
  unfold Mutate.
  destruct (get_genome g s) as [gv s0|s0] eqn:E0;
    [|by rewrite !(bind_panicked _ _ _ _ E0)].
  rewrite !(bind_done _ _ _ _ _ E0).
  destruct (perturb ratePerturb (ConnGenes gv) s0) as [[] s1|s1] eqn:E1.
  2: { rewrite (bind_panicked _ _ _ _ E1). rewrite perturb_effective in E1.
       by rewrite (bind_panicked _ _ _ _ E1). }
  rewrite (bind_done _ _ _ _ _ E1). rewrite perturb_effective in E1.
  rewrite (bind_done _ _ _ _ _ E1).
  destruct (add_node ActivationSet g rateAddNode s1) as [[] s2|s2] eqn:E2.
  2: { rewrite (bind_panicked _ _ _ _ E2). rewrite add_node_effective in E2.
       by rewrite (bind_panicked _ _ _ _ E2). }
  rewrite (bind_done _ _ _ _ _ E2). rewrite add_node_effective in E2.
  rewrite (bind_done _ _ _ _ _ E2).
  apply add_conn_effective.
Qed.

(** X12: Only the part of a rate between 0 and 1 matters to [Mutate]: a rate
    that is zero, negative or not a number acts as 0 (the step never
    fires), and a rate of 1 or more, infinite or not, acts as 1 (the step
    always fires). *)
Theorem Mutate_effective_rates (g : loc)
    (ratePerturb rateAddNode rateAddConn : float) (s : State) :
  Mutate ActivationSet g ratePerturb rateAddNode rateAddConn s =
  Mutate ActivationSet g (effective_rate ratePerturb) (effective_rate rateAddNode)
         (effective_rate rateAddConn) s.
Proof. apply Mutate_effective. Qed.

(** X13: Rates that are not above 0 switch [Mutate] off: with three such rates
    (zero, negative or not a number) the call returns, no object has
    changed, and one uniform number was drawn per connection and two more. *)
Theorem Mutate_rates_off (g : loc) (ratePerturb rateAddNode rateAddConn : float)
    (s : State) (gv : Genome) :
  genomes (heap s) !! g = Some gv ->
  PrimFloat.ltb 0 ratePerturb = false ->
  PrimFloat.ltb 0 rateAddNode = false ->
  PrimFloat.ltb 0 rateAddConn = false ->
  Mutate ActivationSet g ratePerturb rateAddNode rateAddConn s =
    Done tt (mkState (heap s)
               (skip_floats (2 + length (ConnGenes gv)) (rand s))).
Proof.
  intros Hg Hp Hn Hc.
  assert (Hoff : forall r, PrimFloat.ltb 0 r = false -> effective_rate r = 0%float).
  { intros r Hr. unfold effective_rate. by rewrite Hr. }
  rewrite Mutate_effective, (Hoff _ Hp), (Hoff _ Hn), (Hoff _ Hc).
  unfold Mutate.
  rewrite (bind_done _ _ _ _ _ (deref_done genomes g s gv Hg)).
  rewrite (bind_done _ _ _ _ _ (perturb_zero _ _)).
  rewrite (bind_done _ _ _ _ _ (add_node_zero _ _ _)).
  rewrite add_conn_zero.
  cbn [heap rand]. do 2 f_equal.
  generalize (rand s). induction (length (ConnGenes gv)) as [|n IH]; intros r; [done|].
  cbn [skip_floats Nat.add] in IH |- *. by rewrite IH.
Qed.

End Rates.

(** * Genomes side by side *)

Section Isolation.

Context {RT : Runtime}.
Variable ActivationSet : gmap string loc.

Lemma conn_key_frame (h h' : Heap) (conn : loc) (k : Z * Z) :
  nodes h `prefix_of` nodes h' ->
  (forall c, conns h !! conn = Some c -> conns h' !! conn = Some c) ->
  conn_key h conn = Some k -> conn_key h' conn = Some k.
Proof.
  intros Hn Hc. unfold conn_key.
  destruct (conns h !! conn) as [c|] eqn:Ec; [|done].
  rewrite (Hc c eq_refl). cbn.
  destruct (nodes h !! From c) as [fv|] eqn:Ef; [|done].
  rewrite (prefix_lookup_Some _ _ _ _ Ef Hn). cbn.
  destruct (nodes h !! To c) as [tv|] eqn:Et; [|done].
  by rewrite (prefix_lookup_Some _ _ _ _ Et Hn).
Qed.

Lemma conn_tuple_frame (h h' : Heap) (conn : loc) (t : Z * Z * float * bool) :
  nodes h `prefix_of` nodes h' ->
  (forall c, conns h !! conn = Some c -> conns h' !! conn = Some c) ->
  conn_tuple h conn = Some t -> conn_tuple h' conn = Some t.
Proof.
  intros Hn Hc. unfold conn_tuple.
  pose proof (fun k => conn_key_frame h h' conn k Hn Hc) as Hk.
  destruct (conns h !! conn) as [c|] eqn:Ec; [|done].
  rewrite (Hc c eq_refl). cbn.
  destruct (conn_key h conn) as [k|] eqn:Ek; [|done].
  by rewrite (Hk k eq_refl).
Qed.

(** A valid genome is still valid in a heap that kept the node objects and
    the genome's own connection objects. *)
Lemma valid_frame (h h' : Heap) (gv : Genome) :
  nodes h `prefix_of` nodes h' ->
  (forall conn c, conn ∈ ConnGenes gv ->
     conns h !! conn = Some c -> conns h' !! conn = Some c) ->
  valid_genome h gv -> valid_genome h' gv.
Proof.
  intros Hn Hc [Hid Hown Huni]. split.
  - by eapply id_as_index_grow.
  - intros conn Hconn. destruct (Hown conn Hconn) as (c & Hcc & Hf & Ht).
    exists c. split; [by apply Hc|done].
  - intros i j ci cj k Hi Hj Hki Hkj.
    assert (Hback : forall conn, conn ∈ ConnGenes gv ->
               conn_key h' conn = Some k -> conn_key h conn = Some k).
    { intros conn Hconn Hk.
      destruct (valid_key_range h gv conn Hid Hown Hconn) as (k0 & Hk0 & _).
      pose proof (conn_key_frame h h' conn k0 Hn (fun c => Hc conn c Hconn) Hk0).
      congruence. }
    apply (Huni i j ci cj k Hi Hj).
    + apply Hback; [by eapply list_elem_of_lookup_2|done].
    + apply Hback; [by eapply list_elem_of_lookup_2|done].
Qed.

(** X14: [Mutate] of one genome leaves every other genome alone, for any rates
    and on every outcome: a genome that shares no connection object with the
    mutated one has the node and connection lists it had, every one of its
    connection objects is as it was (ends, weight and flag), it reads the
    same tuples, and it is still valid if it was. *)
Theorem Mutate_leaves_others (g g' : loc)
    (ratePerturb rateAddNode rateAddConn : float) (s : State) (gv gv' : Genome) :
  genomes (heap s) !! g = Some gv ->
  genomes (heap s) !! g' = Some gv' ->
  g' <> g ->
  (forall conn, conn ∈ ConnGenes gv' -> conn ∉ ConnGenes gv) ->
  let h' := heap (final (Mutate ActivationSet g ratePerturb rateAddNode
                                rateAddConn s)) in
  genomes h' !! g' = Some gv' /\
  (forall conn c, conn ∈ ConnGenes gv' ->
     conns (heap s) !! conn = Some c -> conns h' !! conn = Some c) /\
  (forall conn t, conn ∈ ConnGenes gv' ->
     conn_tuple (heap s) conn = Some t -> conn_tuple h' conn = Some t) /\
  (valid_genome (heap s) gv' -> valid_genome h' gv').
Proof.
  intros Hg Hg' Hne Hdisj h'.
  pose proof (Mutate_grows_final ActivationSet g ratePerturb rateAddNode
                rateAddConn s) as [(Hn & _ & _ & _ & Hother) _].
  pose proof (Mutate_frame ActivationSet g ratePerturb rateAddNode rateAddConn
                s gv Hg) as Hframe.
  fold h' in Hn, Hother, Hframe.
  assert (Hc : forall conn c, conn ∈ ConnGenes gv' ->
             conns (heap s) !! conn = Some c -> conns h' !! conn = Some c).
  { intros conn c Hconn. apply Hframe. by apply Hdisj. }
  split; [by rewrite Hother|]. split; [done|]. split.
  - intros conn t Hconn. apply conn_tuple_frame; [done|]. intros c. by apply Hc.
  - by apply valid_frame.
Qed.

End Isolation.

(** * Further properties of [Crossover] *)

Section Offspring.

Context {RT : Runtime}.

(** The genome a returning [Crossover] leaves is valid as soon as the
    larger parent has its ids as positions: the keys of its connections
    are the keys of the alignment map, each once. *)
Lemma crossover_done_valid (s : State) (id : Z) (g0 g1 : loc) (child : loc)
    (s' : State) (gv0 gv1 : Genome) :
  crossover_done s id g0 g1 child s' ->
  genomes (heap s) !! g0 = Some gv0 ->
  genomes (heap s) !! g1 = Some gv1 ->
  id_as_index (heap s) (largerParent gv0 gv1) ->
  exists cv, genomes (heap s') !! child = Some cv /\ GenomeID cv = id /\
             valid_genome (heap s') cv.
Proof.
  intros (gv0' & gv1' & genes0 & genes1 & vals & cvals & Hin & Hspec) Hg0 Hg1 Hid.
  destruct (innov_input_Some _ _ _ _ _ _ _ Hin) as (Hg0' & Hg1' & Hk0 & Hk1).
  assert (gv0' = gv0) as -> by congruence.
  assert (gv1' = gv1) as -> by congruence.
  cbn zeta in Hspec.
  set (al := alignment_spec genes0 genes1 (rand s)) in *.
  set (m := al.1) in *.
  set (order := (range_order m al.2).1) in *.
  destruct Hspec as (-> & -> & Hvals & Hcvals).
  assert (Hperm : order ≡ₚ map_to_list m) by apply range_order_perm.
  assert (Hnodup : NoDup order.*1).
  { rewrite Hperm. apply NoDup_fst_map_to_list. }
  set (N := length (nodes (heap s))) in *.
  set (C := length (conns (heap s))) in *.
  set (n := length (NodeGenes (largerParent gv0 gv1))) in *.
  set (cv := mkGenome id (seq N n) (seq C (length order))).
  set (h' := mkHeap (nodes (heap s) ++ vals) (conns (heap s) ++ cvals)
                    (genomes (heap s) ++ [cv])).
  assert (Hentry : forall j k conn,
             order !! j = Some (k, conn) ->
             exists c', conns h' !! (C + j)%nat = Some c' /\
                        From c' ∈ seq N n /\ To c' ∈ seq N n /\
                        conn_key h' (C + j)%nat = Some k).
  { intros j k conn Hj.
    destruct (Forall2_lookup_l _ _ _ _ _ Hcvals Hj) as (c' & Hc' & Hcopy).
    cbn [snd] in Hcopy.
    assert (Hm : m !! k = Some conn).
    { apply elem_of_map_to_list. rewrite <- Hperm. by eapply list_elem_of_lookup_2. }
    assert (Hkey : conn_key (heap s) conn = Some k).
    { apply alignment_entries in Hm as [Hin0|Hin1].
      - by destruct (keyed_elem _ _ _ _ _ Hk0 Hin0).
      - by destruct (keyed_elem _ _ _ _ _ Hk1 Hin1). }
    destruct (copied_conn_key _ _ _ _ _ _ _ _ Hkey Hcopy)
      as (c & Hc & Hf & Ht & Hw & Hd).
    pose proof (child_node_id _ _ _ _ _ Hid Hvals Hf) as Hfid.
    pose proof (child_node_id _ _ _ _ _ Hid Hvals Ht) as Htid.
    assert (Hp : conns h' !! (C + j)%nat = Some c').
    { cbn [h' conns]. rewrite lookup_app_r by (unfold C; lia).
      by replace (C + j - length (conns (heap s)))%nat with j by (unfold C; lia). }
    exists c'. split; [done|].
    assert (Hin_seq : forall a q, at_index (seq N n) a = Some q -> q ∈ seq N n).
    { intros a q. unfold at_index. destruct (decide (0 <= a)); [|done].
      apply list_elem_of_lookup_2. }
    split; [by eapply Hin_seq|]. split; [by eapply Hin_seq|].
    unfold conn_key. rewrite Hp. cbn [h' nodes mbind option_bind].
    destruct ((nodes (heap s) ++ vals) !! From c') as [fv|]; [|done].
    destruct ((nodes (heap s) ++ vals) !! To c') as [tv|]; [|done].
    cbn in *. injection Hfid as ->. injection Htid as ->. by destruct k. }
  exists cv. split; [cbn [heap h' genomes]; by rewrite lookup_app_r, Nat.sub_diag|].
  split; [done|]. cbn [heap]. fold cv. fold h'. split.
  - intros i p Hp. cbn [cv NodeGenes] in Hp.
    apply lookup_seq in Hp as [-> Hi].
    apply (child_node_id (heap s) (largerParent gv0 gv1) vals (Z.of_nat i)
             (N + i)%nat Hid Hvals).
    unfold at_index. rewrite decide_True by lia. rewrite Nat2Z.id.
    by apply lookup_seq.
  - intros p Hp. cbn [cv ConnGenes NodeGenes] in Hp |- *.
    apply elem_of_seq in Hp.
    destruct (lookup_lt_is_Some_2 order (p - C)%nat) as [[k conn] Hj]; [lia|].
    destruct (Hentry _ _ _ Hj) as (c' & Hc' & Hf & Ht & _).
    replace (C + (p - C))%nat with p in Hc' by lia. by exists c'.
  - intros i j ci cj k Hi Hj Hki Hkj. cbn [cv ConnGenes] in Hi, Hj.
    apply lookup_seq in Hi as [-> Hi]. apply lookup_seq in Hj as [-> Hj].
    destruct (lookup_lt_is_Some_2 order i) as [[ki conni] Hoi]; [done|].
    destruct (lookup_lt_is_Some_2 order j) as [[kj connj] Hoj]; [done|].
    destruct (Hentry _ _ _ Hoi) as (_ & _ & _ & _ & Hki').
    destruct (Hentry _ _ _ Hoj) as (_ & _ & _ & _ & Hkj').
    assert (ki = k) as -> by congruence. assert (kj = k) as -> by congruence.
    apply (NoDup_lookup _ i j k Hnodup); rewrite list_lookup_fmap.
    + by rewrite Hoi.
    + by rewrite Hoj.
Qed.

(** X15: [Crossover] of two parents whose ids are positions and whose connections
    join their own nodes returns, and the child is a valid genome with the
    requested id: its node ids are the positions, its connections join its
    own nodes, and no two of them share a pair of endpoint ids, also when a
    parent had such a pair twice. *)
Theorem Crossover_child_valid (id : Z) (g0 g1 : loc) (s : State) (gv0 gv1 : Genome) :
  genomes (heap s) !! g0 = Some gv0 ->
  genomes (heap s) !! g1 = Some gv1 ->
  id_as_index (heap s) gv0 -> endpoints_owned (heap s) gv0 ->
  id_as_index (heap s) gv1 -> endpoints_owned (heap s) gv1 ->
  exists child s' cv,
    Crossover id g0 g1 s = Done child s' /\
    genomes (heap s') !! child = Some cv /\
    GenomeID cv = id /\
    valid_genome (heap s') cv.
Proof.
  intros Hg0 Hg1 Hid0 Hown0 Hid1 Hown1.
  destruct (Crossover_total id g0 g1 s gv0 gv1 Hg0 Hg1 Hid0 Hown0 Hid1 Hown1)
    as (child & s' & Hrun).
  pose proof (Crossover_spec id g0 g1 s) as Hspec. unfold wp in Hspec.
  rewrite Hrun in Hspec.
  assert (Hid : id_as_index (heap s) (largerParent gv0 gv1)).
  { by destruct (largerParent_cases gv0 gv1) as ([->| ->] & _). }
  destruct (crossover_done_valid s id g0 g1 child s' gv0 gv1 Hspec Hg0 Hg1 Hid)
    as (cv & Hcv & Hcid & Hvalid).
  by exists child, s', cv.
Qed.

Lemma alignment_dom (genes0 genes1 : list ((Z * Z) * loc)) (r : Src) k :
  k ∈ genes0.*1 \/ k ∈ genes1.*1 ->
  is_Some ((alignment_spec genes0 genes1 r).1 !! k).
Proof.
  intros [H0|H1]; apply align_spec_dom; [left|by right].
  apply foldl_insert_dom. by right.
Qed.

(** X16: The child has the genes of its parents and no others: every connection
    of the child carries the tuple (from id, to id, weight, disabled) of a
    connection of one of the parents, and every pair of endpoint ids a
    parent connects is connected in the child. *)
Theorem Crossover_child_genes (id : Z) (g0 g1 : loc) (s : State) (gv0 gv1 : Genome) :
  genomes (heap s) !! g0 = Some gv0 ->
  genomes (heap s) !! g1 = Some gv1 ->
  id_as_index (heap s) gv0 -> endpoints_owned (heap s) gv0 ->
  id_as_index (heap s) gv1 -> endpoints_owned (heap s) gv1 ->
  exists child s' cv,
    Crossover id g0 g1 s = Done child s' /\
    genomes (heap s') !! child = Some cv /\
    (forall p, p ∈ ConnGenes cv ->
       exists t, conn_tuple (heap s') p = Some t /\
                 has_tuple (heap s) (ConnGenes gv0 ++ ConnGenes gv1) t) /\
    (forall conn k, conn ∈ ConnGenes gv0 ++ ConnGenes gv1 ->
       conn_key (heap s) conn = Some k ->
       exists p, p ∈ ConnGenes cv /\ conn_key (heap s') p = Some k).
Proof.
  intros Hg0 Hg1 Hid0 Hown0 Hid1 Hown1.
  destruct (Crossover_total id g0 g1 s gv0 gv1 Hg0 Hg1 Hid0 Hown0 Hid1 Hown1)
    as (child & s' & Hrun).
  destruct (valid_keyed _ _ Hid0 Hown0) as [genes0 Hk0].
  destruct (valid_keyed _ _ Hid1 Hown1) as [genes1 Hk1].
  assert (Hin : innov_input (heap s) g0 g1 = Some (gv0, gv1, genes0, genes1)).
  { unfold innov_input. rewrite Hg0. cbn. rewrite Hk0. cbn. rewrite Hg1. cbn.
    by rewrite Hk1. }
  assert (Hid : id_as_index (heap s) (largerParent gv0 gv1)).
  { by destruct (largerParent_cases gv0 gv1) as ([->| ->] & _). }
  destruct (crossover_child s id g0 g1 child s' gv0 gv1 genes0 genes1 Hrun Hin Hid)
    as (Hcv & _ & Hall & Hback).
  eexists child, s', _. split; [done|]. split; [exact Hcv|]. split.
  - intros p Hp. cbn [ConnGenes] in Hp. apply elem_of_seq in Hp.
    destruct (Hback p Hp) as (k & conn & _ & Hm & Hkey & Hkey' & Htup).
    destruct (conn_tuple_is_Some _ _ _ Hkey) as [t Ht].
    exists t. split; [congruence|]. exists conn. split; [|done].
    apply elem_of_app.
    apply alignment_entries in Hm as [Hin0|Hin1].
    + left. by destruct (keyed_elem _ _ _ _ _ Hk0 Hin0).
    + right. by destruct (keyed_elem _ _ _ _ _ Hk1 Hin1).
  - intros conn k Hconn Hkey.
    destruct (alignment_dom genes0 genes1 (rand s) k) as [conn' Hm].
    { apply elem_of_app in Hconn as [Hc|Hc].
      - left. by destruct (keyed_keys _ _ _ _ _ Hk0 Hc Hkey).
      - right. by destruct (keyed_keys _ _ _ _ _ Hk1 Hc Hkey). }
    destruct (Hall k conn' Hm) as (p & Hp & _ & _ & Hkey' & _).
    by exists p.
Qed.

Lemma takes_second_weaken (n : nat) (r : Src) :
  takes_second (S n) r -> takes_second n r.
Proof.
  revert r. induction n as [|n IH]; intros r; [done|].
  intros [H1 H2]. split; [done|by apply IH].
Qed.

Lemma align_spec_other (genes : list ((Z * Z) * loc)) (m : gmap (Z * Z) loc)
    (r : Src) k :
  k ∉ genes.*1 -> (align_spec m genes r).1 !! k = m !! k.
Proof.
  revert m r. induction genes as [|[k' c'] genes IH]; intros m r Hk; [done|].
  cbn [fmap list_fmap fst] in Hk. apply not_elem_of_cons in Hk as [Hne Hk].
  cbn [align_spec]. destruct (m !! k') as [old|] eqn:Em.
  - rewrite IH by done. destruct (PrimFloat.ltb _ _); [|done].
    by rewrite lookup_insert_ne.
  - rewrite IH by done. by rewrite lookup_insert_ne.
Qed.

Lemma align_spec_takes_second (genes : list ((Z * Z) * loc))
    (m : gmap (Z * Z) loc) (r : Src) k conn :
  takes_second (length genes) r ->
  NoDup genes.*1 ->
  (k, conn) ∈ genes ->
  (align_spec m genes r).1 !! k = Some conn.
Proof.
  revert m r. induction genes as [|[k' c'] genes IH]; intros m r Htake Hnd Hin;
    [by apply elem_of_nil in Hin|].
  cbn [fmap list_fmap fst] in Hnd. apply NoDup_cons in Hnd as [Hk' Hnd].
  cbn [align_spec].
  apply elem_of_cons in Hin as [[= -> ->]|Hin].
  - destruct (m !! k') as [old|] eqn:Em.
    + destruct Htake as [-> _]. rewrite align_spec_other by done.
      by rewrite lookup_insert_eq.
    + rewrite align_spec_other by done. by rewrite lookup_insert_eq.
  - destruct (m !! k') as [old|] eqn:Em.
    + destruct Htake as [-> Htake]. by apply IH.
    + apply IH; [by apply takes_second_weaken|done|done].
Qed.

Lemma keyed_NoDup (h : Heap) (gv : Genome) (genes : list ((Z * Z) * loc)) :
  unique_pairs h gv -> keyed h (ConnGenes gv) = Some genes -> NoDup genes.*1.
Proof.
  intros Huni Hk. apply keyed_spec in Hk.
  apply NoDup_alt. intros i j k Hi Hj.
  rewrite list_lookup_fmap in Hi, Hj.
  destruct (genes !! i) as [[ki ci]|] eqn:Ei; [|done].
  destruct (genes !! j) as [[kj cj]|] eqn:Ej; [|done].
  cbn in Hi, Hj. injection Hi as ->. injection Hj as ->.
  destruct (Forall2_lookup_r _ _ _ _ _ Hk Ei) as (conni & Hci & _ & Hki).
  destruct (Forall2_lookup_r _ _ _ _ _ Hk Ej) as (connj & Hcj & _ & Hkj).
  by eapply Huni.
Qed.

(** X17: When every tie-break draw is below 0.5, the child takes the gene of the
    second parent for every pair of endpoint ids that both parents connect:
    the child's connection for that pair carries the weight and the disabled
    flag of [g1]'s connection. *)
Theorem Crossover_takes_second (id : Z) (g0 g1 : loc) (s : State)
    (gv0 gv1 : Genome) :
  genomes (heap s) !! g0 = Some gv0 ->
  genomes (heap s) !! g1 = Some gv1 ->
  valid_genome (heap s) gv0 ->
  valid_genome (heap s) gv1 ->
  takes_second (length (ConnGenes gv1)) (rand s) ->
  exists child s' cv,
    Crossover id g0 g1 s = Done child s' /\
    genomes (heap s') !! child = Some cv /\
    forall conn0 conn1 k,
      conn0 ∈ ConnGenes gv0 -> conn1 ∈ ConnGenes gv1 ->
      conn_key (heap s) conn0 = Some k -> conn_key (heap s) conn1 = Some k ->
      exists p, p ∈ ConnGenes cv /\ conn_key (heap s') p = Some k /\
                conn_tuple (heap s') p = conn_tuple (heap s) conn1.
Proof.
  intros Hg0 Hg1 [Hid0 Hown0 Huni0] [Hid1 Hown1 Huni1] Htake.
  destruct (Crossover_total id g0 g1 s gv0 gv1 Hg0 Hg1 Hid0 Hown0 Hid1 Hown1)
    as (child & s' & Hrun).
  destruct (valid_keyed _ _ Hid0 Hown0) as [genes0 Hk0].
  destruct (valid_keyed _ _ Hid1 Hown1) as [genes1 Hk1].
  assert (Hin : innov_input (heap s) g0 g1 = Some (gv0, gv1, genes0, genes1)).
  { unfold innov_input. rewrite Hg0. cbn. rewrite Hk0. cbn. rewrite Hg1. cbn.
    by rewrite Hk1. }
  assert (Hid : id_as_index (heap s) (largerParent gv0 gv1)).
  { by destruct (largerParent_cases gv0 gv1) as ([->| ->] & _). }
  destruct (crossover_child s id g0 g1 child s' gv0 gv1 genes0 genes1 Hrun Hin Hid)
    as (Hcv & _ & Hall & _).
  eexists child, s', _. split; [done|]. split; [exact Hcv|].
  intros conn0 conn1 k _ Hc1 _ Hkey1.
  destruct (keyed_keys _ _ _ _ _ Hk1 Hc1 Hkey1) as [Hin1 _].
  assert (Hm : (alignment_spec genes0 genes1 (rand s)).1 !! k = Some conn1).
  { apply align_spec_takes_second; [|by eapply keyed_NoDup|done].
    apply keyed_spec, Forall2_length in Hk1. by rewrite <- Hk1. }
  destruct (Hall k conn1 Hm) as (p & Hp & _ & _ & Hkey' & Htup).
  by exists p.
Qed.

End Offspring.

(** * An offspring is ready for mutation *)

Section Lifecycle.

Context {RT : Runtime}.
Variable ActivationSet : gmap string loc.

Lemma prefix_of_lookups {A} (l k : list A) :
  (forall i x, l !! i = Some x -> k !! i = Some x) -> l `prefix_of` k.
Proof.
  intros H. exists (drop (length l) k).
  rewrite <- (take_drop (length l) k) at 1. f_equal.
  apply list_eq. intros i.
  destruct (l !! i) as [x|] eqn:E.
  - rewrite lookup_take_lt by (by eapply lookup_lt_Some). by apply H.
  - apply lookup_ge_None in E. apply lookup_ge_None.
    rewrite length_take. lia.
Qed.

(** Where a returning [Crossover] puts the child. *)
Lemma crossover_done_shape (s : State) (id : Z) (g0 g1 : loc) (child : loc)
    (s' : State) (gv0 gv1 : Genome) :
  crossover_done s id g0 g1 child s' ->
  genomes (heap s) !! g0 = Some gv0 ->
  genomes (heap s) !! g1 = Some gv1 ->
  exists vals cvals len,
    child = length (genomes (heap s)) /\
    heap s' =
      mkHeap (nodes (heap s) ++ vals) (conns (heap s) ++ cvals)
             (genomes (heap s) ++
              [mkGenome id
                 (seq (length (nodes (heap s)))
                      (length (NodeGenes (largerParent gv0 gv1))))
                 (seq (length (conns (heap s))) len)]).
Proof.
  intros (gv0' & gv1' & genes0 & genes1 & vals & cvals & Hin & Hspec) Hg0 Hg1.
  destruct (innov_input_Some _ _ _ _ _ _ _ Hin) as (Hg0' & Hg1' & _ & _).
  assert (gv0' = gv0) as -> by congruence.
  assert (gv1' = gv1) as -> by congruence.
  cbn zeta in Hspec. destruct Hspec as (-> & -> & _ & _).
  by eexists vals, cvals, _.
Qed.

(** X18: The child of two parents whose ids are positions and whose connections
    join their own nodes, one of them with a node, can be mutated at once:
    [Crossover] returns, [Mutate] on the child returns for any rates, the
    child is valid afterwards, and every object the heap had before the two
    calls (the parents and their genes among them) is as it was. *)
Theorem Crossover_then_Mutate (id : Z) (g0 g1 : loc)
    (ratePerturb rateAddNode rateAddConn : float) (s : State) (gv0 gv1 : Genome) :
  genomes (heap s) !! g0 = Some gv0 ->
  genomes (heap s) !! g1 = Some gv1 ->
  id_as_index (heap s) gv0 -> endpoints_owned (heap s) gv0 ->
  id_as_index (heap s) gv1 -> endpoints_owned (heap s) gv1 ->
  NodeGenes gv0 <> [] \/ NodeGenes gv1 <> [] ->
  exists child s1 s2 cv,
    Crossover id g0 g1 s = Done child s1 /\
    Mutate ActivationSet child ratePerturb rateAddNode rateAddConn s1 = Done tt s2 /\
    genomes (heap s2) !! child = Some cv /\
    valid_genome (heap s2) cv /\
    heap_extends (heap s) (heap s2).
Proof.
  intros Hg0 Hg1 Hid0 Hown0 Hid1 Hown1 Hnode.
  destruct (Crossover_total id g0 g1 s gv0 gv1 Hg0 Hg1 Hid0 Hown0 Hid1 Hown1)
    as (child & s1 & Hrun).
  pose proof (Crossover_spec id g0 g1 s) as Hspec. unfold wp in Hspec.
  rewrite Hrun in Hspec.
  destruct (largerParent_cases gv0 gv1) as (Hwhich & Hl0 & Hl1).
  assert (Hid : id_as_index (heap s) (largerParent gv0 gv1)).
  { by destruct Hwhich as [-> | ->]. }
  destruct (crossover_done_valid s id g0 g1 child s1 gv0 gv1 Hspec Hg0 Hg1 Hid)
    as (cv1 & Hcv1 & _ & Hvalid1).
  destruct (crossover_done_shape s id g0 g1 child s1 gv0 gv1 Hspec Hg0 Hg1)
    as (vals & cvals & len & Hchild & Hh1).
  assert (Hcv1' : cv1 = mkGenome id
             (seq (length (nodes (heap s)))
                  (length (NodeGenes (largerParent gv0 gv1))))
             (seq (length (conns (heap s))) len)).
  { rewrite Hh1, Hchild in Hcv1. cbn [genomes] in Hcv1.
    rewrite lookup_app_r, Nat.sub_diag in Hcv1 by done. by injection Hcv1 as <-. }
  assert (Hn1 : NodeGenes cv1 <> []).
  { rewrite Hcv1'. cbn [NodeGenes]. intros E%(f_equal length).
    rewrite length_seq in E. cbn in E.
    destruct Hnode as [H|H]; apply H.
    - apply length_zero_iff_nil. lia.
    - apply length_zero_iff_nil. lia. }
  destruct (Mutate_valid_step ActivationSet child ratePerturb rateAddNode
              rateAddConn s1) as (s2 & Hmut & cv & Hcv & Hvalid & _);
    [by exists cv1|].
  exists child, s1, s2, cv.
  split; [done|]. split; [done|]. split; [done|]. split; [done|].
  pose proof (Mutate_grows_final ActivationSet child ratePerturb rateAddNode
                rateAddConn s1) as [(Hn & _ & _ & Hlen & Hother) _].
  pose proof (Mutate_frame ActivationSet child ratePerturb rateAddNode rateAddConn
                s1 cv1 Hcv1) as Hframe.
  rewrite Hmut in Hn, Hlen, Hother, Hframe. cbn [final] in Hn, Hlen, Hother, Hframe.
  split; [|split].
  - etrans; [|exact Hn]. rewrite Hh1. cbn. by apply prefix_app_r.
  - apply prefix_of_lookups. intros p c Hp. apply Hframe.
    + rewrite Hcv1'. cbn [ConnGenes]. rewrite elem_of_seq.
      apply lookup_lt_Some in Hp. lia.
    + rewrite Hh1. cbn. by apply lookup_app_l_Some.
  - apply prefix_of_lookups. intros p gv Hp.
    assert (Hlt : (p < length (genomes (heap s)))%nat) by (by eapply lookup_lt_Some).
    rewrite Hother by lia. rewrite Hh1. cbn. by apply lookup_app_l_Some.
Qed.

End Lifecycle.

(** ** The further properties at concrete genomes *)

Lemma Mutate_keeps_valid_witness :
  genomes (heap small_state) !! 0%nat = Some small_genome /\
  valid_genome (heap small_state) small_genome /\
  NodeGenes small_genome <> [] /\
  (exists s' gv',
      Mutate registry 0%nat 0.75 0.75 0.75 small_state = Done tt s' /\
      genomes (heap s') !! 0%nat = Some gv' /\
      valid_genome (heap s') gv') /\
  (forall n, exists s' gv',
      repeatM n (Mutate registry 0%nat 0.75 0.75 0.75) small_state = Done tt s' /\
      genomes (heap s') !! 0%nat = Some gv' /\
      valid_genome (heap s') gv').
Proof.
  assert (Hg : genomes (heap small_state) !! 0%nat = Some small_genome) by reflexivity.
  assert (Hn : NodeGenes small_genome <> []) by discriminate.
  split; [exact Hg|]. split; [exact small_genome_valid|]. split; [exact Hn|].
  exact (Mutate_keeps_valid registry 0%nat 0.75 0.75 0.75 small_state small_genome
           Hg small_genome_valid Hn).
Defined.
Lemma pair_genes_apart :
  forall conn, conn ∈ ConnGenes second_genome -> conn ∉ ConnGenes first_genome.
Proof.
  intros conn H1 H2. cbn in H1, H2.
  rewrite !elem_of_cons, elem_of_nil in H1. rewrite !elem_of_cons, elem_of_nil in H2.
  lia.
Qed.

Lemma Mutate_leaves_others_witness :
  genomes (heap pair_state) !! 0%nat = Some first_genome /\
  genomes (heap pair_state) !! 1%nat = Some second_genome /\
  1%nat <> 0%nat /\
  (forall conn, conn ∈ ConnGenes second_genome -> conn ∉ ConnGenes first_genome) /\
  let h' := heap (final (Mutate registry 0%nat 1 1 1 pair_state)) in
  genomes h' !! 1%nat = Some second_genome /\
  (forall conn c, conn ∈ ConnGenes second_genome ->
     conns (heap pair_state) !! conn = Some c -> conns h' !! conn = Some c) /\
  (forall conn t, conn ∈ ConnGenes second_genome ->
     conn_tuple (heap pair_state) conn = Some t -> conn_tuple h' conn = Some t) /\
  (valid_genome (heap pair_state) second_genome -> valid_genome h' second_genome).
Proof.
  assert (H0 : genomes (heap pair_state) !! 0%nat = Some first_genome) by reflexivity.
  assert (H1 : genomes (heap pair_state) !! 1%nat = Some second_genome) by reflexivity.
  assert (Hne : 1%nat <> 0%nat) by discriminate.
  split; [exact H0|]. split; [exact H1|]. split; [exact Hne|].
  split; [exact pair_genes_apart|].
  exact (Mutate_leaves_others registry 0%nat 1%nat 1 1 1 pair_state first_genome
           second_genome H0 H1 Hne pair_genes_apart).
Defined.

Lemma Crossover_child_valid_witness :
  genomes (heap pair_state) !! 0%nat = Some first_genome /\
  genomes (heap pair_state) !! 1%nat = Some second_genome /\
  id_as_index (heap pair_state) first_genome /\
  endpoints_owned (heap pair_state) first_genome /\
  id_as_index (heap pair_state) second_genome /\
  endpoints_owned (heap pair_state) second_genome /\
  exists child s' cv,
    Crossover 3 0%nat 1%nat pair_state = Done child s' /\
    genomes (heap s') !! child = Some cv /\
    GenomeID cv = 3 /\
    valid_genome (heap s') cv.
Proof.
  assert (H0 : genomes (heap pair_state) !! 0%nat = Some first_genome) by reflexivity.
  assert (H1 : genomes (heap pair_state) !! 1%nat = Some second_genome) by reflexivity.
  pose proof (valid_ids _ _ first_genome_valid) as Hi0.
  pose proof (valid_endpoints _ _ first_genome_valid) as He0.
  pose proof (valid_ids _ _ second_genome_valid) as Hi1.
  pose proof (valid_endpoints _ _ second_genome_valid) as He1.
  split; [exact H0|]. split; [exact H1|]. split; [exact Hi0|]. split; [exact He0|].
  split; [exact Hi1|]. split; [exact He1|].
  exact (Crossover_child_valid 3 0%nat 1%nat pair_state first_genome second_genome
           H0 H1 Hi0 He0 Hi1 He1).
Defined.

Lemma Crossover_child_genes_witness :
  genomes (heap pair_state) !! 0%nat = Some first_genome /\
  genomes (heap pair_state) !! 1%nat = Some second_genome /\
  id_as_index (heap pair_state) first_genome /\
  endpoints_owned (heap pair_state) first_genome /\
  id_as_index (heap pair_state) second_genome /\
  endpoints_owned (heap pair_state) second_genome /\
  exists child s' cv,
    Crossover 3 0%nat 1%nat pair_state = Done child s' /\
    genomes (heap s') !! child = Some cv /\
    (forall p, p ∈ ConnGenes cv ->
       exists t, conn_tuple (heap s') p = Some t /\
                 has_tuple (heap pair_state)
                   (ConnGenes first_genome ++ ConnGenes second_genome) t) /\
    (forall conn k, conn ∈ ConnGenes first_genome ++ ConnGenes second_genome ->
       conn_key (heap pair_state) conn = Some k ->
       exists p, p ∈ ConnGenes cv /\ conn_key (heap s') p = Some k).
Proof.
  assert (H0 : genomes (heap pair_state) !! 0%nat = Some first_genome) by reflexivity.
  assert (H1 : genomes (heap pair_state) !! 1%nat = Some second_genome) by reflexivity.
  pose proof (valid_ids _ _ first_genome_valid) as Hi0.
  pose proof (valid_endpoints _ _ first_genome_valid) as He0.
  pose proof (valid_ids _ _ second_genome_valid) as Hi1.
  pose proof (valid_endpoints _ _ second_genome_valid) as He1.
  split; [exact H0|]. split; [exact H1|]. split; [exact Hi0|]. split; [exact He0|].
  split; [exact Hi1|]. split; [exact He1|].
  exact (Crossover_child_genes 3 0%nat 1%nat pair_state first_genome second_genome
           H0 H1 Hi0 He0 Hi1 He1).
Defined.

Lemma Crossover_then_Mutate_witness :
  genomes (heap pair_state) !! 0%nat = Some first_genome /\
  genomes (heap pair_state) !! 1%nat = Some second_genome /\
  id_as_index (heap pair_state) first_genome /\
  endpoints_owned (heap pair_state) first_genome /\
  id_as_index (heap pair_state) second_genome /\
  endpoints_owned (heap pair_state) second_genome /\
  (NodeGenes first_genome <> [] \/ NodeGenes second_genome <> []) /\
  exists child s1 s2 cv,
    Crossover 3 0%nat 1%nat pair_state = Done child s1 /\
    Mutate registry child 0.5 0.5 0.5 s1 = Done tt s2 /\
    genomes (heap s2) !! child = Some cv /\
    valid_genome (heap s2) cv /\
    heap_extends (heap pair_state) (heap s2).
Proof.
  assert (H0 : genomes (heap pair_state) !! 0%nat = Some first_genome) by reflexivity.
  assert (H1 : genomes (heap pair_state) !! 1%nat = Some second_genome) by reflexivity.
  pose proof (valid_ids _ _ first_genome_valid) as Hi0.
  pose proof (valid_endpoints _ _ first_genome_valid) as He0.
  pose proof (valid_ids _ _ second_genome_valid) as Hi1.
  pose proof (valid_endpoints _ _ second_genome_valid) as He1.
  assert (Hn : NodeGenes first_genome <> [] \/ NodeGenes second_genome <> [])
    by (left; discriminate).
  split; [exact H0|]. split; [exact H1|]. split; [exact Hi0|]. split; [exact He0|].
  split; [exact Hi1|]. split; [exact He1|]. split; [exact Hn|].
  exact (Crossover_then_Mutate registry 3 0%nat 1%nat 0.5 0.5 0.5 pair_state
           first_genome second_genome H0 H1 Hi0 He0 Hi1 He1 Hn).
Defined.
Lemma Mutate_rates_off_witness :
  genomes (heap small_state) !! 0%nat = Some small_genome /\
  PrimFloat.ltb 0 (-1) = false /\
  PrimFloat.ltb 0 nan = false /\
  PrimFloat.ltb 0 0 = false /\
  Mutate registry 0%nat (-1) nan 0 small_state =
    Done tt (mkState (heap small_state)
               (skip_floats (2 + length (ConnGenes small_genome))
                            (rand small_state))).
Proof.
  assert (Hg : genomes (heap small_state) !! 0%nat = Some small_genome) by reflexivity.
  assert (H1 : PrimFloat.ltb 0 (-1) = false) by reflexivity.
  assert (H2 : PrimFloat.ltb 0 nan = false) by reflexivity.
  assert (H3 : PrimFloat.ltb 0 0 = false) by reflexivity.
  split; [exact Hg|]. split; [exact H1|]. split; [exact H2|]. split; [exact H3|].
  exact (Mutate_rates_off registry 0%nat (-1) nan 0 small_state small_genome
           Hg H1 H2 H3).
Defined.

Lemma NewGenome_negative_count_witness :
  - 2 ^ 63 <= -1 + 2 < 2 ^ 63 /\
  - 2 ^ 63 <= -1 * 2 < 2 ^ 63 /\
  (-1 < 0 \/ 2 < 0) /\
  NewGenome registry [] 1 (-1) 2 bare_state = Panicked bare_state.
Proof.
  assert (H1 : - 2 ^ 63 <= -1 + 2 < 2 ^ 63) by lia.
  assert (H2 : - 2 ^ 63 <= -1 * 2 < 2 ^ 63) by lia.
  assert (H3 : -1 < 0 \/ 2 < 0) by (left; lia).
  split; [exact H1|]. split; [exact H2|]. split; [exact H3|].
  exact (NewGenome_negative_count registry [] 1 (-1) 2 bare_state H1 H2 H3).
Defined.

Lemma NewGenome_locals_connected_witness :
  0 <= 2 /\ 0 <= 1 /\ 2 + 1 < 2 ^ 63 /\ 2 * 1 < 2 ^ 63 /\
  let s := small_state in
  let a := Z.to_nat 2 in
  let b := Z.to_nat 1 in
  let N := length (nodes (heap s)) in
  let C := length (conns (heap s)) in
  exists s1,
    NewGenome_locals registry 2 1 s = Done (seq N (a + b), seq C (b * a)) s1 /\
    nodes (heap s1) = nodes (heap s) ++ layer_nodes registry 2 1 /\
    genomes (heap s1) = genomes (heap s) /\
    conns (heap s) `prefix_of` conns (heap s1) /\
    length (conns (heap s1)) = (C + b * a)%nat /\
    wired a N C (conns (heap s1)) /\
    forall id, valid_genome (heap s1) (mkGenome id (seq N (a + b)) (seq C (b * a))).
Proof.
  assert (H1 : 0 <= 2) by lia. assert (H2 : 0 <= 1) by lia.
  assert (H3 : 2 + 1 < 2 ^ 63) by lia. assert (H4 : 2 * 1 < 2 ^ 63) by lia.
  split; [exact H1|]. split; [exact H2|]. split; [exact H3|]. split; [exact H4|].
  exact (NewGenome_locals_connected registry 2 1 small_state H1 H2 H3 H4).
Defined.

Lemma small_nodes_active :
  forall n v, n ∈ NodeGenes small_genome -> nodes small_heap !! n = Some v ->
              is_Some (Activation v).
Proof.
  intros n v _ Hv.
  do 3 (destruct n as [|n]; [injection Hv as <-; by eexists|]). done.
Qed.

Lemma Genome_String_renders_witness :
  genomes small_heap !! 0%nat = Some small_genome /\
  id_as_index small_heap small_genome /\
  endpoints_owned small_heap small_genome /\
  (forall n v, n ∈ NodeGenes small_genome -> nodes small_heap !! n = Some v ->
               is_Some (Activation v)) /\
  is_Some (Genome_String registry_names fixed_3f small_heap 0%nat).
Proof.
  assert (Hg : genomes small_heap !! 0%nat = Some small_genome) by reflexivity.
  pose proof (valid_ids _ _ small_genome_valid) as Hi.
  pose proof (valid_endpoints _ _ small_genome_valid) as He.
  split; [exact Hg|]. split; [exact Hi|]. split; [exact He|].
  split; [exact small_nodes_active|].
  exact (Genome_String_renders registry_names fixed_3f small_heap 0%nat small_genome
           Hg Hi He small_nodes_active).
Defined.

Lemma Mutate_unprintable_witness :
  bare_registry !! "sigmoid" = None /\
  genomes (heap small_state) !! 0%nat = Some small_genome /\
  ConnGenes small_genome <> [] /\
  (forall conn, conn ∈ ConnGenes small_genome ->
                is_Some (conns (heap small_state) !! conn)) /\
  Genome_String registry_names fixed_3f
    (heap (final (Mutate bare_registry 0%nat 0.5 1 0.5 small_state))) 0%nat = None.
Proof.
  assert (Hs : bare_registry !! "sigmoid" = None) by reflexivity.
  assert (Hg : genomes (heap small_state) !! 0%nat = Some small_genome) by reflexivity.
  assert (Hn : ConnGenes small_genome <> []) by discriminate.
  pose proof (small_conns_allocated (rand small_state)) as Hal.
  split; [exact Hs|]. split; [exact Hg|]. split; [exact Hn|]. split; [exact Hal|].
  exact (Mutate_unprintable bare_registry registry_names fixed_3f 0%nat 0.5 0.5
           small_state small_genome Hs Hg Hn Hal).
Defined.

Lemma NewGenome_renders_header_witness :
  0 <= 2 /\ 0 <= 1 /\ 2 + 1 < 2 ^ 63 /\ 2 * 1 < 2 ^ 63 /\
  exists g s',
    NewGenome registry [] 7 2 1 bare_state = Done g s' /\
    Genome_String registry_names fixed_3f (heap s') g
      = Some ("Genome(" +:+ pretty 7 +:+ "):").
Proof.
  assert (H1 : 0 <= 2) by lia. assert (H2 : 0 <= 1) by lia.
  assert (H3 : 2 + 1 < 2 ^ 63) by lia. assert (H4 : 2 * 1 < 2 ^ 63) by lia.
  split; [exact H1|]. split; [exact H2|]. split; [exact H3|]. split; [exact H4|].
  exact (NewGenome_renders_header registry registry_names fixed_3f [] 7 2 1
           bare_state H1 H2 H3 H4).
Defined.

Lemma nil_genome_panics_witness :
  genomes (heap small_state) !! 3%nat = None /\
  (forall ratePerturb rateAddNode rateAddConn,
      Mutate registry 3%nat ratePerturb rateAddNode rateAddConn small_state
        = Panicked small_state) /\
  (forall id g1, Crossover id 3%nat g1 small_state = Panicked small_state) /\
  (forall id g0, Crossover id g0 3%nat small_state = Panicked small_state) /\
  Genome_String registry_names fixed_3f (heap small_state) 3%nat = None.
Proof.
  assert (Hg : genomes (heap small_state) !! 3%nat = None) by reflexivity.
  split; [exact Hg|].
  exact (nil_genome_panics registry registry_names fixed_3f 3%nat small_state Hg).
Defined.

Lemma add_conn_any_pair_witness :
  genomes (heap loop_state) !! 0%nat = Some small_genome /\
  (forall conn, conn ∈ ConnGenes small_genome ->
                is_Some (conns (heap loop_state) !! conn)) /\
  let n := Z.of_nat (length (NodeGenes small_genome)) in
  let r := (Float64 (Float64 (skip_floats (length (ConnGenes small_genome))
                                          (rand loop_state))).2).2 in
  NodeGenes small_genome !! Z.to_nat (Intn_pos n r).1 = Some 2%nat /\
  NodeGenes small_genome !! Z.to_nat (Intn_pos n (Intn_pos n r).2).1 = Some 2%nat /\
  has_edge (heap loop_state) (ConnGenes small_genome) 2%nat 2%nat = false /\
  exists s' w,
    Mutate registry 0%nat 0 0 1 loop_state = Done tt s' /\
    nodes (heap s') = nodes (heap loop_state) /\
    conns (heap s') = conns (heap loop_state) ++ [mkConnGene 2%nat 2%nat w false] /\
    genomes (heap s') !! 0%nat =
      Some (mkGenome (GenomeID small_genome) (NodeGenes small_genome)
                     (ConnGenes small_genome ++ [length (conns (heap loop_state))])).
Proof.
  assert (Hg : genomes (heap loop_state) !! 0%nat = Some small_genome) by reflexivity.
  pose proof (small_conns_allocated (rand loop_state)) as Hal.
  split; [exact Hg|]. split; [exact Hal|]. cbn zeta.
  assert (H0 : NodeGenes small_genome !!
                 Z.to_nat (Intn_pos (Z.of_nat (length (NodeGenes small_genome)))
                    (Float64 (Float64 (skip_floats (length (ConnGenes small_genome))
                                                   (rand loop_state))).2).2).1
               = Some 2%nat) by reflexivity.
  assert (H1 : NodeGenes small_genome !!
                 Z.to_nat (Intn_pos (Z.of_nat (length (NodeGenes small_genome)))
                    (Intn_pos (Z.of_nat (length (NodeGenes small_genome)))
                       (Float64 (Float64 (skip_floats (length (ConnGenes small_genome))
                                                      (rand loop_state))).2).2).2).1
               = Some 2%nat) by reflexivity.
  assert (He : has_edge (heap loop_state) (ConnGenes small_genome) 2%nat 2%nat = false)
    by reflexivity.
  split; [exact H0|]. split; [exact H1|]. split; [exact He|].
  exact (add_conn_any_pair registry 0%nat loop_state small_genome 2%nat 2%nat
           Hg Hal H0 H1 He).
Defined.
Lemma Crossover_takes_second_witness :
  genomes (heap second_state) !! 0%nat = Some first_genome /\
  genomes (heap second_state) !! 1%nat = Some second_genome /\
  valid_genome (heap second_state) first_genome /\
  valid_genome (heap second_state) second_genome /\
  takes_second (length (ConnGenes second_genome)) (rand second_state) /\
  exists child s' cv,
    Crossover 3 0%nat 1%nat second_state = Done child s' /\
    genomes (heap s') !! child = Some cv /\
    forall conn0 conn1 k,
      conn0 ∈ ConnGenes first_genome -> conn1 ∈ ConnGenes second_genome ->
      conn_key (heap second_state) conn0 = Some k ->
      conn_key (heap second_state) conn1 = Some k ->
      exists p, p ∈ ConnGenes cv /\ conn_key (heap s') p = Some k /\
                conn_tuple (heap s') p = conn_tuple (heap second_state) conn1.
Proof.
  assert (H0 : genomes (heap second_state) !! 0%nat = Some first_genome) by reflexivity.
  assert (H1 : genomes (heap second_state) !! 1%nat = Some second_genome) by reflexivity.
  assert (Ht : takes_second (length (ConnGenes second_genome)) (rand second_state)).
  { cbn. repeat split; reflexivity. }
  split; [exact H0|]. split; [exact H1|]. split; [exact first_genome_valid|].
  split; [exact second_genome_valid|]. split; [exact Ht|].
  exact (Crossover_takes_second 3 0%nat 1%nat second_state first_genome second_genome
           H0 H1 first_genome_valid second_genome_valid Ht).
Defined.
Lemma Mutate_without_connections_witness :
  genomes (heap bare_state) !! 0%nat = Some (mkGenome 5 [] []) /\
  ConnGenes (mkGenome 5 [] []) = [] /\
  let h' := heap (final (Mutate registry 0%nat 1 1 1 bare_state)) in
  h' = heap bare_state \/
  exists n0 n1 w, n0 ∈ NodeGenes (mkGenome 5 [] []) /\
                  n1 ∈ NodeGenes (mkGenome 5 [] []) /\
                  h' = link_nodes (heap bare_state) 0%nat (mkGenome 5 [] []) n0 n1 w.
Proof.
  assert (Hg : genomes (heap bare_state) !! 0%nat = Some (mkGenome 5 [] []))
    by reflexivity.
  assert (Hc : ConnGenes (mkGenome 5 [] []) = []) by reflexivity.
  split; [exact Hg|]. split; [exact Hc|].
  exact (Mutate_without_connections registry 0%nat 1 1 1 bare_state
           (mkGenome 5 [] []) Hg Hc).
Defined.
